(** * Polymarket streaming WebSocket client: subscription bookkeeping

    A shallow embedding of
    [nautilus_trader/adapters/polymarket/websocket/client.py]
    ([PolymarketWebSocketClient]) and the properties of its reference
    counting, its slot pool and its control messages.

    Python objects are modelled by the values they hold: [self] is the
    record [Client]; every method is a state transformer that also
    returns the list of effects it performed (log records, transport
    calls).  Each call runs to completion before the next one starts:
    tasks are not interleaved at their [await] points.  What the
    transport answers is a parameter of every call that reaches it.
    [disconnect], [is_connected] and the reconnection hook are not part
    of the embedding. *)

From Stdlib Require Import ZArith List String Lia Permutation.
From stdpp Require Import base option list gmap strings fin_maps.
Import ListNotations.
Local Open Scope Z_scope.

(** ** Python containers *)

(** [bool(l)] for a list. *)
Definition truthy {A : Type} (l : list A) : bool :=
  match l with [] => false | _ :: _ => true end.

(** [l.remove(x)]: drops the first occurrence of [x]; Python raises
    [ValueError] when there is none, which is [None] here. *)
Fixpoint list_remove (x : string) (l : list string) : option (list string) :=
  match l with
  | [] => None
  | y :: l' =>
      if bool_decide (x = y) then Some l'
      else cons y <$> list_remove x l'
  end.

(** A [dict] with [int] keys whose iteration order matters: the items in
    insertion order. *)
Section OrderedDict.
Context {V : Type}.

(** [d.get(k)] *)
Fixpoint od_get (k : Z) (d : list (Z * V)) : option V :=
  match d with
  | [] => None
  | (k', v) :: d' => if Z.eqb k k' then Some v else od_get k d'
  end.

(** [d[k] = v]: replaces in place, a new key goes last. *)
Fixpoint od_set (k : Z) (v : V) (d : list (Z * V)) : list (Z * V) :=
  match d with
  | [] => [(k, v)]
  | (k', v') :: d' =>
      if Z.eqb k k' then (k, v) :: d' else (k', v') :: od_set k v d'
  end.

(** [k in d] *)
Definition od_mem (k : Z) (d : list (Z * V)) : bool :=
  match od_get k d with Some _ => true | None => false end.
End OrderedDict.

(** ** Channel kind *)

Inductive PolymarketWebSocketChannel : Set := MARKET | USER.

(** [channel.value] *)
Definition channel_value (c : PolymarketWebSocketChannel) : string :=
  match c with MARKET => "market" | USER => "user" end.

(** ** The transport session *)

(** Modelled from the spec: [WebSocketClient] (nautilus_pyo3) is the
    external transport session; the client only observes its state through
    [is_active()], [is_disconnecting()] and [is_closed()]. *)
Inductive ConnectionMode : Set :=
  ModeActive | ModeReconnect | ModeDisconnect | ModeClosed.

Record WebSocketClient : Set := { mode : ConnectionMode }.

Definition is_active (c : WebSocketClient) : bool :=
  match mode c with ModeActive => true | _ => false end.
Definition is_disconnecting (c : WebSocketClient) : bool :=
  match mode c with ModeDisconnect => true | _ => false end.
Definition is_closed (c : WebSocketClient) : bool :=
  match mode c with ModeClosed => true | _ => false end.

(** What the transport answers during one call of the client: whether
    [WebSocketClient.connect] succeeds for a slot, whether [send_text]
    succeeds on its session, whether [disconnect] succeeds. *)
Record Transport : Type := {
  connect_ok : Z → bool;
  send_ok : Z → bool;
  disconnect_ok : Z → bool
}.

(** A transport on which every call succeeds. *)
Definition reliable : Transport :=
  {| connect_ok := λ _, true; send_ok := λ _, true; disconnect_ok := λ _, true |}.

Inductive PyError : Set :=
| KeyError
| ValueError
| ConnectError.  (* raised by [WebSocketClient.connect] *)

Inductive LogLevel : Set := DEBUG | INFO | WARNING | ERROR.

Section Client.
(** [PolymarketWebSocketAuth]: the credentials object, opaque to the
    client. *)
Context {PolymarketWebSocketAuth : Type}.

(** ** Control messages *)

Inductive JsonValue : Type :=
| JStr (s : string)
| JList (l : list string)
| JAuth (a : option PolymarketWebSocketAuth).

(** A [dict[str, Any]] literal, in the order it is written (the order
    in which [msgspec.json.encode] emits it). *)
Definition Msg : Type := list (string * JsonValue).

Fixpoint msg_get (key : string) (m : Msg) : option JsonValue :=
  match m with
  | [] => None
  | (k, v) :: m' => if bool_decide (key = k) then Some v else msg_get key m'
  end.

(** ** Effects *)

(** The pieces of an f-string. *)
Inductive Piece : Type :=
| Txt (s : string)
| Int (n : Z)
| Obj (m : Msg)
| ErrText (cid : Z).  (* [{e!s}] of the transport error on slot [cid] *)

Inductive Event : Type :=
| EvLog (lvl : LogLevel) (text : list Piece)
| EvConnect (cid : Z) (ok : bool)            (* [WebSocketClient.connect] *)
| EvSend (cid : Z) (msg : Msg) (ok : bool)   (* [client.send_text] *)
| EvDisconnect (cid : Z) (ok : bool).        (* [client.disconnect] *)

(** ** The client object *)

Record Client : Type := {
  _max_subscriptions_per_connection : Z;
  _channel : PolymarketWebSocketChannel;
  _base_url : string;
  _ws_url : string;
  _auth : option PolymarketWebSocketAuth;
  _subscriptions : list string;
  _subscription_counts : gmap string Z;
  _clients : gmap Z (option WebSocketClient);
  _client_subscriptions : list (Z * list string);
  _is_connecting : gmap Z bool;
  _next_client_id : Z
}.

Definition set_subscriptions (v : list string) (s : Client) : Client :=
  {| _max_subscriptions_per_connection := _max_subscriptions_per_connection s;
     _channel := _channel s; _base_url := _base_url s; _ws_url := _ws_url s;
     _auth := _auth s;
     _subscriptions := v;
     _subscription_counts := _subscription_counts s;
     _clients := _clients s;
     _client_subscriptions := _client_subscriptions s;
     _is_connecting := _is_connecting s;
     _next_client_id := _next_client_id s |}.

Definition set_subscription_counts (v : gmap string Z) (s : Client) : Client :=
  {| _max_subscriptions_per_connection := _max_subscriptions_per_connection s;
     _channel := _channel s; _base_url := _base_url s; _ws_url := _ws_url s;
     _auth := _auth s;
     _subscriptions := _subscriptions s;
     _subscription_counts := v;
     _clients := _clients s;
     _client_subscriptions := _client_subscriptions s;
     _is_connecting := _is_connecting s;
     _next_client_id := _next_client_id s |}.

Definition set_clients (v : gmap Z (option WebSocketClient)) (s : Client) : Client :=
  {| _max_subscriptions_per_connection := _max_subscriptions_per_connection s;
     _channel := _channel s; _base_url := _base_url s; _ws_url := _ws_url s;
     _auth := _auth s;
     _subscriptions := _subscriptions s;
     _subscription_counts := _subscription_counts s;
     _clients := v;
     _client_subscriptions := _client_subscriptions s;
     _is_connecting := _is_connecting s;
     _next_client_id := _next_client_id s |}.

Definition set_client_subscriptions (v : list (Z * list string)) (s : Client) : Client :=
  {| _max_subscriptions_per_connection := _max_subscriptions_per_connection s;
     _channel := _channel s; _base_url := _base_url s; _ws_url := _ws_url s;
     _auth := _auth s;
     _subscriptions := _subscriptions s;
     _subscription_counts := _subscription_counts s;
     _clients := _clients s;
     _client_subscriptions := v;
     _is_connecting := _is_connecting s;
     _next_client_id := _next_client_id s |}.

Definition set_is_connecting (v : gmap Z bool) (s : Client) : Client :=
  {| _max_subscriptions_per_connection := _max_subscriptions_per_connection s;
     _channel := _channel s; _base_url := _base_url s; _ws_url := _ws_url s;
     _auth := _auth s;
     _subscriptions := _subscriptions s;
     _subscription_counts := _subscription_counts s;
     _clients := _clients s;
     _client_subscriptions := _client_subscriptions s;
     _is_connecting := v;
     _next_client_id := _next_client_id s |}.

Definition set_next_client_id (v : Z) (s : Client) : Client :=
  {| _max_subscriptions_per_connection := _max_subscriptions_per_connection s;
     _channel := _channel s; _base_url := _base_url s; _ws_url := _ws_url s;
     _auth := _auth s;
     _subscriptions := _subscriptions s;
     _subscription_counts := _subscription_counts s;
     _clients := _clients s;
     _client_subscriptions := _client_subscriptions s;
     _is_connecting := _is_connecting s;
     _next_client_id := v |}.

(** [__init__]; [base_url or "wss://..."] takes the default for [None]
    and for the empty string. *)
Definition init (base_url : option string) (channel : PolymarketWebSocketChannel)
    (auth : option PolymarketWebSocketAuth)
    (max_subscriptions_per_connection : Z) : Client :=
  let base :=
    match base_url with
    | Some (String c u) => String c u
    | _ => "wss://ws-subscriptions-clob.polymarket.com/ws/"%string
    end in
  {| _max_subscriptions_per_connection := max_subscriptions_per_connection;
     _channel := channel;
     _base_url := base;
     _ws_url := String.append base (channel_value channel);
     _auth := auth;
     _subscriptions := [];
     _subscription_counts := ∅;
     _clients := ∅;
     _client_subscriptions := [];
     _is_connecting := ∅;
     _next_client_id := 0 |}.

(** ** Running a method

    A method maps the object to its outcome, the updated object and the
    effects it performed, in order. *)

Inductive Outcome (A : Type) : Type :=
| Returned (a : A)
| Raised (e : PyError)
| Spinning.  (* stuck in a polling loop whose flag nothing clears *)
Global Arguments Returned {A} a.
Global Arguments Raised {A} e.
Global Arguments Spinning {A}.

Definition Run (A : Type) : Type := Client → Outcome A * Client * list Event.

Global Instance run_ret : MRet Run := λ A a s, (Returned a, s, []).

Global Instance run_bind : MBind Run := λ A B f m s,
  match m s with
  | (Returned a, s1, t1) => let '(r, s2, t2) := f a s1 in (r, s2, t1 ++ t2)
  | (Raised e, s1, t1) => (Raised e, s1, t1)
  | (Spinning, s1, t1) => (Spinning, s1, t1)
  end.

Definition get : Run Client := λ s, (Returned s, s, []).
Definition gets {A : Type} (f : Client → A) : Run A := λ s, (Returned (f s), s, []).
Definition modify (f : Client → Client) : Run unit := λ s, (Returned tt, f s, []).
Definition emit (e : Event) : Run unit := λ s, (Returned tt, s, [e]).
Definition log (lvl : LogLevel) (text : list Piece) : Run unit := emit (EvLog lvl text).
Definition raise {A : Type} (e : PyError) : Run A := λ s, (Raised e, s, []).
Definition spin {A : Type} : Run A := λ s, (Spinning, s, []).

(** [try: m finally: fin] *)
Definition finally {A : Type} (m : Run A) (fin : Run unit) : Run A := λ s,
  match m s with
  | (Spinning, s1, t1) => (Spinning, s1, t1)
  | (r, s1, t1) =>
      match fin s1 with
      | (Returned _, s2, t2) => (r, s2, t1 ++ t2)
      | (Raised e, s2, t2) => (Raised e, s2, t1 ++ t2)
      | (Spinning, s2, t2) => (Spinning, s2, t1 ++ t2)
      end
  end.

(** [for x in l: f(x)] *)
Fixpoint for_each {A : Type} (f : A → Run unit) (l : list A) : Run unit :=
  match l with
  | [] => mret tt
  | x :: l' => f x ;; for_each f l'
  end.

(** The parts of a run. *)
Definition outcome_of {A : Type} (r : Outcome A * Client * list Event) : Outcome A := r.1.1.
Definition state_of {A : Type} (r : Outcome A * Client * list Event) : Client := r.1.2.
Definition events_of {A : Type} (r : Outcome A * Client * list Event) : list Event := r.2.

(** [self._subscription_counts.get(subscription, 0)] *)
Definition count_of (s : Client) (subscription : string) : Z :=
  default 0 (_subscription_counts s !! subscription).

(** [self._clients.get(client_id)] *)
Definition client_of (s : Client) (client_id : Z) : option WebSocketClient :=
  mjoin (_clients s !! client_id).

(** ** Properties and queries *)

Definition url (s : Client) : string := _ws_url s.

Definition subscriptions : Run (list string) := gets _subscriptions.

Definition has_subscriptions : Run bool := gets (λ s, truthy (_subscriptions s)).

Definition _get_client_for_subscription (subscription : string) : Run Z :=
  gets (λ s,
    match find (λ item, bool_decide (subscription ∈ item.2)) (_client_subscriptions s) with
    | Some (client_id, _) => client_id
    | None => -1
    end).

Definition _get_client_id_for_new_subscription : Run Z :=
  s ← get;
  match find (λ item, Z.of_nat (length item.2) <? _max_subscriptions_per_connection s)
             (_client_subscriptions s) with
  | Some (client_id, _) => mret client_id
  | None =>
      let client_id := _next_client_id s in
      modify (set_next_client_id (client_id + 1));;
      modify (λ s, set_clients (<[client_id := None]> (_clients s)) s);;
      modify (λ s, set_client_subscriptions (od_set client_id [] (_client_subscriptions s)) s);;
      modify (λ s, set_is_connecting (<[client_id := false]> (_is_connecting s)) s);;
      mret client_id
  end.

(** [self._client_subscriptions[client_id].append(subscription)] *)
Definition slot_append (client_id : Z) (subscription : string) : Run unit :=
  s ← get;
  match od_get client_id (_client_subscriptions s) with
  | Some subs =>
      modify (set_client_subscriptions
                (od_set client_id (subs ++ [subscription]) (_client_subscriptions s)))
  | None => raise KeyError
  end.

(** [self._client_subscriptions[client_id].remove(subscription)] *)
Definition slot_remove (client_id : Z) (subscription : string) : Run unit :=
  s ← get;
  match od_get client_id (_client_subscriptions s) with
  | Some subs =>
      match list_remove subscription subs with
      | Some subs' =>
          modify (set_client_subscriptions
                    (od_set client_id subs' (_client_subscriptions s)))
      | None => raise ValueError
      end
  | None => raise KeyError
  end.

(** [self._subscriptions.remove(subscription)] *)
Definition subscriptions_remove (subscription : string) : Run unit :=
  s ← get;
  match list_remove subscription (_subscriptions s) with
  | Some l => modify (set_subscriptions l)
  | None => raise ValueError
  end.

Definition add_subscription (subscription : string) : Run unit :=
  count ← gets (λ s, count_of s subscription);
  modify (λ s, set_subscription_counts
                 (<[subscription := count + 1]> (_subscription_counts s)) s);;
  if 0 <? count then
    log DEBUG [Txt "Already subscribed to "; Txt subscription;
               Txt " (count="; Int (count + 1); Txt ")"]
  else
    modify (λ s, set_subscriptions (_subscriptions s ++ [subscription]) s);;
    client_id ← _get_client_id_for_new_subscription;
    slot_append client_id subscription.

(** ** Control-message builders *)

Definition _create_subscribe_market_channel_msg (s : Client) (assets : list string) : Msg :=
  [("type", JStr "market"); ("assets_ids", JList assets)]%string.

Definition _create_subscribe_user_channel_msg (s : Client) (markets : list string) : Msg :=
  [("auth", JAuth (_auth s)); ("type", JStr "user"); ("markets", JList markets)]%string.

Definition _create_dynamic_subscribe_msg (s : Client) (subs : list string) : Msg :=
  match _channel s with
  | USER =>
      [("auth", JAuth (_auth s)); ("markets", JList subs);
       ("operation", JStr "subscribe")]%string
  | MARKET =>
      [("assets_ids", JList subs); ("operation", JStr "subscribe")]%string
  end.

Definition _create_dynamic_unsubscribe_msg (s : Client) (subs : list string) : Msg :=
  match _channel s with
  | USER => [("markets", JList subs); ("operation", JStr "unsubscribe")]%string
  | MARKET => [("assets_ids", JList subs); ("operation", JStr "unsubscribe")]%string
  end.

(** ** Methods that talk to the transport *)

Section Io.
(** The transport's answers during the call. *)
Variable net : Transport.

Definition _send (client_id : Z) (msg : Msg) : Run unit :=
  client ← gets (λ s, client_of s client_id);
  match client with
  | None =>
      log ERROR [Txt "ws-client "; Int client_id; Txt ": Cannot send message ";
                 Obj msg; Txt ": not connected"]
  | Some _ =>
      log DEBUG [Txt "ws-client "; Int client_id; Txt ": SENDING: "; Obj msg];;
      if send_ok net client_id then emit (EvSend client_id msg true)
      else
        emit (EvSend client_id msg false);;
        log ERROR [Txt "ws-client "; Int client_id; Txt ": "; ErrText client_id]
  end.

Definition _subscribe_all (client_id : Z) : Run unit :=
  s ← get;
  let subs := default [] (od_get client_id (_client_subscriptions s)) in
  let msg :=
    match _channel s with
    | USER => _create_subscribe_user_channel_msg s subs
    | MARKET => _create_subscribe_market_channel_msg s subs
    end in
  _send client_id msg.

Definition _connect_client (client_id : Z) : Run unit :=
  subs ← gets (λ s, default [] (od_get client_id (_client_subscriptions s)));
  if negb (truthy subs) then
    log ERROR [Txt "ws-client "; Int client_id; Txt ": Cannot connect: no subscriptions"]
  else
    ws_url ← gets _ws_url;
    log DEBUG [Txt "ws-client "; Int client_id; Txt ": Connecting to "; Txt ws_url;
               Txt "..."];;
    modify (λ s, set_is_connecting (<[client_id := true]> (_is_connecting s)) s);;
    finally
      ((if connect_ok net client_id then
          emit (EvConnect client_id true);;
          modify (λ s, set_clients
                         (<[client_id := Some {| mode := ModeActive |}]> (_clients s)) s)
        else
          emit (EvConnect client_id false);; raise ConnectError);;
       current_subs ← gets (λ s, default [] (od_get client_id (_client_subscriptions s)));
       log INFO [Txt "ws-client "; Int client_id; Txt ": Connected to "; Txt ws_url;
                 Txt " with "; Int (Z.of_nat (length current_subs));
                 Txt " subscriptions"];;
       _subscribe_all client_id)
      (modify (λ s, set_is_connecting (<[client_id := false]> (_is_connecting s)) s)).

Definition _disconnect_client (client_id : Z) : Run unit :=
  client ← gets (λ s, client_of s client_id);
  match client with
  | None => mret tt
  | Some c =>
      if is_disconnecting c || is_closed c then
        log DEBUG [Txt "ws-client "; Int client_id;
                   Txt ": Already disconnecting/closed, skipping"]
      else
        log DEBUG [Txt "ws-client "; Int client_id; Txt ": Disconnecting..."];;
        (if disconnect_ok net client_id then emit (EvDisconnect client_id true)
         else
           emit (EvDisconnect client_id false);;
           log ERROR [Txt "ws-client "; Int client_id; Txt ": "; ErrText client_id]);;
        modify (λ s, set_clients (<[client_id := None]> (_clients s)) s)
  end.

(** How the locked block of [subscribe] ends: it returns, it leaves
    with [retry_client_id] set, or it leaves with the slot the new key
    was put on. *)
Inductive Locked : Set :=
| LockedReturn
| LockedRetry (retry_client_id : Z)
| LockedNew (client_id : Z).

(** [subscribe], the block under [async with self._lock]. *)
Definition subscribe_locked (subscription : string) : Run Locked :=
  count ← gets (λ s, count_of s subscription);
  modify (λ s, set_subscription_counts
                 (<[subscription := count + 1]> (_subscription_counts s)) s);;
  if 0 <? count then
    log DEBUG [Txt "Already subscribed to "; Txt subscription;
               Txt " (count="; Int (count + 1); Txt ")"];;
    client_id ← _get_client_for_subscription subscription;
    if negb (client_id =? -1) then
      client ← gets (λ s, client_of s client_id);
      let active := match client with Some c => is_active c | None => false end in
      is_connecting ← gets (λ s, default false (_is_connecting s !! client_id));
      if negb active && negb is_connecting then mret (LockedRetry client_id)
      else mret LockedReturn
    else mret LockedReturn
  else
    modify (λ s, set_subscriptions (_subscriptions s ++ [subscription]) s);;
    client_id ← _get_client_id_for_new_subscription;
    slot_append client_id subscription;;
    mret (LockedNew client_id).

(** [while self._is_connecting.get(client_id): ...]: yields
    [waited_for_connection].  Nothing else runs during the call, so
    a flag that is set stays set. *)
Definition wait_while_connecting (client_id : Z) : Run bool :=
  connecting ← gets (λ s, default false (_is_connecting s !! client_id));
  if (connecting : bool) then spin else mret false.

(** [subscribe], the part outside the lock. *)
Definition subscribe_unlocked (subscription : string) (locked : Locked) : Run unit :=
  match locked with
  | LockedReturn => mret tt
  | LockedRetry retry_client_id =>
      log DEBUG [Txt "ws-client "; Int retry_client_id;
                 Txt ": Retrying connection for "; Txt subscription];;
      _connect_client retry_client_id
  | LockedNew client_id =>
      waited_for_connection ← wait_while_connecting client_id;
      missing ← gets (λ s, match _clients s !! client_id with
                           | Some (Some _) => false
                           | _ => true
                           end);
      if (missing : bool) then _connect_client client_id
      else if (waited_for_connection : bool) then
        log DEBUG [Txt "ws-client "; Int client_id; Txt ": "; Txt subscription;
                   Txt " included in initial connection"]
      else
        s ← get;
        _send client_id (_create_dynamic_subscribe_msg s [subscription]);;
        log DEBUG [Txt "ws-client "; Int client_id; Txt ": Subscribed to ";
                   Txt subscription]
  end.

Definition subscribe (subscription : string) : Run unit :=
  locked ← subscribe_locked subscription;
  subscribe_unlocked subscription locked.

(** [unsubscribe], the block under [async with self._lock]: [None] when
    it returns, otherwise [client_id] and [should_disconnect]. *)
Definition unsubscribe_locked (subscription : string) : Run (option (Z * bool)) :=
  count ← gets (λ s, count_of s subscription);
  if count <=? 0 then
    log WARNING [Txt "Cannot unsubscribe from "; Txt subscription; Txt ": not subscribed"];;
    mret None
  else if 1 <? count then
    modify (λ s, set_subscription_counts
                   (<[subscription := count - 1]> (_subscription_counts s)) s);;
    log DEBUG [Txt "Decremented subscription count for "; Txt subscription;
               Txt " (count="; Int (count - 1); Txt ")"];;
    mret None
  else
    (* count is 1: the last subscriber *)
    modify (λ s, set_subscription_counts
                   (delete subscription (_subscription_counts s)) s);;
    listed ← gets (λ s, bool_decide (subscription ∈ _subscriptions s));
    if negb listed then
      log WARNING [Txt "Cannot find subscription "; Txt subscription;
                   Txt " in subscriptions list"];;
      mret None
    else
      client_id ← _get_client_for_subscription subscription;
      if client_id =? -1 then
        log WARNING [Txt "Cannot find client for subscription "; Txt subscription];;
        subscriptions_remove subscription;;
        mret None
      else
        subscriptions_remove subscription;;
        held ← gets (λ s, match od_get client_id (_client_subscriptions s) with
                          | Some subs => bool_decide (subscription ∈ subs)
                          | None => false
                          end);
        (if (held : bool) then slot_remove client_id subscription else mret tt);;
        should_disconnect ← gets (λ s,
          match od_get client_id (_client_subscriptions s) with
          | Some subs => negb (truthy subs)
          | None => false
          end);
        mret (Some (client_id, should_disconnect)).

(** [unsubscribe], the part outside the lock. *)
Definition unsubscribe_unlocked (subscription : string) (client_id : Z)
    (should_disconnect : bool) : Run unit :=
  s ← get;
  _send client_id (_create_dynamic_unsubscribe_msg s [subscription]);;
  log DEBUG [Txt "ws-client "; Int client_id; Txt ": Unsubscribed from ";
             Txt subscription];;
  if should_disconnect then
    _disconnect_client client_id;;
    log DEBUG [Txt "ws-client "; Int client_id;
               Txt ": Disconnected due to no remaining subscriptions"]
  else mret tt.

Definition unsubscribe (subscription : string) : Run unit :=
  locked ← unsubscribe_locked subscription;
  match locked with
  | None => mret tt
  | Some (client_id, should_disconnect) =>
      unsubscribe_unlocked subscription client_id should_disconnect
  end.

Definition connect : Run unit :=
  subs ← gets _subscriptions;
  if negb (truthy subs) then
    log ERROR [Txt "Cannot connect: no subscriptions"]
  else
    items ← gets _client_subscriptions;
    for_each (λ item : Z * list string,
                if truthy item.2 then _connect_client item.1 else mret tt) items.

End Io.

(** ** Legacy methods *)

Definition subscribe_market (condition_id : string) : Run unit :=
  add_subscription condition_id.

Definition subscribe_book (asset : string) : Run unit :=
  add_subscription asset.

Definition market_subscriptions : Run (list string) :=
  s ← get;
  match _channel s with
  | USER => mret (_subscriptions s)
  | MARKET => mret []
  end.

Definition asset_subscriptions : Run (list string) :=
  s ← get;
  match _channel s with
  | MARKET => mret (_subscriptions s)
  | USER => mret []
  end.

(** ** Sequences of calls and reachable objects *)

Inductive Call : Set :=
| AddSubscription (subscription : string)
| Subscribe (subscription : string)
| Unsubscribe (subscription : string)
| Connect.

Definition call (net : Transport) (c : Call) : Run unit :=
  match c with
  | AddSubscription k => add_subscription k
  | Subscribe k => subscribe net k
  | Unsubscribe k => unsubscribe net k
  | Connect => connect net
  end.

(** The calls of a list one after the other, whatever each one's
    outcome; the effects of all of them in order. *)
Fixpoint run_calls (net : Transport) (cs : list Call) (s : Client) : Client * list Event :=
  match cs with
  | [] => (s, [])
  | c :: cs' =>
      let r := call net c s in
      let '(s', t) := run_calls net cs' (state_of r) in
      (s', events_of r ++ t)
  end.

(** The transport moves a session to another state on its own (a drop,
    a reconnection, a close by the peer). *)
Definition transport_event (client_id : Z) (m : ConnectionMode) (s : Client) : Client :=
  match _clients s !! client_id with
  | Some (Some _) => set_clients (<[client_id := Some {| mode := m |}]> (_clients s)) s
  | _ => s
  end.

(** The objects a program can hold: a constructed one, and what calls
    and transport events make of it. *)
Inductive reachable : Client → Prop :=
| reachable_init base_url channel auth capacity :
    reachable (init base_url channel auth capacity)
| reachable_call net c s :
    reachable s → reachable (state_of (call net c s))
| reachable_transport client_id m s :
    reachable s → reachable (transport_event client_id m s).

(** ** Slots *)

(** The key list of a slot. *)
Definition slot (s : Client) (client_id : Z) : option (list string) :=
  od_get client_id (_client_subscriptions s).

(** All keys held by slots, slot after slot. *)
Definition slot_keys (s : Client) : list string :=
  concat (map snd (_client_subscriptions s)).

(** The slots whose key list holds [k]. *)
Definition slots_holding (s : Client) (k : string) : list Z :=
  map fst (List.filter (λ item : Z * list string, bool_decide (k ∈ item.2))
             (_client_subscriptions s)).

Definition has_room (s : Client) (subs : list string) : bool :=
  Z.of_nat (length subs) <? _max_subscriptions_per_connection s.

(** The bookkeeping is consistent. *)
Record consistent (s : Client) : Prop := {
  counts_positive : ∀ k n, _subscription_counts s !! k = Some n → 0 < n;
  listed_iff_counted : ∀ k, k ∈ _subscriptions s ↔ is_Some (_subscription_counts s !! k);
  listed_once : NoDup (_subscriptions s);
  held_once : NoDup (slot_keys s);
  held_iff_listed : ∀ k, k ∈ slot_keys s ↔ k ∈ _subscriptions s;
  ids_in_order : map fst (_client_subscriptions s) = seqZ 0 (_next_client_id s);
  next_id_nonneg : 0 ≤ _next_client_id s
}.

(** The client once a first subscriber of [k] is counted and listed. *)
Definition registered (k : string) (s : Client) : Client :=
  set_subscriptions (_subscriptions s ++ [k])
    (set_subscription_counts (<[k := count_of s k + 1]> (_subscription_counts s)) s).

(** The client once a slot is created under the next id. *)
Definition with_new_slot (s : Client) : Client :=
  let n := _next_client_id s in
  set_is_connecting (<[n := false]> (_is_connecting s))
    (set_client_subscriptions (od_set n [] (_client_subscriptions s))
       (set_clients (<[n := None]> (_clients s))
          (set_next_client_id (n + 1) s))).

(** The state the locked block of [unsubscribe] leaves when the last
    subscriber of [k] on slot [cid] goes. *)
Definition released (k : string) (cid : Z) (l' subs' : list string) (s : Client) : Client :=
  set_client_subscriptions (od_set cid l' (_client_subscriptions s))
    (set_subscriptions subs'
       (set_subscription_counts (delete k (_subscription_counts s)) s)).

(** The first slot with room, as [_get_client_id_for_new_subscription]
    looks for it. *)
Definition first_with_room (s : Client) : option (Z * list string) :=
  find (λ item, has_room s item.2) (_client_subscriptions s).

(** The first slot holding [k], as [_get_client_for_subscription] looks
    for it. *)
Definition first_holding (s : Client) (k : string) : option (Z * list string) :=
  find (λ item, bool_decide (k ∈ item.2)) (_client_subscriptions s).

(** What a client keeps besides its sessions and connecting flags. *)
Definition book (s : Client) :=
  (_max_subscriptions_per_connection s, _channel s, _base_url s, _ws_url s, _auth s,
   _subscriptions s, _subscription_counts s, _client_subscriptions s, _next_client_id s).

(** What is fixed at construction. *)
Definition config (s : Client) :=
  (_max_subscriptions_per_connection s, _channel s, _base_url s, _ws_url s, _auth s).

(** A method that leaves a part of the client as it was. *)
Definition keeps {X A : Type} (part : Client → X) (m : Run A) : Prop :=
  ∀ s, part (state_of (m s)) = part s.

(** No slot holds more keys than the capacity. *)
Definition within_capacity (s : Client) : Prop :=
  ∀ cid l, slot s cid = Some l →
           Z.of_nat (length l) ≤ _max_subscriptions_per_connection s.

(** Every slot is full. *)
Definition all_full (s : Client) : Prop :=
  ∀ cid l, slot s cid = Some l → has_room s l = false.

(** ** Wire messages *)

Definition msg_keys (m : Msg) : list string :=
  match msg_get "assets_ids" m, msg_get "markets" m with
  | Some (JList l), _ => l
  | _, Some (JList l) => l
  | _, _ => []
  end.

(** A bulk subscribe (it has a ["type"]) or a dynamic subscribe. *)
Definition is_subscribe_msg (m : Msg) : bool :=
  match msg_get "operation" m with
  | Some (JStr op) => bool_decide (op = "subscribe"%string)
  | Some _ => false
  | None => match msg_get "type" m with Some _ => true | None => false end
  end.

Definition is_unsubscribe_msg (m : Msg) : bool :=
  match msg_get "operation" m with
  | Some (JStr op) => bool_decide (op = "unsubscribe"%string)
  | _ => false
  end.

Definition is_send (e : Event) : bool :=
  match e with EvSend _ _ _ => true | _ => false end.

Definition subscribes_key (k : string) (e : Event) : bool :=
  match e with
  | EvSend _ m true => is_subscribe_msg m && bool_decide (k ∈ msg_keys m)
  | _ => false
  end.

Definition unsubscribes_key (k : string) (e : Event) : bool :=
  match e with
  | EvSend _ m true => is_unsubscribe_msg m && bool_decide (k ∈ msg_keys m)
  | _ => false
  end.

Fixpoint count_events (p : Event → bool) (t : list Event) : Z :=
  match t with
  | [] => 0
  | e :: t' => (if p e then 1 else 0) + count_events p t'
  end.

(** Wire subscribes covering [k] minus wire unsubscribes for [k]. *)
Definition wire_balance (k : string) (t : list Event) : Z :=
  count_events (subscribes_key k) t - count_events (unsubscribes_key k) t.

(** 1 when [k] has subscribers, 0 when it has none. *)
Definition subscribed (s : Client) (k : string) : Z :=
  if 0 <? count_of s k then 1 else 0.

(** Subscribe calls for [k] minus unsubscribe calls for [k]. *)
Fixpoint net_calls (k : string) (cs : list Call) : Z :=
  match cs with
  | [] => 0
  | Subscribe k' :: cs' => (if bool_decide (k' = k) then 1 else 0) + net_calls k cs'
  | Unsubscribe k' :: cs' => net_calls k cs' - (if bool_decide (k' = k) then 1 else 0)
  | _ :: cs' => net_calls k cs'
  end.

(** The reference count of [k] by the calls alone, starting from [n]:
    every subscribe of [k] adds 1, every unsubscribe of [k] that finds
    [k] subscribed takes 1 away, and an unsubscribe that finds the count
    at 0 counts for nothing. *)
Fixpoint effective_calls (k : string) (n : Z) (cs : list Call) : Z :=
  match cs with
  | [] => n
  | Subscribe k' :: cs' =>
      effective_calls k (if bool_decide (k' = k) then n + 1 else n) cs'
  | Unsubscribe k' :: cs' =>
      effective_calls k (if bool_decide (k' = k) && (0 <? n) then n - 1 else n) cs'
  | _ :: cs' => effective_calls k n cs'
  end.

Definition is_subscription_call (c : Call) : Prop :=
  match c with Subscribe _ | Unsubscribe _ => True | _ => False end.

(** A client all of whose sessions are active, with no connection
    attempt under way, and a session on every slot that holds keys: what
    [subscribe] and [unsubscribe] leave on a transport whose calls
    succeed. *)
Record wired (s : Client) : Prop := {
  wired_consistent : consistent s;
  wired_active : ∀ cid c, client_of s cid = Some c → is_active c = true;
  wired_idle : ∀ cid, default false (_is_connecting s !! cid) = false;
  wired_live : ∀ cid l, slot s cid = Some l → l ≠ [] → is_Some (client_of s cid)
}.

(** ** The templates of the specification *)

Definition spec_bulk_subscribe (channel : PolymarketWebSocketChannel)
    (credentials : option PolymarketWebSocketAuth) (keys : list string) : Msg :=
  match channel with
  | MARKET => [("type", JStr "market"); ("assets_ids", JList keys)]
  | USER => [("auth", JAuth credentials); ("type", JStr "user"); ("markets", JList keys)]
  end%string.

Definition spec_dynamic_subscribe (channel : PolymarketWebSocketChannel)
    (credentials : option PolymarketWebSocketAuth) (keys : list string) : Msg :=
  match channel with
  | MARKET => [("assets_ids", JList keys); ("operation", JStr "subscribe")]
  | USER => [("auth", JAuth credentials); ("markets", JList keys);
             ("operation", JStr "subscribe")]
  end%string.

Definition spec_dynamic_unsubscribe (channel : PolymarketWebSocketChannel)
    (keys : list string) : Msg :=
  match channel with
  | MARKET => [("assets_ids", JList keys); ("operation", JStr "unsubscribe")]
  | USER => [("markets", JList keys); ("operation", JStr "unsubscribe")]
  end%string.

(** ** Connection state, shutdown and the reconnection hook *)

(** [any(client is not None and client.is_active() for client in
    self._clients.values())] *)
Definition is_connected : Run bool :=
  gets (λ s, existsb (λ client : option WebSocketClient,
                        match client with Some c => is_active c | None => false end)
               (map_to_list (_clients s)).*2).

Definition is_disconnected : Run bool :=
  connected ← is_connected;
  mret (negb connected).

(** [disconnect].  [cancel_tasks_with_timeout] acts on the tasks spawned
    by the reconnection hook, which are not part of the client record.
    [asyncio.gather] runs the closings concurrently; here they run one
    after the other, in the order in which the map lists its keys. *)
Definition disconnect (net : Transport) : Run unit :=
  keys ← gets (λ s, (map_to_list (_clients s)).*1);
  for_each (_disconnect_client net) keys;;
  if truthy keys then
    ws_url ← gets _ws_url;
    log INFO [Txt "Disconnected all clients from "; Txt ws_url]
  else mret tt.

(** What [self._loop.create_task] is given by the reconnection hook. *)
Inductive Task : Set :=
| SubscribeAllTask (client_id : Z)   (* [self._subscribe_all(client_id)] *)
| HandlerReconnectTask.              (* [self._handler_reconnect()] *)

(** [_handle_reconnect]; [handler_reconnect] tells whether the client
    was given a reconnect handler.  Returns the tasks it creates. *)
Definition _handle_reconnect (handler_reconnect : bool) (client_id : Z) : Run (list Task) :=
  s ← get;
  if negb (od_mem client_id (_client_subscriptions s))
     || negb (truthy (default [] (od_get client_id (_client_subscriptions s))))
  then
    log ERROR [Txt "ws-client "; Int client_id; Txt ": Cannot reconnect: no subscriptions"];;
    mret []
  else
    log WARNING [Txt "ws-client "; Int client_id; Txt ": Reconnected to "; Txt (_ws_url s)];;
    mret (SubscribeAllTask client_id
          :: if handler_reconnect then [HandlerReconnectTask] else []).

(** A call to the transport, as opposed to a log record. *)
Definition is_transport_call (e : Event) : bool :=
  match e with EvLog _ _ => false | _ => true end.

Definition is_connect (e : Event) : bool :=
  match e with EvConnect _ _ => true | _ => false end.

Definition is_disconnect (e : Event) : bool :=
  match e with EvDisconnect _ _ => true | _ => false end.

(** A session that is gone or on its way out. *)
Definition released_session (client : option WebSocketClient) : Prop :=
  match client with
  | None => True
  | Some c => is_disconnecting c || is_closed c = true
  end.

(** No connection attempt is under way. *)
Definition idle (s : Client) : Prop :=
  ∀ cid, default false (_is_connecting s !! cid) = false.

(** A sequence of calls in which no [unsubscribe] of [k] comes when
    [k], counted [n] times at the start, has no subscriber left. *)
Fixpoint never_unsubscribes_unsubscribed (k : string) (n : Z) (cs : list Call) : Prop :=
  match cs with
  | [] => True
  | Subscribe k' :: cs' =>
      never_unsubscribes_unsubscribed k (if bool_decide (k' = k) then n + 1 else n) cs'
  | Unsubscribe k' :: cs' =>
      if bool_decide (k' = k) then 0 < n ∧ never_unsubscribes_unsubscribed k (n - 1) cs'
      else never_unsubscribes_unsubscribed k n cs'
  | _ :: cs' => never_unsubscribes_unsubscribed k n cs'
  end.

(** * Properties *)

(** Unfolds the plumbing of [Run]. *)
Ltac run_unfold :=
  unfold mbind, run_bind, mret, run_ret, get, gets, modify, log, emit, raise, spin in *.
Ltac run := repeat (run_unfold; cbn in * ).

Local Arguments _get_client_for_subscription : simpl never.
Local Arguments _get_client_id_for_new_subscription : simpl never.
Local Arguments slot_append : simpl never.
Local Arguments slot_remove : simpl never.
Local Arguments subscriptions_remove : simpl never.
Local Arguments add_subscription : simpl never.
Local Arguments _send : simpl never.
Local Arguments _subscribe_all : simpl never.
Local Arguments _connect_client : simpl never.
Local Arguments _disconnect_client : simpl never.
Local Arguments wait_while_connecting : simpl never.
Local Arguments subscribe_locked : simpl never.
Local Arguments subscribe_unlocked : simpl never.
Local Arguments subscribe : simpl never.
Local Arguments unsubscribe_locked : simpl never.
Local Arguments unsubscribe_unlocked : simpl never.
Local Arguments unsubscribe : simpl never.
Local Arguments connect : simpl never.
Local Arguments finally : simpl never.
Local Arguments _create_dynamic_subscribe_msg : simpl never.
Local Arguments _create_dynamic_unsubscribe_msg : simpl never.

(** ** Ordered dictionaries and lists *)

Lemma od_get_set_eq {V : Type} (k : Z) (v : V) (d : list (Z * V)) :
  od_get k (od_set k v d) = Some v.
Proof.
  induction d as [|[k' v'] d IH]; cbn.
  - by rewrite Z.eqb_refl.
  - destruct (Z.eqb_spec k k'); cbn.
    + by rewrite Z.eqb_refl.
    + destruct (Z.eqb_spec k k'); [lia | done].
Qed.

Lemma od_get_set_ne {V : Type} (k k' : Z) (v : V) (d : list (Z * V)) :
  k ≠ k' → od_get k' (od_set k v d) = od_get k' d.
Proof.
  intros Hne. induction d as [|[k0 v0] d IH]; cbn.
  - destruct (Z.eqb_spec k' k); [congruence | done].
  - destruct (Z.eqb_spec k k0) as [->|]; cbn.
    + destruct (Z.eqb_spec k' k0); [congruence | done].
    + destruct (Z.eqb_spec k' k0); [done | apply IH].
Qed.

Lemma od_get_None {V : Type} (k : Z) (d : list (Z * V)) :
  od_get k d = None ↔ k ∉ map fst d.
Proof.
  induction d as [|[k' v'] d IH]; cbn.
  - split; [intros _; apply not_elem_of_nil | done].
  - rewrite not_elem_of_cons. destruct (Z.eqb_spec k k'); [|tauto].
    split; [done | tauto].
Qed.

Lemma od_get_elem {V : Type} (k : Z) (v : V) (d : list (Z * V)) :
  od_get k d = Some v → (k, v) ∈ d.
Proof.
  induction d as [|[k' v'] d IH]; cbn; [done|].
  destruct (Z.eqb_spec k k') as [->|].
  - intros [= ->]. apply list_elem_of_here.
  - intros. apply list_elem_of_further. auto.
Qed.

(** Where a key sits, and what writing to it does. *)
Lemma od_get_split {V : Type} (k : Z) (v : V) (d : list (Z * V)) :
  od_get k d = Some v →
  ∃ d1 d2, d = d1 ++ (k, v) :: d2 ∧ (k ∉ map fst d1)
           ∧ (∀ v', od_set k v' d = d1 ++ (k, v') :: d2).
Proof.
  induction d as [|[k' v0] d IH]; cbn; [done|].
  destruct (Z.eqb_spec k k') as [->|Hne].
  - intros [= ->]. exists [], d. split; [done|]. split; [apply not_elem_of_nil|].
    intros v'. cbn. reflexivity.
  - intros Hget. destruct (IH Hget) as (d1 & d2 & -> & Hnin & Hset).
    exists ((k', v0) :: d1), d2. split; [done|]. split.
    + cbn. rewrite not_elem_of_cons. done.
    + intros v'. cbn. by rewrite Hset.
Qed.

Lemma od_set_new {V : Type} (k : Z) (v : V) (d : list (Z * V)) :
  od_get k d = None → od_set k v d = d ++ [(k, v)].
Proof.
  induction d as [|[k' v0] d IH]; cbn; [done|].
  destruct (Z.eqb_spec k k'); [done|]. intros H. by rewrite IH.
Qed.

Lemma od_get_unique {V : Type} (k : Z) (v : V) (d : list (Z * V)) :
  NoDup (map fst d) → (k, v) ∈ d → od_get k d = Some v.
Proof.
  induction d as [|[k' v0] d IH]; cbn.
  - intros _ H. by apply elem_of_nil in H.
  - intros Hnd Hin. apply NoDup_cons in Hnd as [Hnin Hnd].
    apply elem_of_cons in Hin as [[= <- <-]|Hin].
    + by rewrite Z.eqb_refl.
    + destruct (Z.eqb_spec k k') as [->|]; [|auto].
      exfalso. apply Hnin. apply list_elem_of_fmap. by exists (k', v).
Qed.

(** The first item a [for] loop with an early [return] stops at. *)
Lemma find_split {A : Type} (p : A → bool) (l : list A) (x : A) :
  find p l = Some x →
  ∃ l1 l2, l = l1 ++ x :: l2 ∧ p x = true ∧ Forall (λ y, p y = false) l1.
Proof.
  induction l as [|y l IH]; cbn; [done|].
  destruct (p y) eqn:Hy.
  - intros [= ->]. by exists [], l.
  - intros Hf. destruct (IH Hf) as (l1 & l2 & -> & Hx & Hall).
    exists (y :: l1), l2. split; [done|]. split; [done|]. by constructor.
Qed.

Lemma find_none_Forall {A : Type} (p : A → bool) (l : list A) :
  find p l = None → Forall (λ y, p y = false) l.
Proof.
  induction l as [|y l IH]; cbn; [by constructor|].
  destruct (p y) eqn:Hy; [done|]. intros. constructor; auto.
Qed.

Lemma list_remove_perm (x : string) (l l' : list string) :
  list_remove x l = Some l' → l ≡ₚ x :: l'.
Proof.
  revert l'. induction l as [|y l IH]; intros l'; cbn; [done|].
  case_bool_decide as Hxy.
  - intros [= <-]. by subst.
  - destruct (list_remove x l) as [l0|] eqn:Hr; cbn; [|done].
    intros [= <-]. rewrite (IH l0 eq_refl). apply Permutation_swap.
Qed.

Lemma list_remove_elem (x : string) (l : list string) :
  x ∈ l → is_Some (list_remove x l).
Proof.
  induction l as [|y l IH]; cbn.
  - intros H. by apply elem_of_nil in H.
  - intros Hin. case_bool_decide as Hxy; [by eexists|].
    apply elem_of_cons in Hin as [?|Hin]; [done|].
    destruct (IH Hin) as [l' ->]. by eexists.
Qed.

Lemma list_remove_None (x : string) (l : list string) :
  list_remove x l = None → x ∉ l.
Proof.
  intros Hr Hin. apply list_remove_elem in Hin as [? ?]. congruence.
Qed.

Lemma od_set_last {V : Type} (k : Z) (v v0 : V) (d : list (Z * V)) :
  od_get k d = None → od_set k v (d ++ [(k, v0)]) = d ++ [(k, v)].
Proof.
  induction d as [|[k' v'] d IH]; cbn.
  - by rewrite Z.eqb_refl.
  - destruct (Z.eqb_spec k k'); [done|]. intros H. by rewrite IH.
Qed.

Lemma od_set_keys {V : Type} (k : Z) (v v0 : V) (d : list (Z * V)) :
  od_get k d = Some v0 → map fst (od_set k v d) = map fst d.
Proof.
  intros Hget. destruct (od_get_split k v0 d Hget) as (d1 & d2 & -> & _ & Hset).
  rewrite Hset, !map_app. reflexivity.
Qed.

(** Putting one more key on a slot, or taking one off, does the same to
    the keys held by all slots. *)
Lemma od_set_concat_grow (k : Z) (x : string) (l0 l1 : list string)
    (d : list (Z * list string)) :
  od_get k d = Some l0 → l1 ≡ₚ x :: l0 →
  concat (map snd (od_set k l1 d)) ≡ₚ x :: concat (map snd d).
Proof.
  intros Hget Hperm. destruct (od_get_split k l0 d Hget) as (d1 & d2 & -> & _ & Hset).
  rewrite Hset, !map_app, !concat_app. cbn. rewrite Hperm. cbn.
  symmetry. apply Permutation_middle.
Qed.

Lemma od_set_concat_shrink (k : Z) (x : string) (l0 l1 : list string)
    (d : list (Z * list string)) :
  od_get k d = Some l0 → l0 ≡ₚ x :: l1 →
  concat (map snd d) ≡ₚ x :: concat (map snd (od_set k l1 d)).
Proof.
  intros Hget Hperm. destruct (od_get_split k l0 d Hget) as (d1 & d2 & Hd & _ & Hset).
  rewrite Hset. rewrite Hd at 1. rewrite !map_app, !concat_app. cbn. rewrite Hperm. cbn.
  symmetry. apply Permutation_middle.
Qed.

Lemma od_get_app {V : Type} (k : Z) (d1 d2 : list (Z * V)) :
  od_get k (d1 ++ d2) = match od_get k d1 with Some v => Some v | None => od_get k d2 end.
Proof.
  induction d1 as [|[k' v'] d1 IH]; cbn; [done|].
  by destruct (Z.eqb_spec k k').
Qed.

Lemma od_get_set {V : Type} (k k' : Z) (v : V) (d : list (Z * V)) :
  od_get k' (od_set k v d) = if decide (k = k') then Some v else od_get k' d.
Proof.
  case_decide as Hk.
  - subst. apply od_get_set_eq.
  - by apply od_get_set_ne.
Qed.

Lemma list_remove_length (x : string) (l l' : list string) :
  list_remove x l = Some l' → length l = S (length l').
Proof. intros Hr. apply list_remove_perm in Hr. by rewrite Hr. Qed.

(** In a list of consecutive ids, what comes later is larger. *)
Lemma seqZ_after (m n c : Z) (a b : list Z) :
  seqZ m n = a ++ c :: b → ∀ x, x ∈ b → c < x.
Proof.
  revert m n. induction a as [|y a IH]; intros m n Heq x Hx.
  - destruct (decide (0 < n)) as [Hn|Hn].
    + rewrite seqZ_cons in Heq by done. cbn in Heq. injection Heq as <- <-.
      apply elem_of_seqZ in Hx. lia.
    + rewrite seqZ_nil in Heq by lia. done.
  - destruct (decide (0 < n)) as [Hn|Hn].
    + rewrite seqZ_cons in Heq by done. cbn in Heq. injection Heq as _ Heq.
      by apply (IH _ _ Heq).
    + rewrite seqZ_nil in Heq by lia. done.
Qed.

(** ** Methods that leave the bookkeeping alone *)

Lemma book_fields (s s' : Client) :
  book s' = book s →
  _max_subscriptions_per_connection s' = _max_subscriptions_per_connection s
  ∧ _channel s' = _channel s
  ∧ _auth s' = _auth s
  ∧ _subscriptions s' = _subscriptions s
  ∧ _subscription_counts s' = _subscription_counts s
  ∧ _client_subscriptions s' = _client_subscriptions s
  ∧ _next_client_id s' = _next_client_id s.
Proof. unfold book. intros [= ? ? ? ? ? ? ? ? ?]. done. Qed.

Ltac book_fields H :=
  let H1 := fresh "Hmax" in let H2 := fresh "Hchan" in let H3 := fresh "Hauth" in
  let H4 := fresh "Hsubs" in let H5 := fresh "Hcounts" in let H6 := fresh "Hslots" in
  let H7 := fresh "Hnext" in
  destruct (book_fields _ _ H) as (H1 & H2 & H3 & H4 & H5 & H6 & H7).


Section Keeps.
Context {X : Type} (part : Client → X).

Lemma keeps_ret {A : Type} (a : A) : keeps part (mret a).
Proof. by intros s. Qed.

Lemma keeps_bind {A B : Type} (m : Run A) (f : A → Run B) :
  keeps part m → (∀ a, keeps part (f a)) → keeps part (m ≫= f).
Proof.
  intros Hm Hf s. specialize (Hm s). run_unfold.
  destruct (m s) as [[[a| |] s1] t1]; cbn in *; try done.
  specialize (Hf a s1). destruct (f a s1) as [[r s2] t2]; cbn in *. congruence.
Qed.

Lemma keeps_gets {A : Type} (f : Client → A) : keeps part (gets f).
Proof. by intros s. Qed.

Lemma keeps_get : keeps part get.
Proof. by intros s. Qed.

Lemma keeps_log (lvl : LogLevel) (text : list Piece) : keeps part (log lvl text).
Proof. by intros s. Qed.

Lemma keeps_emit (e : Event) : keeps part (emit e).
Proof. by intros s. Qed.

Lemma keeps_raise {A : Type} (e : PyError) : keeps part (raise (A := A) e).
Proof. by intros s. Qed.

Lemma keeps_spin {A : Type} : keeps part (spin (A := A)).
Proof. by intros s. Qed.

Lemma keeps_modify (f : Client → Client) :
  (∀ s, part (f s) = part s) → keeps part (modify f).
Proof. intros Hf s. apply Hf. Qed.

Lemma keeps_finally {A : Type} (m : Run A) (fin : Run unit) :
  keeps part m → keeps part fin → keeps part (finally m fin).
Proof.
  intros Hm Hf s. specialize (Hm s). unfold finally.
  destruct (m s) as [[r s1] t1]; cbn in *.
  specialize (Hf s1).
  destruct r; try done; destruct (fin s1) as [[[| |] s2] t2]; cbn in *; congruence.
Qed.

Lemma keeps_for_each {A : Type} (f : A → Run unit) (l : list A) :
  (∀ x, keeps part (f x)) → keeps part (for_each f l).
Proof.
  intros Hf. induction l as [|x l IH]; cbn.
  - apply keeps_ret.
  - apply keeps_bind; auto.
Qed.

End Keeps.

Ltac keeps_step :=
  first
    [ apply keeps_ret | apply keeps_gets | apply keeps_get
    | apply keeps_log | apply keeps_emit | apply keeps_raise
    | apply keeps_spin
    | apply keeps_modify; intros ?; reflexivity
    | apply keeps_finally
    | apply keeps_bind; [|intros ?]
    | match goal with |- keeps _ (match ?x with _ => _ end) => destruct x end ].

Lemma keeps_book_send (net : Transport) (client_id : Z) (msg : Msg) :
  keeps book (_send net client_id msg).
Proof. unfold _send. repeat keeps_step. Qed.

Lemma keeps_book_connect_client (net : Transport) (client_id : Z) :
  keeps book (_connect_client net client_id).
Proof. unfold _connect_client, _subscribe_all, _send. repeat keeps_step. Qed.

Lemma keeps_book_disconnect_client (net : Transport) (client_id : Z) :
  keeps book (_disconnect_client net client_id).
Proof. unfold _disconnect_client. repeat keeps_step. Qed.

Lemma keeps_book_connect (net : Transport) : keeps book (connect net).
Proof.
  unfold connect. repeat keeps_step.
  apply keeps_for_each. intros [cid subs]. cbn.
  destruct (truthy subs); [apply keeps_book_connect_client | apply keeps_ret].
Qed.

Lemma keeps_book_subscribe_unlocked (net : Transport) (k : string) (locked : Locked) :
  keeps book (subscribe_unlocked net k locked).
Proof.
  unfold subscribe_unlocked, wait_while_connecting.
  destruct locked; repeat keeps_step;
    first [apply keeps_book_connect_client | apply keeps_book_send].
Qed.

Lemma keeps_book_unsubscribe_unlocked (net : Transport) (k : string) (client_id : Z)
    (should_disconnect : bool) :
  keeps book (unsubscribe_unlocked net k client_id should_disconnect).
Proof.
  unfold unsubscribe_unlocked. repeat keeps_step;
    first [apply keeps_book_disconnect_client | apply keeps_book_send].
Qed.

(** No call changes what was fixed at construction. *)
Lemma keeps_config_call (net : Transport) (c : Call) : keeps config (call net c).
Proof.
  destruct c; cbn.
  - unfold add_subscription, _get_client_id_for_new_subscription, slot_append.
    repeat keeps_step.
  - unfold subscribe, subscribe_locked, subscribe_unlocked, wait_while_connecting,
      _get_client_for_subscription, _get_client_id_for_new_subscription, slot_append,
      _connect_client, _subscribe_all, _send.
    repeat keeps_step.
  - unfold unsubscribe, unsubscribe_locked, unsubscribe_unlocked,
      _get_client_for_subscription, subscriptions_remove, slot_remove,
      _disconnect_client, _send.
    repeat keeps_step.
  - unfold connect. repeat keeps_step. apply keeps_for_each. intros [cid subs]. cbn.
    unfold _connect_client, _subscribe_all, _send. repeat keeps_step.
Qed.

(** ** Unsubscribing a key that is not subscribed *)

Lemma unsubscribe_not_subscribed (net : Transport) (s : Client) (k : string) :
  count_of s k ≤ 0 →
  unsubscribe net k s
  = (Returned tt, s,
     [EvLog WARNING [Txt "Cannot unsubscribe from "; Txt k; Txt ": not subscribed"]]).
Proof.
  intros Hc. unfold unsubscribe, unsubscribe_locked. run.
  destruct (Z.leb_spec (count_of s k) 0); [reflexivity | lia].
Qed.

(** C1, as the code has it: unsubscribing a key whose reference count is
    0 (a key never subscribed included) logs one warning and returns
    normally; no message is sent and the transport is not called. *)
Theorem unsubscribe_zero_count_warns (net : Transport) (s : Client) (k : string) :
  count_of s k = 0 →
  outcome_of (unsubscribe net k s) = Returned tt
  ∧ events_of (unsubscribe net k s)
    = [EvLog WARNING [Txt "Cannot unsubscribe from "; Txt k; Txt ": not subscribed"]]
  ∧ Forall (λ e, is_send e = false) (events_of (unsubscribe net k s)).
Proof.
  intros Hc. rewrite unsubscribe_not_subscribed by lia. cbn.
  repeat split. by repeat constructor.
Qed.

(** C9: unsubscribing a key whose reference count is 0 returns normally
    and leaves the whole client as it was: counts, subscription list,
    every slot's key list, every session. *)
Theorem unsubscribe_zero_count_unchanged (net : Transport) (s : Client) (k : string) :
  count_of s k = 0 →
  outcome_of (unsubscribe net k s) = Returned tt
  ∧ state_of (unsubscribe net k s) = s.
Proof.
  intros Hc. rewrite unsubscribe_not_subscribed by lia. by split.
Qed.

(** ** Connecting *)

(** What opening a slot does when the transport accepts. *)
Lemma connect_client_ok (net : Transport) (s : Client) (client_id : Z) :
  connect_ok net client_id = true →
  truthy (default [] (slot s client_id)) = true →
  ∃ t, _connect_client net client_id s
       = (Returned tt,
          set_is_connecting (<[client_id := false]> (_is_connecting s))
            (set_clients (<[client_id := Some {| mode := ModeActive |}]> (_clients s)) s),
          t)
       ∧ EvConnect client_id true ∈ t.
Proof.
  intros Hok Hsubs. unfold slot in Hsubs. unfold _connect_client. run.
  rewrite Hsubs, Hok. unfold finally. run.
  unfold _subscribe_all, _send, client_of. run.
  rewrite lookup_insert_eq. cbn.
  destruct (send_ok net client_id); cbn.
  all: eexists; split;
    [ f_equal; f_equal; unfold set_is_connecting, set_clients; cbn; f_equal;
      by rewrite insert_insert_eq
    | set_solver ].
Qed.

Lemma connect_client_accepted (net : Transport) (s : Client) (client_id : Z) :
  connect_ok net client_id = true →
  ∃ s1 t,
    _connect_client net client_id s = (Returned tt, s1, t)
    ∧ book s1 = book s
    ∧ (∀ cid, client_of s cid = Some {| mode := ModeActive |} →
              client_of s1 cid = Some {| mode := ModeActive |})
    ∧ (truthy (default [] (slot s client_id)) = true →
       client_of s1 client_id = Some {| mode := ModeActive |}
       ∧ EvConnect client_id true ∈ t).
Proof.
  intros Hok. destruct (truthy (default [] (slot s client_id))) eqn:Hsubs.
  - destruct (connect_client_ok net s client_id Hok Hsubs) as (t & Heq & Hin).
    eexists _, t. split; [exact Heq|]. split; [reflexivity|]. split.
    + intros cid. unfold client_of. cbn.
      destruct (decide (client_id = cid)) as [->|Hne].
      * by rewrite lookup_insert_eq.
      * by rewrite lookup_insert_ne.
    + intros _. split; [|done]. unfold client_of. cbn. by rewrite lookup_insert_eq.
  - unfold slot in Hsubs. eexists s, _. split.
    + unfold _connect_client. run. rewrite Hsubs. reflexivity.
    + by repeat split.
Qed.

Lemma connect_loop_accepted (net : Transport) (items : list (Z * list string)) (s : Client) :
  (∀ cid, connect_ok net cid = true) →
  let r := for_each (λ item : Z * list string,
                       if truthy item.2 then _connect_client net item.1 else mret tt)
             items s in
  outcome_of r = Returned tt
  ∧ book (state_of r) = book s
  ∧ (∀ cid, client_of s cid = Some {| mode := ModeActive |} →
            client_of (state_of r) cid = Some {| mode := ModeActive |})
  ∧ (∀ cid subs, (cid, subs) ∈ items → slot s cid = Some subs → subs ≠ [] →
       client_of (state_of r) cid = Some {| mode := ModeActive |}
       ∧ EvConnect cid true ∈ events_of r).
Proof.
  intros Hok. revert s. induction items as [|[c l] items IH]; intros s r.
  - subst r. cbn. split; [done|]. split; [done|]. split; [done|].
    intros ?? Hnil. by apply elem_of_nil in Hnil.
  - subst r. cbn -[_connect_client]. run_unfold.
    assert (∃ s1 t, (if truthy l then _connect_client net c else (λ s, (Returned tt, s, []))) s
                    = (Returned tt, s1, t)
                    ∧ book s1 = book s
                    ∧ (∀ cid, client_of s cid = Some {| mode := ModeActive |} →
                              client_of s1 cid = Some {| mode := ModeActive |})
                    ∧ (truthy l = true → slot s c = Some l →
                       client_of s1 c = Some {| mode := ModeActive |}
                       ∧ EvConnect c true ∈ t)) as (s1 & t & Heq & Hb & Hkeep & Hnew).
    { destruct (truthy l) eqn:Hl.
      - destruct (connect_client_accepted net s c (Hok c)) as (s1 & t & Heq & Hb & Hk & Hn).
        exists s1, t. split; [done|]. split; [done|]. split; [done|].
        intros _ Hs. apply Hn. by rewrite Hs.
      - exists s, []. split; [done|]. split; [done|]. split; done. }
    rewrite Heq. specialize (IH s1). cbn in IH.
    destruct (for_each _ items s1) as [[o s2] t2] eqn:Hrun. cbn in *.
    destruct IH as (Ho & Hb2 & Hkeep2 & Hrest).
    split; [done|]. split; [congruence|]. split; [auto|].
    intros cid subs Hin Hslot Hne. apply elem_of_cons in Hin as [[= -> ->]|Hin].
    + destruct Hnew as [Hact Hev]; [by destruct l | done |].
      split; [auto|]. apply elem_of_app. by left.
    + book_fields Hb. destruct (Hrest cid subs Hin) as [Hact Hev]; [|done|].
      * unfold slot in *. congruence.
      * split; [done|]. apply elem_of_app. by right.
Qed.

Lemma reliable_connect_opens (s : Client) :
  (_subscriptions s = [] → state_of (connect reliable s) = s)
  ∧ (∀ cid subs, slot s cid = Some subs → subs ≠ [] → _subscriptions s ≠ [] →
       EvConnect cid true ∈ events_of (connect reliable s)
       ∧ client_of (state_of (connect reliable s)) cid = Some {| mode := ModeActive |}).
Proof.
  split.
  - intros Hs. unfold connect. run. by rewrite Hs.
  - intros cid subs Hslot Hne Hs. unfold connect. run.
    destruct (_subscriptions s) as [|k0 subs0] eqn:Hsub; [done|]. cbn.
    pose proof (connect_loop_accepted reliable (_client_subscriptions s) s
                  (λ _, eq_refl)) as Hloop.
    cbn in Hloop.
    destruct (for_each _ (_client_subscriptions s) s) as [[o s2] t2] eqn:Hrun. cbn in *.
    destruct Hloop as (_ & _ & _ & Hall).
    destruct (Hall cid subs) as [Hact Hev]; try done.
    by apply od_get_elem.
Qed.

(** C7, as the code has it: [connect] on a client without subscriptions
    logs the condition at error level and returns, opening nothing and
    changing nothing.  With subscriptions, and a transport that accepts
    the connections, every slot with a non-empty key list is opened
    (whether or not it already held a session) and holds an active
    session afterwards. *)
Theorem connect_opens_slots (net : Transport) (s : Client) :
  (_subscriptions s = [] →
   connect net s
   = (Returned tt, s, [EvLog ERROR [Txt "Cannot connect: no subscriptions"]]))
  ∧ (_subscriptions s ≠ [] →
     (∀ cid, connect_ok net cid = true) →
     outcome_of (connect net s) = Returned tt
     ∧ ∀ cid subs, slot s cid = Some subs → subs ≠ [] →
         EvConnect cid true ∈ events_of (connect net s)
         ∧ client_of (state_of (connect net s)) cid = Some {| mode := ModeActive |}).
Proof.
  split.
  - intros Hs. unfold connect. run. rewrite Hs. reflexivity.
  - intros Hs Hok. unfold connect. run.
    destruct (_subscriptions s) as [|k0 subs0] eqn:Hsub; [done|]. cbn.
    pose proof (connect_loop_accepted net (_client_subscriptions s) s Hok) as Hloop.
    cbn in Hloop.
    destruct (for_each _ (_client_subscriptions s) s) as [[o s2] t2] eqn:Hrun. cbn in *.
    destruct Hloop as (Ho & _ & _ & Hall). split; [done|].
    intros cid subs Hslot Hne.
    destruct (Hall cid subs) as [Hact Hev]; try done.
    by apply od_get_elem.
Qed.

(** ** Picking a slot *)

Lemma new_slot_found (s : Client) (cid : Z) (l : list string) :
  first_with_room s = Some (cid, l) →
  _get_client_id_for_new_subscription s = (Returned cid, s, []).
Proof.
  unfold first_with_room, has_room, _get_client_id_for_new_subscription. run.
  intros ->. reflexivity.
Qed.

Lemma new_slot_created (s : Client) :
  first_with_room s = None →
  _get_client_id_for_new_subscription s
  = (Returned (_next_client_id s), with_new_slot s, []).
Proof.
  unfold first_with_room, has_room, _get_client_id_for_new_subscription. run.
  intros ->. reflexivity.
Qed.

Lemma add_subscription_again (s : Client) (k : string) :
  0 < count_of s k →
  add_subscription k s
  = (Returned tt,
     set_subscription_counts (<[k := count_of s k + 1]> (_subscription_counts s)) s,
     [EvLog DEBUG [Txt "Already subscribed to "; Txt k; Txt " (count=";
                   Int (count_of s k + 1); Txt ")"]]).
Proof.
  intros Hc. unfold add_subscription. run.
  destruct (Z.ltb_spec 0 (count_of s k)); [reflexivity | lia].
Qed.

Lemma add_subscription_room (s : Client) (k : string) (cid : Z) (l l0 : list string) :
  count_of s k ≤ 0 →
  first_with_room s = Some (cid, l) →
  slot s cid = Some l0 →
  add_subscription k s
  = (Returned tt,
     set_client_subscriptions (od_set cid (l0 ++ [k]) (_client_subscriptions s))
       (registered k s),
     []).
Proof.
  intros Hc Hfind Hslot. unfold add_subscription. run.
  destruct (Z.ltb_spec 0 (count_of s k)); [lia|]. run.
  change (set_subscriptions _ _) with (registered k s).
  rewrite (new_slot_found (registered k s) cid l) by exact Hfind.
  unfold slot_append. run. unfold slot in Hslot. rewrite Hslot. reflexivity.
Qed.

Lemma add_subscription_full (s : Client) (k : string) :
  count_of s k ≤ 0 →
  first_with_room s = None →
  add_subscription k s
  = (Returned tt,
     set_client_subscriptions
       (od_set (_next_client_id s) [k] (od_set (_next_client_id s) [] (_client_subscriptions s)))
       (with_new_slot (registered k s)),
     []).
Proof.
  intros Hc Hfind. unfold add_subscription. run.
  destruct (Z.ltb_spec 0 (count_of s k)); [lia|]. run.
  change (set_subscriptions _ _) with (registered k s).
  rewrite (new_slot_created (registered k s)) by exact Hfind.
  unfold slot_append. run. rewrite od_get_set_eq. reflexivity.
Qed.

(** The locked block of [subscribe] does to the client what
    [add_subscription] does. *)
Lemma subscribe_locked_state (s : Client) (k : string) :
  state_of (subscribe_locked k s) = state_of (add_subscription k s).
Proof.
  unfold subscribe_locked, add_subscription. run.
  destruct (0 <? count_of s k); run.
  - unfold _get_client_for_subscription. run.
    repeat case_match; simplify_eq; reflexivity.
  - destruct (_get_client_id_for_new_subscription _) as [[[cid| |] s1] t1]; try reflexivity.
    destruct (slot_append cid k s1) as [[[[]| |] s2] t2]; reflexivity.
Qed.

(** What the locked block of [subscribe] hands on for a first
    subscriber: the slot the key went to. *)
Lemma subscribe_locked_first (s : Client) (k : string) :
  count_of s k ≤ 0 →
  outcome_of (subscribe_locked k s)
  = match first_with_room s with
    | Some (cid, _) => Returned (LockedNew cid)
    | None => Returned (LockedNew (_next_client_id s))
    end
  ∧ events_of (subscribe_locked k s) = [].
Proof.
  intros Hc. unfold subscribe_locked. run.
  destruct (Z.ltb_spec 0 (count_of s k)); [lia|]. run.
  change (set_subscriptions _ _) with (registered k s).
  destruct (first_with_room s) as [[cid l]|] eqn:Hfind.
  - rewrite (new_slot_found (registered k s) cid l) by exact Hfind.
    unfold slot_append. run.
    destruct (od_get cid (_client_subscriptions s)) eqn:Hget; [done|].
    apply find_some in Hfind as [Hin _]. apply list_elem_of_In in Hin.
    apply od_get_None in Hget. exfalso. apply Hget.
    apply list_elem_of_fmap. by exists (cid, l).
  - rewrite (new_slot_created (registered k s)) by exact Hfind.
    unfold slot_append. run. rewrite od_get_set_eq. done.
Qed.

(** ** The bookkeeping stays consistent *)

Lemma consistent_book (s s' : Client) :
  book s' = book s → consistent s → consistent s'.
Proof.
  intros Hb [H1 H2 H3 H4 H5 H6 H7]. book_fields Hb.
  split; unfold slot_keys in *; rewrite ?Hsubs, ?Hcounts, ?Hslots, ?Hnext; done.
Qed.

Lemma consistent_init (base_url : option string) (channel : PolymarketWebSocketChannel)
    (auth : option PolymarketWebSocketAuth) (capacity : Z) :
  consistent (init base_url channel auth capacity).
Proof.
  split; cbn; try done.
  - intros k. split; [intros H; by apply elem_of_nil in H | intros [? ?]; done].
  - constructor.
  - constructor.
Qed.

Lemma consistent_ids_unique (s : Client) :
  consistent s → NoDup (map fst (_client_subscriptions s)).
Proof. intros Hc. rewrite (ids_in_order s Hc). apply NoDup_seqZ. Qed.

Lemma consistent_next_fresh (s : Client) :
  consistent s → od_get (_next_client_id s) (_client_subscriptions s) = None.
Proof.
  intros Hc. apply od_get_None. rewrite (ids_in_order s Hc).
  rewrite elem_of_seqZ. lia.
Qed.

Lemma consistent_slot (s : Client) (cid : Z) (l : list string) :
  consistent s → (cid, l) ∈ _client_subscriptions s → slot s cid = Some l.
Proof. intros Hc Hin. apply od_get_unique; [by apply consistent_ids_unique | done]. Qed.

Lemma consistent_count_zero (s : Client) (k : string) :
  consistent s → count_of s k ≤ 0 → _subscription_counts s !! k = None.
Proof.
  intros Hc Hk. unfold count_of in Hk.
  destruct (_subscription_counts s !! k) as [n|] eqn:Hn; [|done].
  apply (counts_positive s Hc) in Hn. cbn in Hk. lia.
Qed.

Lemma consistent_count_pos (s : Client) (k : string) :
  consistent s → 0 < count_of s k → _subscription_counts s !! k = Some (count_of s k).
Proof.
  intros Hc Hk. unfold count_of in *.
  destruct (_subscription_counts s !! k) as [n|] eqn:Hn; [done|]. cbn in Hk. lia.
Qed.

Lemma consistent_add_subscription (s : Client) (k : string) :
  consistent s → consistent (state_of (add_subscription k s)).
Proof.
  intros Hc. destruct (Z.lt_ge_cases 0 (count_of s k)) as [Hpos|Hzero].
  - rewrite add_subscription_again by done. cbn.
    pose proof (consistent_count_pos s k Hc Hpos) as Hk.
    destruct Hc as [H1 H2 H3 H4 H5 H6 H7]. split; cbn; try done.
    + intros k' n. destruct (decide (k = k')) as [<-|Hne].
      * rewrite lookup_insert_eq. intros [= <-]. lia.
      * rewrite lookup_insert_ne by done. apply H1.
    + intros k'. rewrite H2. destruct (decide (k = k')) as [<-|Hne].
      * rewrite lookup_insert_eq, Hk. split; intros; by eexists.
      * by rewrite lookup_insert_ne.
  - pose proof (consistent_count_zero s k Hc Hzero) as Hk.
    assert (count_of s k = 0) as Hk0 by (unfold count_of; by rewrite Hk).
    assert (k ∉ _subscriptions s) as Hnl.
    { rewrite (listed_iff_counted s Hc), Hk. by intros [? ?]. }
    assert (k ∉ slot_keys s) as Hnh by (by rewrite (held_iff_listed s Hc)).
    assert (∀ k' n, <[k:=count_of s k + 1]> (_subscription_counts s) !! k' = Some n → 0 < n)
      as Hpos'.
    { intros k' n. destruct (decide (k = k')) as [<-|Hne].
      - rewrite lookup_insert_eq. intros [= <-]. lia.
      - rewrite lookup_insert_ne by done. apply (counts_positive s Hc). }
    assert (∀ k', k' ∈ _subscriptions s ++ [k]
                  ↔ is_Some (<[k:=count_of s k + 1]> (_subscription_counts s) !! k'))
      as Hlisted'.
    { intros k'. rewrite elem_of_app, list_elem_of_singleton, (listed_iff_counted s Hc).
      destruct (decide (k = k')) as [<-|Hne].
      - rewrite lookup_insert_eq. split; [by eexists | by right].
      - rewrite lookup_insert_ne by done. split; [intros [?|?]; [done | congruence] | by left]. }
    assert (NoDup (_subscriptions s ++ [k])) as Hnd'.
    { apply NoDup_app. split; [apply (listed_once s Hc)|]. split.
      - intros x Hx Hxk. apply list_elem_of_singleton in Hxk. by subst.
      - apply NoDup_singleton. }
    destruct (first_with_room s) as [[cid l]|] eqn:Hfind.
    + assert (slot s cid = Some l) as Hslot.
      { apply consistent_slot; [done|]. apply list_elem_of_In.
        by apply (find_some _ _ Hfind). }
      rewrite (add_subscription_room s k cid l l) by done. cbn.
      assert (concat (map snd (od_set cid (l ++ [k]) (_client_subscriptions s)))
              ≡ₚ k :: slot_keys s) as Hperm.
      { apply (od_set_concat_grow cid k l); [done|]. by rewrite Permutation_app_comm. }
      split; cbn; try done.
      * unfold slot_keys. cbn. rewrite Hperm. apply NoDup_cons. split; [done|].
        apply (held_once s Hc).
      * intros k'. unfold slot_keys. cbn. rewrite Hperm.
        rewrite elem_of_cons, elem_of_app, list_elem_of_singleton, (held_iff_listed s Hc).
        tauto.
      * rewrite (od_set_keys cid _ l) by done. apply (ids_in_order s Hc).
      * apply (next_id_nonneg s Hc).
    + rewrite add_subscription_full by done. cbn.
      pose proof (consistent_next_fresh s Hc) as Hfresh.
      rewrite (od_set_new _ _ _ Hfresh), (od_set_last _ _ _ _ Hfresh).
      pose proof (next_id_nonneg s Hc) as Hnn.
      split; cbn; try done.
      * unfold slot_keys. cbn. rewrite map_app, concat_app. cbn.
        apply NoDup_app. split; [apply (held_once s Hc)|]. split.
        -- intros x Hx Hxk. apply list_elem_of_singleton in Hxk. by subst.
        -- apply NoDup_singleton.
      * intros k'. unfold slot_keys. cbn. rewrite map_app, concat_app. cbn.
        rewrite !elem_of_app, !list_elem_of_singleton.
        pose proof (held_iff_listed s Hc k') as Hh. unfold slot_keys in Hh. tauto.
      * rewrite map_app. cbn. rewrite (ids_in_order s Hc).
        rewrite (seqZ_app 0 (_next_client_id s) 1) by lia. reflexivity.
      * lia.
Qed.

Lemma consistent_subscribe (net : Transport) (s : Client) (k : string) :
  consistent s → consistent (state_of (subscribe net k s)).
Proof.
  intros Hc. apply consistent_add_subscription with (k := k) in Hc.
  rewrite <- subscribe_locked_state in Hc.
  unfold subscribe. run_unfold.
  destruct (subscribe_locked k s) as [[[locked| |] s1] t1]; cbn in *; try done.
  pose proof (keeps_book_subscribe_unlocked net k locked s1) as Hb.
  destruct (subscribe_unlocked net k locked s1) as [[r s2] t2]. cbn in *.
  by apply (consistent_book s1).
Qed.

(** ** Unsubscribing *)

Lemma unsubscribe_locked_more (s : Client) (k : string) :
  1 < count_of s k →
  unsubscribe_locked k s
  = (Returned None,
     set_subscription_counts (<[k := count_of s k - 1]> (_subscription_counts s)) s,
     [EvLog DEBUG [Txt "Decremented subscription count for "; Txt k; Txt " (count=";
                   Int (count_of s k - 1); Txt ")"]]).
Proof.
  intros Hc. unfold unsubscribe_locked. run.
  destruct (Z.leb_spec (count_of s k) 0); [lia|].
  destruct (Z.ltb_spec 1 (count_of s k)); [reflexivity | lia].
Qed.

Lemma first_holding_some (s : Client) (k : string) :
  k ∈ slot_keys s → ∃ cid l, first_holding s k = Some (cid, l) ∧ k ∈ l
                              ∧ (cid, l) ∈ _client_subscriptions s.
Proof.
  unfold slot_keys, first_holding. intros Hin.
  destruct (find _ (_client_subscriptions s)) as [[cid l]|] eqn:Hfind.
  - apply find_some in Hfind as [Hitem Hk]. exists cid, l.
    split; [done|]. split; [by apply bool_decide_eq_true in Hk | by apply list_elem_of_In].
  - exfalso. apply list_elem_of_In, in_concat in Hin as (l & Hl & Hkl).
    apply in_map_iff in Hl as ([cid l0] & Heq & Hitem). cbn in Heq. subst l0.
    pose proof (find_none _ _ Hfind _ Hitem) as Hno. cbn in Hno.
    apply bool_decide_eq_false in Hno. apply Hno. by apply list_elem_of_In.
Qed.

Lemma unsubscribe_locked_last (s : Client) (k : string) :
  consistent s → count_of s k = 1 →
  ∃ cid l l' subs',
    first_holding s k = Some (cid, l)
    ∧ slot s cid = Some l
    ∧ list_remove k l = Some l'
    ∧ list_remove k (_subscriptions s) = Some subs'
    ∧ 0 ≤ cid
    ∧ unsubscribe_locked k s
      = (Returned (Some (cid, negb (truthy l'))), released k cid l' subs' s, []).
Proof.
  intros Hc Hk.
  pose proof (consistent_count_pos s k Hc ltac:(lia)) as Hm.
  assert (k ∈ _subscriptions s) as Hl by (rewrite (listed_iff_counted s Hc), Hm; by eexists).
  assert (k ∈ slot_keys s) as Hh by (by rewrite (held_iff_listed s Hc)).
  destruct (first_holding_some s k Hh) as (cid & l & Hfind & Hkl & Hitem).
  pose proof (consistent_slot s cid l Hc Hitem) as Hslot.
  destruct (list_remove_elem k l Hkl) as [l' Hl'].
  destruct (list_remove_elem k (_subscriptions s) Hl) as [subs' Hsubs'].
  assert (0 ≤ cid) as Hcid.
  { assert (cid ∈ map fst (_client_subscriptions s)) as Hin.
    { apply list_elem_of_fmap. by exists (cid, l). }
    rewrite (ids_in_order s Hc), elem_of_seqZ in Hin. lia. }
  exists cid, l, l', subs'. repeat (split; [done|]).
  unfold unsubscribe_locked. run. rewrite Hk. cbn. run.
  rewrite bool_decide_eq_true_2 by done. cbn.
  unfold _get_client_for_subscription. run.
  unfold first_holding in Hfind. rewrite Hfind. cbn.
  destruct (Z.eqb_spec cid (-1)); [lia|]. run.
  unfold subscriptions_remove. run. rewrite Hsubs'. cbn.
  unfold slot in Hslot. rewrite Hslot. rewrite bool_decide_eq_true_2 by done. cbn.
  unfold slot_remove. run. rewrite Hslot, Hl'. cbn.
  rewrite od_get_set_eq. reflexivity.
Qed.

Lemma list_remove_NoDup (x : string) (l l' : list string) :
  NoDup l → list_remove x l = Some l' →
  NoDup l' ∧ ∀ y, y ∈ l' ↔ y ∈ l ∧ y ≠ x.
Proof.
  intros Hnd Hr. apply list_remove_perm in Hr. rewrite Hr in Hnd.
  apply NoDup_cons in Hnd as [Hx Hnd]. split; [done|].
  intros y. rewrite Hr, elem_of_cons. split.
  - intros Hy. split; [by right|]. by intros ->.
  - intros [[?|?] ?]; done.
Qed.

Lemma consistent_unsubscribe_locked (s : Client) (k : string) :
  consistent s → consistent (state_of (unsubscribe_locked k s)).
Proof.
  intros Hc. destruct (Z.lt_total (count_of s k) 1) as [Hlt|[Heq|Hgt]].
  - assert (unsubscribe_locked k s
            = (Returned None, s,
               [EvLog WARNING [Txt "Cannot unsubscribe from "; Txt k;
                               Txt ": not subscribed"]])) as ->; [|done].
    unfold unsubscribe_locked. run.
    destruct (Z.leb_spec (count_of s k) 0); [reflexivity | lia].
  - destruct (unsubscribe_locked_last s k Hc Heq)
      as (cid & l & l' & subs' & Hfind & Hslot & Hl' & Hsubs' & Hcid & ->). cbn.
    destruct (list_remove_NoDup k _ _ (listed_once s Hc) Hsubs') as [Hnd' Hin'].
    assert (slot_keys s ≡ₚ k :: concat (map snd (od_set cid l' (_client_subscriptions s))))
      as Hperm.
    { apply (od_set_concat_shrink cid k l); [done|]. by apply list_remove_perm. }
    pose proof (held_once s Hc) as Hheld. rewrite Hperm in Hheld.
    apply NoDup_cons in Hheld as [Hkout Hheld].
    split; cbn; try done.
    + intros k' n. destruct (decide (k = k')) as [<-|Hne].
      * by rewrite lookup_delete_eq.
      * rewrite lookup_delete_ne by done. apply (counts_positive s Hc).
    + intros k'. rewrite Hin', (listed_iff_counted s Hc).
      destruct (decide (k = k')) as [<-|Hne].
      * rewrite lookup_delete_eq. split; [tauto | by intros [? ?]].
      * rewrite lookup_delete_ne by done. split; [tauto | by split].
    + intros k'. rewrite Hin', <- (held_iff_listed s Hc), Hperm.
      rewrite elem_of_cons. split.
      * intros Hk'. split; [by right|]. by intros ->.
      * intros [[?|?] ?]; done.
    + rewrite (od_set_keys cid _ l) by done. apply (ids_in_order s Hc).
    + apply (next_id_nonneg s Hc).
  - rewrite unsubscribe_locked_more by done. cbn.
    pose proof (consistent_count_pos s k Hc ltac:(lia)) as Hm.
    destruct Hc as [H1 H2 H3 H4 H5 H6 H7]. split; cbn; try done.
    + intros k' n. destruct (decide (k = k')) as [<-|Hne].
      * rewrite lookup_insert_eq. intros [= <-]. lia.
      * rewrite lookup_insert_ne by done. apply H1.
    + intros k'. rewrite H2. destruct (decide (k = k')) as [<-|Hne].
      * rewrite lookup_insert_eq, Hm. split; intros; by eexists.
      * by rewrite lookup_insert_ne.
Qed.

Lemma consistent_unsubscribe (net : Transport) (s : Client) (k : string) :
  consistent s → consistent (state_of (unsubscribe net k s)).
Proof.
  intros Hc. apply consistent_unsubscribe_locked with (k := k) in Hc.
  unfold unsubscribe. run_unfold.
  destruct (unsubscribe_locked k s) as [[[[[cid d]|]| |] s1] t1]; cbn in *; try done.
  pose proof (keeps_book_unsubscribe_unlocked net k cid d s1) as Hb.
  destruct (unsubscribe_unlocked net k cid d s1) as [[r s2] t2]. cbn in *.
  by apply (consistent_book s1).
Qed.

(** Every client a program can hold keeps consistent books. *)
Lemma reachable_consistent (s : Client) : reachable s → consistent s.
Proof.
  induction 1 as [| net c s _ IH | cid m s _ IH].
  - apply consistent_init.
  - destruct c; cbn.
    + by apply consistent_add_subscription.
    + by apply consistent_subscribe.
    + by apply consistent_unsubscribe.
    + apply (consistent_book s); [exact (keeps_book_connect net s) | done].
  - unfold transport_event. repeat case_match; try done. by apply (consistent_book s).
Qed.

Lemma subscribe_same_book (net : Transport) (s : Client) (k : string) :
  book (state_of (subscribe net k s)) = book (state_of (add_subscription k s)).
Proof.
  rewrite <- subscribe_locked_state. unfold subscribe. run_unfold.
  destruct (subscribe_locked k s) as [[[locked| |] s1] t1]; cbn; try done.
  pose proof (keeps_book_subscribe_unlocked net k locked s1) as Hb.
  by destruct (subscribe_unlocked net k locked s1) as [[r s2] t2].
Qed.

Lemma unsubscribe_same_book (net : Transport) (s : Client) (k : string) :
  book (state_of (unsubscribe net k s)) = book (state_of (unsubscribe_locked k s)).
Proof.
  unfold unsubscribe. run_unfold.
  destruct (unsubscribe_locked k s) as [[[[[cid d]|]| |] s1] t1]; cbn; try done.
  pose proof (keeps_book_unsubscribe_unlocked net k cid d s1) as Hb.
  by destruct (unsubscribe_unlocked net k cid d s1) as [[r s2] t2].
Qed.

(** ** Registry and slots *)

Lemma slots_holding_none (k : string) (d : list (Z * list string)) :
  k ∉ concat (map snd d) →
  List.filter (λ item : Z * list string, bool_decide (k ∈ item.2)) d = [].
Proof.
  induction d as [|[c l] d IH]; cbn; [done|].
  rewrite elem_of_app. intros Hn.
  rewrite bool_decide_eq_false_2 by tauto. apply IH. tauto.
Qed.

Lemma slots_holding_one (k : string) (d : list (Z * list string)) :
  NoDup (concat (map snd d)) → k ∈ concat (map snd d) →
  ∃ item, List.filter (λ item : Z * list string, bool_decide (k ∈ item.2)) d = [item].
Proof.
  induction d as [|[c l] d IH]; cbn.
  - intros _ H. by apply elem_of_nil in H.
  - intros Hnd Hin. apply NoDup_app in Hnd as (_ & Hdisj & Hnd).
    destruct (decide (k ∈ l)) as [Hl|Hl].
    + rewrite bool_decide_eq_true_2 by done.
      rewrite slots_holding_none by auto. by eexists.
    + rewrite bool_decide_eq_false_2 by done. apply IH; [done|].
      apply elem_of_app in Hin as [?|?]; done.
Qed.

(** C5: in every client reached by calls, a key is on the subscription
    list exactly when its reference count is positive; a key with a
    positive count is on the key list of exactly one slot, and a key whose
    count is 0 is on none. *)
Theorem registry_and_slots_agree (s : Client) (k : string) :
  reachable s →
  (k ∈ _subscriptions s ↔ 0 < count_of s k)
  ∧ 0 ≤ count_of s k
  ∧ (0 < count_of s k → ∃ cid, slots_holding s k = [cid])
  ∧ (count_of s k = 0 → slots_holding s k = []).
Proof.
  intros Hr. pose proof (reachable_consistent s Hr) as Hc.
  assert (k ∈ _subscriptions s ↔ 0 < count_of s k) as Hlisted.
  { rewrite (listed_iff_counted s Hc). unfold count_of. split.
    - intros [n Hn]. rewrite Hn. cbn. by apply (counts_positive s Hc k).
    - destruct (_subscription_counts s !! k); cbn; [by eexists | lia]. }
  split; [done|]. split.
  { unfold count_of. destruct (_subscription_counts s !! k) as [n|] eqn:Hn; cbn; [|done].
    apply (counts_positive s Hc) in Hn. lia. }
  unfold slots_holding. split.
  - intros Hpos. apply Hlisted, (held_iff_listed s Hc) in Hpos.
    destruct (slots_holding_one k _ (held_once s Hc) Hpos) as [[cid l] ->].
    by exists cid.
  - intros Hzero. rewrite slots_holding_none; [done|].
    rewrite (held_iff_listed s Hc), Hlisted. lia.
Qed.

(** ** Capacity *)

Lemma all_full_no_room (s : Client) :
  consistent s → all_full s → first_with_room s = None.
Proof.
  intros Hc Hfull. destruct (first_with_room s) as [[cid l]|] eqn:Hfind; [|done].
  apply find_some in Hfind as [Hin Hroom]. cbn in Hroom.
  apply list_elem_of_In, (consistent_slot s cid l Hc), Hfull in Hin. congruence.
Qed.

Lemma add_subscription_all_full (s : Client) (k : string) :
  consistent s → count_of s k = 0 → all_full s →
  add_subscription k s
  = (Returned tt,
     set_client_subscriptions (_client_subscriptions s ++ [(_next_client_id s, [k])])
       (with_new_slot (registered k s)),
     []).
Proof.
  intros Hc Hk Hfull. rewrite add_subscription_full; [|lia|by apply all_full_no_room].
  pose proof (consistent_next_fresh s Hc) as Hfresh.
  by rewrite (od_set_new _ _ _ Hfresh), (od_set_last _ _ _ _ Hfresh).
Qed.

Lemma within_capacity_book (s s' : Client) :
  book s' = book s → within_capacity s → within_capacity s'.
Proof.
  intros Hb Hw cid l. book_fields Hb. unfold slot. rewrite Hslots, Hmax. apply Hw.
Qed.

Lemma within_capacity_add_subscription (s : Client) (k : string) :
  consistent s → 1 ≤ _max_subscriptions_per_connection s →
  within_capacity s → within_capacity (state_of (add_subscription k s)).
Proof.
  intros Hc Hcap Hw. destruct (Z.lt_ge_cases 0 (count_of s k)) as [Hpos|Hzero].
  - rewrite add_subscription_again by done. exact Hw.
  - destruct (first_with_room s) as [[cid l]|] eqn:Hfind.
    + pose proof (find_some _ _ Hfind) as [Hin Hroom]. cbn in Hroom.
      apply list_elem_of_In, (consistent_slot s cid l Hc) in Hin.
      rewrite (add_subscription_room s k cid l l) by done.
      intros cid' l'. unfold slot. cbn. rewrite od_get_set. case_decide.
      * intros [= <-]. rewrite length_app. cbn. unfold has_room in Hroom. lia.
      * apply Hw.
    + rewrite add_subscription_full by done.
      pose proof (consistent_next_fresh s Hc) as Hfresh.
      rewrite (od_set_new _ _ _ Hfresh), (od_set_last _ _ _ _ Hfresh).
      intros cid' l'. unfold slot. cbn. rewrite od_get_app.
      destruct (od_get cid' (_client_subscriptions s)) as [l0|] eqn:Hget.
      * intros [= <-]. by apply (Hw cid').
      * cbn. destruct (cid' =? _next_client_id s); [|done]. intros [= <-]. cbn. lia.
Qed.

Lemma within_capacity_unsubscribe_locked (s : Client) (k : string) :
  consistent s → within_capacity s → within_capacity (state_of (unsubscribe_locked k s)).
Proof.
  intros Hc Hw. destruct (Z.lt_total (count_of s k) 1) as [Hlt|[Heq|Hgt]].
  - assert (state_of (unsubscribe_locked k s) = s) as ->; [|done].
    unfold unsubscribe_locked. run.
    destruct (Z.leb_spec (count_of s k) 0); [reflexivity | lia].
  - destruct (unsubscribe_locked_last s k Hc Heq)
      as (cid & l & l' & subs' & Hfind & Hslot & Hl' & Hsubs' & Hcid & ->).
    intros cid' l0. unfold slot. cbn. rewrite od_get_set. case_decide.
    + intros [= <-]. apply list_remove_length in Hl'. apply Hw in Hslot. lia.
    + apply Hw.
  - rewrite unsubscribe_locked_more by done. exact Hw.
Qed.

Lemma reachable_within_capacity (s : Client) :
  reachable s → 1 ≤ _max_subscriptions_per_connection s → within_capacity s.
Proof.
  induction 1 as [| net c s Hr IH | cid m s Hr IH]; intros Hcap.
  - intros cid l. by unfold slot.
  - pose proof (keeps_config_call net c s) as Hcfg. unfold config in Hcfg.
    injection Hcfg as Hmax _ _ _ _. rewrite Hmax in Hcap.
    pose proof (reachable_consistent s Hr) as Hc. specialize (IH Hcap).
    destruct c; cbn.
    + by apply within_capacity_add_subscription.
    + apply (within_capacity_book (state_of (add_subscription subscription s)));
        [apply subscribe_same_book | by apply within_capacity_add_subscription].
    + apply (within_capacity_book (state_of (unsubscribe_locked subscription s)));
        [apply unsubscribe_same_book | by apply within_capacity_unsubscribe_locked].
    + apply (within_capacity_book s); [exact (keeps_book_connect net s) | done].
  - unfold transport_event in *. repeat case_match; auto.
Qed.

(** C3, for a capacity of at least 1: in every client reached by calls
    no slot's key list is longer than the capacity; and when every
    existing slot is full, a first subscriber's key goes to a slot created
    for it, the existing slots staying as they were. *)
Theorem slots_within_capacity (net : Transport) (s : Client) (k : string) :
  reachable s →
  1 ≤ _max_subscriptions_per_connection s →
  within_capacity s
  ∧ (count_of s k = 0 → all_full s →
     _client_subscriptions (state_of (add_subscription k s))
     = _client_subscriptions s ++ [(_next_client_id s, [k])]
     ∧ _client_subscriptions (state_of (subscribe net k s))
       = _client_subscriptions s ++ [(_next_client_id s, [k])]).
Proof.
  intros Hr Hcap. split; [by apply reachable_within_capacity|].
  intros Hk Hfull. pose proof (reachable_consistent s Hr) as Hc.
  pose proof (subscribe_same_book net s k) as Hb. book_fields Hb. rewrite Hslots.
  by rewrite add_subscription_all_full.
Qed.

(** ** First fit *)

Lemma first_with_room_lowest (s : Client) (cid : Z) (l : list string) :
  consistent s → first_with_room s = Some (cid, l) →
  slot s cid = Some l
  ∧ has_room s l = true
  ∧ ∀ cid' l', slot s cid' = Some l' → has_room s l' = true → cid ≤ cid'.
Proof.
  intros Hc Hfind.
  destruct (find_split _ _ _ Hfind) as (d1 & d2 & Hd & Hroom & Hbefore). cbn in Hroom.
  split.
  { apply consistent_slot; [done|]. rewrite Hd. apply elem_of_app. right.
    apply list_elem_of_here. }
  split; [done|].
  intros cid' l' Hslot Hroom'. apply od_get_elem in Hslot. rewrite Hd in Hslot.
  apply elem_of_app in Hslot as [Hin|Hin].
  - rewrite Forall_forall in Hbefore. apply Hbefore in Hin. cbn in Hin. congruence.
  - apply elem_of_cons in Hin as [[= -> ->]|Hin]; [lia|].
    pose proof (ids_in_order s Hc) as Hids. rewrite Hd, map_app in Hids. cbn in Hids.
    symmetry in Hids. apply Z.lt_le_incl, (seqZ_after _ _ _ _ _ Hids).
    apply list_elem_of_fmap. by exists (cid', l').
Qed.

Lemma first_with_room_none (s : Client) :
  first_with_room s = None → all_full s.
Proof.
  intros Hfind cid l Hslot. apply od_get_elem, list_elem_of_In in Hslot.
  apply (find_none _ _ Hfind _ Hslot).
Qed.

(** The lowest-id slot with room is the one the search stops at. *)
Lemma lowest_with_room_first (s : Client) (cid : Z) (l : list string) :
  consistent s →
  slot s cid = Some l → has_room s l = true →
  (∀ cid' l', slot s cid' = Some l' → has_room s l' = true → cid ≤ cid') →
  first_with_room s = Some (cid, l).
Proof.
  intros Hc Hslot Hroom Hlow.
  destruct (first_with_room s) as [[c lc]|] eqn:Hfind.
  - destruct (first_with_room_lowest s c lc Hc Hfind) as (Hsc & Hrc & Hlc).
    assert (c = cid) as -> by (pose proof (Hlow c lc Hsc Hrc); pose proof (Hlc cid l Hslot Hroom); lia).
    congruence.
  - apply first_with_room_none in Hfind. apply Hfind in Hslot. congruence.
Qed.

Lemma add_subscription_first_fit (s : Client) (k : string) (cid : Z) (l : list string) :
  consistent s → count_of s k = 0 →
  slot s cid = Some l → has_room s l = true →
  (∀ cid' l', slot s cid' = Some l' → has_room s l' = true → cid ≤ cid') →
  _get_client_id_for_new_subscription s = (Returned cid, s, [])
  ∧ add_subscription k s
    = (Returned tt,
       set_client_subscriptions (od_set cid (l ++ [k]) (_client_subscriptions s))
         (registered k s),
       []).
Proof.
  intros Hc Hk Hslot Hroom Hlow.
  pose proof (lowest_with_room_first s cid l Hc Hslot Hroom Hlow) as Hfind.
  split; [by apply (new_slot_found s cid l)|].
  apply (add_subscription_room s k cid l l); [lia | done | done].
Qed.

(** C6: in every client reached by calls, a first subscriber's key goes
    to the lowest-id slot whose key list is shorter than the capacity, at
    the end of its list; when no slot has room a slot is created under the
    next id, larger than every id in use, with an empty key list, that id
    is returned and the key is put there. *)
Theorem assign_new_first_fit (net : Transport) (s : Client) (k : string) :
  reachable s → count_of s k = 0 →
  (∀ cid l,
     slot s cid = Some l → has_room s l = true →
     (∀ cid' l', slot s cid' = Some l' → has_room s l' = true → cid ≤ cid') →
     _get_client_id_for_new_subscription s = (Returned cid, s, [])
     ∧ _client_subscriptions (state_of (add_subscription k s))
       = od_set cid (l ++ [k]) (_client_subscriptions s)
     ∧ _client_subscriptions (state_of (subscribe net k s))
       = od_set cid (l ++ [k]) (_client_subscriptions s)
     ∧ _next_client_id (state_of (add_subscription k s)) = _next_client_id s)
  ∧ (all_full s →
     outcome_of (_get_client_id_for_new_subscription s) = Returned (_next_client_id s)
     ∧ (∀ cid l, slot s cid = Some l → cid < _next_client_id s)
     ∧ _client_subscriptions (state_of (_get_client_id_for_new_subscription s))
       = _client_subscriptions s ++ [(_next_client_id s, [])]
     ∧ _client_subscriptions (state_of (add_subscription k s))
       = _client_subscriptions s ++ [(_next_client_id s, [k])]
     ∧ _client_subscriptions (state_of (subscribe net k s))
       = _client_subscriptions s ++ [(_next_client_id s, [k])]
     ∧ _next_client_id (state_of (add_subscription k s)) = _next_client_id s + 1).
Proof.
  intros Hr Hk. pose proof (reachable_consistent s Hr) as Hc.
  pose proof (subscribe_same_book net s k) as Hb. book_fields Hb. rewrite Hslots.
  split.
  - intros cid l Hslot Hroom Hlow.
    destruct (add_subscription_first_fit s k cid l Hc Hk Hslot Hroom Hlow) as [Hpick ->].
    by rewrite Hpick.
  - intros Hfull. pose proof (all_full_no_room s Hc Hfull) as Hfind.
    rewrite add_subscription_all_full, new_slot_created by done. cbn.
    pose proof (consistent_next_fresh s Hc) as Hfresh.
    rewrite (od_set_new _ _ _ Hfresh). repeat split.
    intros cid l Hslot. apply od_get_elem in Hslot.
    assert (cid ∈ map fst (_client_subscriptions s)) as Hin.
    { apply list_elem_of_fmap. by exists (cid, l). }
    rewrite (ids_in_order s Hc), elem_of_seqZ in Hin. lia.
Qed.

(** ** Emptied slots *)





(** ** Messages on the wire *)

Lemma bulk_subscribe_kind (s : Client) (l : list string) :
  let m := match _channel s with
           | USER => _create_subscribe_user_channel_msg s l
           | MARKET => _create_subscribe_market_channel_msg s l
           end in
  is_subscribe_msg m = true ∧ is_unsubscribe_msg m = false ∧ msg_keys m = l.
Proof. destruct (_channel s); vm_compute; done. Qed.

Lemma dynamic_subscribe_kind (s : Client) (l : list string) :
  let m := _create_dynamic_subscribe_msg s l in
  is_subscribe_msg m = true ∧ is_unsubscribe_msg m = false ∧ msg_keys m = l.
Proof.
  unfold _create_dynamic_subscribe_msg. destruct (_channel s); vm_compute; done.
Qed.

Lemma dynamic_unsubscribe_kind (s : Client) (l : list string) :
  let m := _create_dynamic_unsubscribe_msg s l in
  is_subscribe_msg m = false ∧ is_unsubscribe_msg m = true ∧ msg_keys m = l.
Proof.
  unfold _create_dynamic_unsubscribe_msg. destruct (_channel s); vm_compute; done.
Qed.

Lemma count_events_app (p : Event → bool) (t1 t2 : list Event) :
  count_events p (t1 ++ t2) = count_events p t1 + count_events p t2.
Proof. induction t1 as [|e t1 IH]; cbn; [done | rewrite IH; lia]. Qed.

Lemma wire_balance_app (k : string) (t1 t2 : list Event) :
  wire_balance k (t1 ++ t2) = wire_balance k t1 + wire_balance k t2.
Proof. unfold wire_balance. rewrite !count_events_app. lia. Qed.

Lemma wired_init (base_url : option string) (channel : PolymarketWebSocketChannel)
    (auth : option PolymarketWebSocketAuth) (capacity : Z) :
  wired (init base_url channel auth capacity).
Proof.
  split; [apply consistent_init | | | ]; unfold client_of, slot; cbn; try done.
Qed.

(** ** Subscribing and unsubscribing on a transport whose calls succeed *)

Lemma wired_held (s : Client) (k : string) :
  wired s → 0 < count_of s k →
  ∃ cid l c, first_holding s k = Some (cid, l) ∧ slot s cid = Some l ∧ k ∈ l ∧ 0 ≤ cid
             ∧ client_of s cid = Some c ∧ is_active c = true.
Proof.
  intros Hw Hk. pose proof (wired_consistent s Hw) as Hc.
  pose proof (consistent_count_pos s k Hc Hk) as Hm.
  assert (k ∈ slot_keys s) as Hh.
  { rewrite (held_iff_listed s Hc), (listed_iff_counted s Hc), Hm. by eexists. }
  destruct (first_holding_some s k Hh) as (cid & l & Hfind & Hkl & Hitem).
  pose proof (consistent_slot s cid l Hc Hitem) as Hslot.
  destruct (wired_live s Hw cid l Hslot) as [c Hcl].
  { intros ->. by apply elem_of_nil in Hkl. }
  exists cid, l, c. repeat (split; [done|]). split; [|split; [done|]].
  - assert (cid ∈ map fst (_client_subscriptions s)) as Hin.
    { apply list_elem_of_fmap. by exists (cid, l). }
    rewrite (ids_in_order s Hc), elem_of_seqZ in Hin. lia.
  - by apply (wired_active s Hw cid).
Qed.

Lemma subscribe_again (net : Transport) (s : Client) (k : string) :
  wired s → 0 < count_of s k →
  subscribe net k s
  = (Returned tt,
     set_subscription_counts (<[k := count_of s k + 1]> (_subscription_counts s)) s,
     [EvLog DEBUG [Txt "Already subscribed to "; Txt k; Txt " (count=";
                   Int (count_of s k + 1); Txt ")"]]).
Proof.
  intros Hw Hk.
  destruct (wired_held s k Hw Hk) as (cid & l & c & Hfind & Hslot & Hkl & Hcid & Hcl & Hact).
  unfold subscribe, subscribe_locked. run.
  destruct (Z.ltb_spec 0 (count_of s k)); [|lia]. run.
  unfold _get_client_for_subscription. run.
  unfold first_holding in Hfind. rewrite Hfind. cbn.
  destruct (Z.eqb_spec cid (-1)); [lia|]. run.
  change (client_of (set_subscription_counts _ s) cid) with (client_of s cid).
  rewrite Hcl, Hact. cbn. reflexivity.
Qed.

Lemma wired_counts (s : Client) (m : gmap string Z) :
  wired s → consistent (set_subscription_counts m s) →
  wired (set_subscription_counts m s).
Proof. intros [H1 H2 H3 H4] Hc. by split. Qed.

Lemma send_live (net : Transport) (s : Client) (cid : Z) (c : WebSocketClient) (msg : Msg) :
  send_ok net cid = true → client_of s cid = Some c →
  _send net cid msg s
  = (Returned tt, s,
     [EvLog DEBUG [Txt "ws-client "; Int cid; Txt ": SENDING: "; Obj msg];
      EvSend cid msg true]).
Proof.
  intros Hok Hcl. unfold _send. run. rewrite Hcl. run. rewrite Hok. reflexivity.
Qed.

Lemma connect_client_reliable (s : Client) (cid : Z) (l : list string) :
  slot s cid = Some l → l ≠ [] →
  ∃ t, _connect_client reliable cid s
       = (Returned tt,
          set_is_connecting (<[cid := false]> (_is_connecting s))
            (set_clients (<[cid := Some {| mode := ModeActive |}]> (_clients s)) s),
          t)
       ∧ (∀ k, count_events (subscribes_key k) t = if bool_decide (k ∈ l) then 1 else 0)
       ∧ (∀ k, count_events (unsubscribes_key k) t = 0).
Proof.
  intros Hslot Hl. unfold slot in Hslot. unfold _connect_client. run.
  rewrite Hslot. cbn. destruct l as [|k0 l]; [done|]. cbn.
  unfold finally. run. unfold _subscribe_all, _send, client_of. run.
  rewrite lookup_insert_eq, Hslot. cbn.
  eexists. split.
  { f_equal. f_equal. unfold set_is_connecting, set_clients. cbn. f_equal.
    by rewrite insert_insert_eq. }
  pose proof (bulk_subscribe_kind s (k0 :: l)) as (Hs & Hu & Hk). cbn in Hs, Hu, Hk.
  split; intros k; cbn [count_events subscribes_key unsubscribes_key app];
    destruct (_channel s); rewrite ?Hs, ?Hu, ?Hk; cbn; try done;
    by destruct (bool_decide _).
Qed.

Lemma disconnect_client_active (s : Client) (cid : Z) (c : WebSocketClient) :
  client_of s cid = Some c → is_active c = true →
  ∃ t, _disconnect_client reliable cid s
       = (Returned tt, set_clients (<[cid := None]> (_clients s)) s, t)
       ∧ Forall (λ e, is_send e = false) t.
Proof.
  intros Hcl Hact. unfold _disconnect_client. run. rewrite Hcl.
  destruct c as [[]]; try done. cbn. eexists. split; [reflexivity|].
  by repeat constructor.
Qed.

Lemma count_events_no_send (p : Event → bool) (t : list Event) :
  (∀ e, p e = true → is_send e = true) →
  Forall (λ e, is_send e = false) t → count_events p t = 0.
Proof.
  intros Hp. induction 1 as [|e t He _ IH]; cbn; [done|].
  destruct (p e) eqn:Hpe; [|lia]. apply Hp in Hpe. congruence.
Qed.

Lemma subscribes_key_send (k : string) (e : Event) :
  subscribes_key k e = true → is_send e = true.
Proof. by destruct e. Qed.

Lemma unsubscribes_key_send (k : string) (e : Event) :
  unsubscribes_key k e = true → is_send e = true.
Proof. by destruct e. Qed.


Lemma indicator_singleton (k k' : string) :
  (if bool_decide (k' ∈ [k]) then 1 else 0) = (if bool_decide (k' = k) then 1 else 0).
Proof.
  rewrite (bool_decide_ext (k' ∈ [k]) (k' = k)); [done|]. apply list_elem_of_singleton.
Qed.

(** The part of [subscribe] outside the lock, for a key just put on
    slot [cid]: one subscribe message goes out, the bulk one of a fresh
    connection when the slot had no session, a dynamic one otherwise. *)
Lemma subscribe_unlocked_new (s1 : Client) (cid : Z) (l1 : list string) (k : string) :
  slot s1 cid = Some (l1 ++ [k]) →
  default false (_is_connecting s1 !! cid) = false →
  (client_of s1 cid = None → l1 = []) →
  ∃ s' t,
    subscribe_unlocked reliable k (LockedNew cid) s1 = (Returned tt, s', t)
    ∧ book s' = book s1
    ∧ is_Some (client_of s' cid)
    ∧ (∀ c' c, client_of s' c' = Some c →
               client_of s1 c' = Some c ∨ c = {| mode := ModeActive |})
    ∧ (∀ c', c' ≠ cid → client_of s' c' = client_of s1 c')
    ∧ (∀ c', default false (_is_connecting s' !! c')
             = if decide (cid = c') then false else default false (_is_connecting s1 !! c'))
    ∧ (∀ k', count_events (subscribes_key k') t = if bool_decide (k' = k) then 1 else 0)
    ∧ (∀ k', count_events (unsubscribes_key k') t = 0).
Proof.
  intros Hslot Hidle Hnone.
  unfold subscribe_unlocked, wait_while_connecting. run. rewrite Hidle. run.
  destruct (_clients s1 !! cid) as [[c|]|] eqn:Hcl; run.
  - assert (client_of s1 cid = Some c) as Hc by (unfold client_of; by rewrite Hcl).
    rewrite (send_live reliable s1 cid c) by done. cbn.
    eexists _, _. split; [reflexivity|]. split; [done|]. split; [by eexists|].
    split; [by left|]. split; [done|]. split; [intros c'; case_decide; [by subst|done]|].
    pose proof (dynamic_subscribe_kind s1 [k]) as (Hs & Hu & Hk). cbn in Hs, Hu, Hk.
    split; intros k'; cbn [count_events subscribes_key unsubscribes_key];
      rewrite ?Hs, ?Hu, ?Hk; cbn; rewrite ?indicator_singleton; lia.
  - assert (client_of s1 cid = None) as Hc by (unfold client_of; by rewrite Hcl).
    rewrite (Hnone Hc) in Hslot. cbn in Hslot.
    destruct (connect_client_reliable s1 cid [k] Hslot ltac:(done)) as (t & -> & Hs & Hu).
    eexists _, _. split; [reflexivity|]. split; [done|].
    unfold client_of. cbn. split; [rewrite lookup_insert_eq; by eexists|].
    split.
    { intros c' c. destruct (decide (cid = c')) as [<-|Hne].
      - rewrite lookup_insert_eq. cbn. intros [= <-]. by right.
      - rewrite lookup_insert_ne by done. by left. }
    split; [intros c' Hne; by rewrite lookup_insert_ne|].
    split.
    { intros c'. case_decide as Hd.
      - subst. by rewrite lookup_insert_eq.
      - by rewrite lookup_insert_ne. }
    split; [|done]. intros k'. by rewrite Hs, indicator_singleton.
  - assert (client_of s1 cid = None) as Hc by (unfold client_of; by rewrite Hcl).
    rewrite (Hnone Hc) in Hslot. cbn in Hslot.
    destruct (connect_client_reliable s1 cid [k] Hslot ltac:(done)) as (t & -> & Hs & Hu).
    eexists _, _. split; [reflexivity|]. split; [done|].
    unfold client_of. cbn. split; [rewrite lookup_insert_eq; by eexists|].
    split.
    { intros c' c. destruct (decide (cid = c')) as [<-|Hne].
      - rewrite lookup_insert_eq. cbn. intros [= <-]. by right.
      - rewrite lookup_insert_ne by done. by left. }
    split; [intros c' Hne; by rewrite lookup_insert_ne|].
    split.
    { intros c'. case_decide as Hd.
      - subst. by rewrite lookup_insert_eq.
      - by rewrite lookup_insert_ne. }
    split; [|done]. intros k'. by rewrite Hs, indicator_singleton.
Qed.

Lemma add_subscription_counts (s : Client) (k : string) :
  consistent s →
  _subscription_counts (state_of (add_subscription k s))
  = <[k := count_of s k + 1]> (_subscription_counts s).
Proof.
  intros Hc. destruct (Z.lt_ge_cases 0 (count_of s k)) as [Hpos|Hzero].
  - by rewrite add_subscription_again.
  - destruct (first_with_room s) as [[c l]|] eqn:Hfind.
    + destruct (first_with_room_lowest s c l Hc Hfind) as (Hsc & _).
      by rewrite (add_subscription_room s k c l l).
    + by rewrite add_subscription_full.
Qed.

Lemma subscribe_locked_new (s : Client) (k : string) :
  count_of s k ≤ 0 →
  ∃ cid, subscribe_locked k s
         = (Returned (LockedNew cid), state_of (add_subscription k s), [])
         ∧ cid = match first_with_room s with
                 | Some (c, _) => c
                 | None => _next_client_id s
                 end.
Proof.
  intros Hk. pose proof (subscribe_locked_first s k Hk) as [Ho Ht].
  pose proof (subscribe_locked_state s k) as Hs.
  destruct (subscribe_locked k s) as [[o s1] t1]. cbn in *. subst.
  destruct (first_with_room s) as [[c l]|]; by eexists.
Qed.

Lemma subscribe_first_reliable (s : Client) (k : string) :
  wired s → count_of s k = 0 →
  ∃ s' t,
    subscribe reliable k s = (Returned tt, s', t)
    ∧ wired s'
    ∧ book s' = book (state_of (add_subscription k s))
    ∧ (∀ k', count_events (subscribes_key k') t = if bool_decide (k' = k) then 1 else 0)
    ∧ (∀ k', count_events (unsubscribes_key k') t = 0).
Proof.
  intros Hw Hk. pose proof (wired_consistent s Hw) as Hc.
  pose proof (consistent_add_subscription s k Hc) as Hc1.
  destruct (subscribe_locked_new s k ltac:(lia)) as (cid & Hlocked & Hcid).
  unfold subscribe. run_unfold. rewrite Hlocked. cbn.
  destruct (first_with_room s) as [[c l]|] eqn:Hfind.
  - subst c. destruct (first_with_room_lowest s cid l Hc Hfind) as (Hslot & _).
    rewrite (add_subscription_room s k cid l l) in * by (done || lia).
    set (s1 := set_client_subscriptions _ (registered k s)) in *.
    cbn [state_of fst snd] in *.
    destruct (subscribe_unlocked_new s1 cid l k)
      as (s' & t & -> & Hb & Hlive & Hact & Hother & Hidle & Hs & Hu).
    { unfold slot, s1. cbn. apply od_get_set_eq. }
    { apply (wired_idle s Hw). }
    { intros Hnone. destruct l as [|k0 l]; [done|].
      destruct (wired_live s Hw cid (k0 :: l) Hslot ltac:(done)) as [c Hcl].
      change (client_of s1 cid) with (client_of s cid) in Hnone. congruence. }
    exists s', t. split; [done|]. split; [|done].
    split.
    + by apply (consistent_book s1).
    + intros c' c Hcl. destruct (Hact c' c Hcl) as [Hold| ->]; [|done].
      by apply (wired_active s Hw c').
    + intros c'. rewrite Hidle. case_decide; [done|]. apply (wired_idle s Hw).
    + intros c' l' Hsl Hne. book_fields Hb. unfold slot in Hsl. rewrite Hslots in Hsl.
      destruct (decide (c' = cid)) as [->|Hd]; [done|].
      rewrite Hother by done. unfold s1 in Hsl. cbn in Hsl.
      rewrite od_get_set_ne in Hsl by done. by apply (wired_live s Hw c' l').
  - subst cid. pose proof (first_with_room_none s Hfind) as Hfull.
    rewrite (add_subscription_all_full s k Hc Hk Hfull) in *.
    set (s1 := set_client_subscriptions _ (with_new_slot (registered k s))) in *.
    cbn [state_of fst snd] in *. pose proof (consistent_next_fresh s Hc) as Hfresh.
    destruct (subscribe_unlocked_new s1 (_next_client_id s) [] k)
      as (s' & t & -> & Hb & Hlive & Hact & Hother & Hidle & Hs & Hu).
    { unfold slot, s1. cbn. rewrite od_get_app, Hfresh. cbn. by rewrite Z.eqb_refl. }
    { unfold s1. cbn. by rewrite lookup_insert_eq. }
    { done. }
    exists s', t. split; [done|]. split; [|done].
    split.
    + by apply (consistent_book s1).
    + intros c' c Hcl. destruct (Hact c' c Hcl) as [Hold| ->]; [|done].
      unfold client_of, s1 in Hold. cbn in Hold.
      destruct (decide (_next_client_id s = c')) as [<-|Hd].
      * by rewrite lookup_insert_eq in Hold.
      * rewrite lookup_insert_ne in Hold by done. by apply (wired_active s Hw c').
    + intros c'. rewrite Hidle. case_decide; [done|]. unfold s1. cbn.
      rewrite lookup_insert_ne by done. apply (wired_idle s Hw).
    + intros c' l' Hsl Hne. book_fields Hb. unfold slot in Hsl. rewrite Hslots in Hsl.
      destruct (decide (c' = _next_client_id s)) as [->|Hd]; [done|].
      rewrite Hother by done. unfold s1 in Hsl. cbn in Hsl.
      rewrite od_get_app in Hsl.
      destruct (od_get c' (_client_subscriptions s)) as [l0|] eqn:Hget.
      * injection Hsl as ->. unfold client_of, s1. cbn.
        rewrite lookup_insert_ne by done. by apply (wired_live s Hw c' l').
      * cbn in Hsl. destruct (Z.eqb_spec c' (_next_client_id s)); done.
Qed.

(** One [subscribe] on a transport whose calls succeed. *)
Lemma subscribe_step (s : Client) (k : string) :
  wired s →
  ∃ s' t,
    subscribe reliable k s = (Returned tt, s', t)
    ∧ wired s'
    ∧ _subscription_counts s' = <[k := count_of s k + 1]> (_subscription_counts s)
    ∧ (∀ k', count_events (subscribes_key k') t
             = if bool_decide (k' = k) && (count_of s k =? 0) then 1 else 0)
    ∧ (∀ k', count_events (unsubscribes_key k') t = 0)
    ∧ (0 < count_of s k → Forall (λ e, is_send e = false) t).
Proof.
  intros Hw. pose proof (wired_consistent s Hw) as Hc.
  destruct (Z.lt_ge_cases 0 (count_of s k)) as [Hpos|Hzero].
  - rewrite (subscribe_again reliable s k Hw Hpos).
    eexists _, _. split; [reflexivity|]. split.
    { apply wired_counts; [done|].
      pose proof (consistent_add_subscription s k Hc) as Hc'.
      by rewrite add_subscription_again in Hc'. }
    split; [done|].
    destruct (Z.eqb_spec (count_of s k) 0); [lia|].
    split; [intros k'; cbn; by rewrite andb_false_r|]. split; [done|].
    intros _. by repeat constructor.
  - assert (count_of s k = 0) as Hk.
    { pose proof (consistent_count_zero s k Hc Hzero) as Hn. unfold count_of. by rewrite Hn. }
    destruct (subscribe_first_reliable s k Hw Hk) as (s' & t & Heq & Hw' & Hb & Hs & Hu).
    exists s', t. split; [done|]. split; [done|]. book_fields Hb.
    split; [by rewrite Hcounts, add_subscription_counts|].
    rewrite Hk. cbn. split; [intros k'; by rewrite Hs, andb_true_r|].
    split; [done|]. lia.
Qed.

Lemma unsubscribe_last_reliable (s : Client) (k : string) :
  wired s → count_of s k = 1 →
  ∃ s' t,
    unsubscribe reliable k s = (Returned tt, s', t)
    ∧ wired s'
    ∧ _subscription_counts s' = delete k (_subscription_counts s)
    ∧ (∀ k', count_events (subscribes_key k') t = 0)
    ∧ (∀ k', count_events (unsubscribes_key k') t = if bool_decide (k' = k) then 1 else 0).
Proof.
  intros Hw Hk. pose proof (wired_consistent s Hw) as Hc.
  pose proof (consistent_unsubscribe_locked s k Hc) as Hc1.
  destruct (unsubscribe_locked_last s k Hc Hk)
    as (cid & l & l' & subs' & Hfind & Hslot & Hl' & Hsubs' & Hcid & Hlocked).
  rewrite Hlocked in Hc1. cbn in Hc1.
  assert (l ≠ []) as Hl by (intros ->; done).
  destruct (wired_live s Hw cid l Hslot Hl) as [c Hcl].
  pose proof (wired_active s Hw cid c Hcl) as Hact.
  unfold unsubscribe. run_unfold. rewrite Hlocked. cbn.
  set (s1 := released k cid l' subs' s) in *.
  unfold unsubscribe_unlocked. run.
  rewrite (send_live reliable s1 cid c) by done. cbn.
  pose proof (dynamic_unsubscribe_kind s1 [k]) as (Hs & Hu & Hkeys). cbn in Hs, Hu, Hkeys.
  destruct l' as [|k0 l']; cbn.
  - destruct (disconnect_client_active s1 cid c Hcl Hact) as (t & -> & Hquiet).
    eexists _, _. split; [reflexivity|]. split.
    { split.
      - by apply (consistent_book s1).
      - intros c' c0. unfold client_of. cbn.
        destruct (decide (cid = c')) as [<-|Hd].
        + by rewrite lookup_insert_eq.
        + rewrite lookup_insert_ne by done. apply (wired_active s Hw c').
      - apply (wired_idle s Hw).
      - intros c' l0. unfold slot, client_of. cbn. rewrite od_get_set.
        case_decide as Hd; [by intros [= <-]|].
        rewrite lookup_insert_ne by done. apply (wired_live s Hw c' l0). }
    split; [done|].
    split; intros k'; cbn [count_events subscribes_key unsubscribes_key app];
      rewrite ?Hs, ?Hu, ?Hkeys, ?count_events_app; cbn;
      rewrite ?(count_events_no_send _ t (subscribes_key_send k') Hquiet),
        ?(count_events_no_send _ t (unsubscribes_key_send k') Hquiet),
        ?indicator_singleton; lia.
  - eexists _, _. split; [reflexivity|]. split.
    { split.
      - done.
      - apply (wired_active s Hw).
      - apply (wired_idle s Hw).
      - intros c' l0. unfold slot. cbn. rewrite od_get_set.
        case_decide as Hd; [subst; by eexists|]. apply (wired_live s Hw c' l0). }
    split; [done|].
    split; intros k'; cbn [count_events subscribes_key unsubscribes_key app];
      rewrite ?Hs, ?Hu, ?Hkeys; cbn; rewrite ?indicator_singleton; lia.
Qed.

(** One [unsubscribe] on a transport whose calls succeed. *)
Lemma unsubscribe_step (s : Client) (k : string) :
  wired s →
  ∃ s' t,
    unsubscribe reliable k s = (Returned tt, s', t)
    ∧ wired s'
    ∧ (∀ k', count_of s' k'
             = if bool_decide (k' = k) && (0 <? count_of s k) then count_of s k - 1
               else count_of s k')
    ∧ (∀ k', count_events (subscribes_key k') t = 0)
    ∧ (∀ k', count_events (unsubscribes_key k') t
             = if bool_decide (k' = k) && (count_of s k =? 1) then 1 else 0)
    ∧ (count_of s k ≠ 1 → Forall (λ e, is_send e = false) t).
Proof.
  intros Hw. pose proof (wired_consistent s Hw) as Hc.
  destruct (Z.lt_total (count_of s k) 1) as [Hlt|[Heq|Hgt]].
  - rewrite unsubscribe_not_subscribed by lia.
    eexists _, _. split; [reflexivity|]. split; [done|].
    destruct (Z.ltb_spec 0 (count_of s k)); [lia|].
    destruct (Z.eqb_spec (count_of s k) 1); [lia|].
    split; [intros k'; by rewrite andb_false_r|]. split; [done|].
    split; [intros k'; cbn; by rewrite andb_false_r|].
    intros _. by repeat constructor.
  - destruct (unsubscribe_last_reliable s k Hw Heq) as (s' & t & -> & Hw' & Hcounts & Hs & Hu).
    exists s', t. split; [done|]. split; [done|]. rewrite Heq. cbn.
    split.
    { intros k'. unfold count_of at 1. rewrite Hcounts. case_bool_decide as Hd; cbn.
      - subst. by rewrite lookup_delete_eq.
      - rewrite lookup_delete_ne by done. done. }
    split; [done|]. split; [intros k'; by rewrite Hu, andb_true_r|]. done.
  - unfold unsubscribe. run_unfold. rewrite unsubscribe_locked_more by done. cbn.
    eexists _, _. split; [reflexivity|]. split.
    { apply wired_counts; [done|].
      pose proof (consistent_unsubscribe_locked s k Hc) as Hc'.
      by rewrite unsubscribe_locked_more in Hc'. }
    destruct (Z.ltb_spec 0 (count_of s k)); [|lia].
    destruct (Z.eqb_spec (count_of s k) 1); [lia|].
    split.
    { intros k'. unfold count_of at 1. cbn. case_bool_decide as Hd; cbn.
      - subst. by rewrite lookup_insert_eq.
      - rewrite lookup_insert_ne by done. done. }
    split; [done|]. split; [intros k'; cbn; by rewrite andb_false_r|].
    intros _. by repeat constructor.
Qed.

Lemma count_nonneg (s : Client) (k : string) : consistent s → 0 ≤ count_of s k.
Proof.
  intros Hc. unfold count_of.
  destruct (_subscription_counts s !! k) as [n|] eqn:Hn; cbn; [|done].
  apply (counts_positive s Hc) in Hn. lia.
Qed.

Ltac split_tests :=
  repeat (match goal with
          | |- context [?a <? ?b] => destruct (Z.ltb_spec a b)
          | |- context [?a =? ?b] => destruct (Z.eqb_spec a b)
          end; cbn);
  lia.

Lemma call_step (s : Client) (c : Call) :
  is_subscription_call c → wired s →
  ∃ s' t,
    call reliable c s = (Returned tt, s', t)
    ∧ wired s'
    ∧ ∀ k, wire_balance k t = subscribed s' k - subscribed s k.
Proof.
  intros Hcall Hw. pose proof (wired_consistent s Hw) as Hc.
  destruct c as [k0|k0|k0|]; try done; cbn.
  - destruct (subscribe_step s k0 Hw) as (s' & t & Heq & Hw' & Hcounts & Hs & Hu & _).
    exists s', t. split; [done|]. split; [done|].
    intros k. unfold wire_balance, subscribed. rewrite Hs, Hu.
    unfold count_of at 2. rewrite Hcounts.
    pose proof (count_nonneg s k0 Hc). pose proof (count_nonneg s k Hc).
    case_bool_decide as Hd; cbn.
    + subst. rewrite lookup_insert_eq. cbn.
      split_tests.
    + rewrite lookup_insert_ne by done. fold (count_of s k). lia.
  - destruct (unsubscribe_step s k0 Hw) as (s' & t & Heq & Hw' & Hcounts & Hs & Hu & _).
    exists s', t. split; [done|]. split; [done|].
    intros k. unfold wire_balance, subscribed. rewrite Hs, Hu, Hcounts.
    pose proof (count_nonneg s k0 Hc).
    case_bool_decide as Hd; cbn; [|lia]. subst.
    split_tests.
Qed.

Lemma run_calls_reliable (calls : list Call) (s : Client) :
  Forall is_subscription_call calls → wired s →
  wired (run_calls reliable calls s).1
  ∧ ∀ k, wire_balance k (run_calls reliable calls s).2
         = subscribed (run_calls reliable calls s).1 k - subscribed s k.
Proof.
  intros Hcalls. revert s. induction Hcalls as [|c calls Hc _ IH]; intros s Hw; cbn.
  - split; [done|]. intros k. unfold wire_balance. cbn. lia.
  - destruct (call_step s c Hc Hw) as (s1 & t1 & -> & Hw1 & Hb1). cbn.
    specialize (IH s1 Hw1). destruct (run_calls reliable calls s1) as [s2 t2]. cbn in *.
    destruct IH as [Hw2 Hb2]. split; [done|].
    intros k. rewrite wire_balance_app, Hb1, Hb2. lia.
Qed.

Lemma run_calls_reliable_counts (calls : list Call) (s : Client) (k : string) :
  Forall is_subscription_call calls → wired s →
  count_of (run_calls reliable calls s).1 k = effective_calls k (count_of s k) calls.
Proof.
  intros Hcalls. revert s. induction Hcalls as [|c calls Hc _ IH]; intros s Hw; [done|].
  destruct c as [k0|k0|k0|]; try done; cbn.
  - destruct (subscribe_step s k0 Hw) as (s' & t & Heq & Hw' & Hcounts & _).
    rewrite Heq. cbn. specialize (IH s' Hw').
    destruct (run_calls reliable calls s') as [s2 t2]. cbn in *. rewrite IH. f_equal.
    unfold count_of at 1. rewrite Hcounts. destruct (decide (k0 = k)) as [->|Hne].
    + rewrite lookup_insert_eq, bool_decide_eq_true_2 by done. reflexivity.
    + rewrite lookup_insert_ne, bool_decide_eq_false_2 by done. reflexivity.
  - destruct (unsubscribe_step s k0 Hw) as (s' & t & Heq & Hw' & Hcounts & _).
    rewrite Heq. cbn. specialize (IH s' Hw').
    destruct (run_calls reliable calls s') as [s2 t2]. cbn in *. rewrite IH. f_equal.
    rewrite Hcounts. destruct (decide (k0 = k)) as [->|Hne].
    + rewrite !bool_decide_eq_true_2 by done. reflexivity.
    + rewrite (bool_decide_eq_false_2 (k = k0)) by congruence.
      rewrite (bool_decide_eq_false_2 (k0 = k)) by done. reflexivity.
Qed.

(** C2, as the code has it: on a transport whose calls succeed, after
    any sequence of [subscribe] and [unsubscribe] calls on a new client
    the reference count of a key is the number of its subscribes minus
    the number of its unsubscribes that found it subscribed, and the
    wire subscribes covering the key (bulk or dynamic) minus the wire
    unsubscribes for it are 1 when that number is positive and 0 when it
    is 0.  At every call of the sequence: a [subscribe] of a key that
    already has subscribers and an [unsubscribe] of a key whose count is
    not 1 send nothing; a [subscribe] that takes the key from 0 to 1 puts
    one subscribe covering it on the wire and an [unsubscribe] that takes
    it from 1 to 0 one unsubscribe. *)
Theorem wire_balance_follows_count (base_url : option string)
    (channel : PolymarketWebSocketChannel) (auth : option PolymarketWebSocketAuth)
    (capacity : Z) (calls : list Call) (k : string) :
  Forall is_subscription_call calls →
  let s0 := init base_url channel auth capacity in
  count_of (run_calls reliable calls s0).1 k = effective_calls k 0 calls
  ∧ wire_balance k (run_calls reliable calls s0).2
    = (if 0 <? effective_calls k 0 calls then 1 else 0)
  ∧ ∀ before c after, calls = before ++ c :: after →
      let s1 := (run_calls reliable before s0).1 in
      count_of s1 k = effective_calls k 0 before
      ∧ (c = Subscribe k → 0 < effective_calls k 0 before →
         Forall (λ e, is_send e = false) (events_of (call reliable c s1)))
      ∧ (c = Unsubscribe k → effective_calls k 0 before ≠ 1 →
         Forall (λ e, is_send e = false) (events_of (call reliable c s1)))
      ∧ (c = Subscribe k → effective_calls k 0 before = 0 →
         count_events (subscribes_key k) (events_of (call reliable c s1)) = 1
         ∧ count_events (unsubscribes_key k) (events_of (call reliable c s1)) = 0)
      ∧ (c = Unsubscribe k → effective_calls k 0 before = 1 →
         count_events (subscribes_key k) (events_of (call reliable c s1)) = 0
         ∧ count_events (unsubscribes_key k) (events_of (call reliable c s1)) = 1).
Proof.
  intros Hcalls s0.
  pose proof (wired_init base_url channel auth capacity) as Hw0. fold s0 in Hw0.
  assert (count_of s0 k = 0) as Hzero.
  { unfold count_of, s0. cbn. by rewrite lookup_empty. }
  assert (∀ cs, Forall is_subscription_call cs →
                count_of (run_calls reliable cs s0).1 k = effective_calls k 0 cs) as Hcount.
  { intros cs Hcs. rewrite (run_calls_reliable_counts cs s0 k Hcs Hw0). by rewrite Hzero. }
  split; [by apply Hcount|]. split.
  - destruct (run_calls_reliable calls s0 Hcalls Hw0) as [_ Hb].
    rewrite Hb. unfold subscribed. rewrite (Hcount calls Hcalls), Hzero. cbn. lia.
  - intros before c after Hsplit s1.
    assert (Forall is_subscription_call before) as Hbefore.
    { rewrite Hsplit in Hcalls. by apply Forall_app in Hcalls as [? _]. }
    assert (wired s1) as Hw1 by (by apply run_calls_reliable).
    pose proof (Hcount before Hbefore) as Hk1. fold s1 in Hk1. rewrite <- Hk1.
    split; [done|].
    split; [|split; [|split]]; intros -> Hk; cbn.
    + destruct (subscribe_step s1 k Hw1) as (s' & t & -> & _ & _ & _ & _ & Hq). by apply Hq.
    + destruct (unsubscribe_step s1 k Hw1) as (s' & t & -> & _ & _ & _ & _ & Hq).
      by apply Hq.
    + destruct (subscribe_step s1 k Hw1) as (s' & t & -> & _ & _ & Hs & Hu & _). cbn.
      rewrite Hs, Hu, Hk, bool_decide_eq_true_2 by done. done.
    + destruct (unsubscribe_step s1 k Hw1) as (s' & t & -> & _ & _ & Hs & Hu & _). cbn.
      rewrite Hs, Hu, Hk, bool_decide_eq_true_2 by done. done.
Qed.

(** ** Sending, opening and closing a slot's session *)

Local Arguments disconnect : simpl never.
Local Arguments _handle_reconnect : simpl never.
Local Arguments is_connected : simpl never.

Lemma send_returns_unchanged (net : Transport) (s : Client) (cid : Z) (msg : Msg) :
  outcome_of (_send net cid msg s) = Returned tt ∧ state_of (_send net cid msg s) = s.
Proof.
  unfold _send. run. destruct (client_of s cid) as [c|]; run; [|done].
  by destruct (send_ok net cid).
Qed.

Lemma send_transport_calls (net : Transport) (s : Client) (cid : Z) (msg : Msg) :
  outcome_of (_send net cid msg s) = Returned tt
  ∧ state_of (_send net cid msg s) = s
  ∧ List.filter is_transport_call (events_of (_send net cid msg s))
    = match client_of s cid with
      | Some _ => [EvSend cid msg (send_ok net cid)]
      | None => []
      end.
Proof.
  unfold _send. run. destruct (client_of s cid) as [c|]; run; [|done].
  by destruct (send_ok net cid).
Qed.


Lemma disconnect_client_cases (net : Transport) (s : Client) (cid : Z) :
  outcome_of (_disconnect_client net cid s) = Returned tt
  ∧ match client_of s cid with
    | None => _disconnect_client net cid s = (Returned tt, s, [])
    | Some c =>
        if is_disconnecting c || is_closed c then
          state_of (_disconnect_client net cid s) = s
          ∧ List.filter is_transport_call (events_of (_disconnect_client net cid s)) = []
        else
          state_of (_disconnect_client net cid s)
          = set_clients (<[cid := None]> (_clients s)) s
          ∧ List.filter is_transport_call (events_of (_disconnect_client net cid s))
            = [EvDisconnect cid (disconnect_ok net cid)]
    end.
Proof.
  unfold _disconnect_client. run. destruct (client_of s cid) as [c|]; run; [|done].
  destruct (is_disconnecting c || is_closed c); run; [done|].
  by destruct (disconnect_ok net cid).
Qed.

(** X2: [_disconnect_client] never raises.  It calls the transport only
    for a session that is neither disconnecting nor closed, exactly once,
    and then drops the session from the slot whether or not the transport
    call succeeded; a slot without a session, or with one already on its
    way out, is left as it is. *)
Theorem disconnect_client_is_guarded (net : Transport) (s : Client) (cid : Z) :
  outcome_of (_disconnect_client net cid s) = Returned tt
  ∧ book (state_of (_disconnect_client net cid s)) = book s
  ∧ (∀ cid', cid' ≠ cid →
       _clients (state_of (_disconnect_client net cid s)) !! cid' = _clients s !! cid')
  ∧ match client_of s cid with
    | None => _disconnect_client net cid s = (Returned tt, s, [])
    | Some c =>
        if is_disconnecting c || is_closed c then
          state_of (_disconnect_client net cid s) = s
          ∧ List.filter is_transport_call (events_of (_disconnect_client net cid s)) = []
        else
          client_of (state_of (_disconnect_client net cid s)) cid = None
          ∧ List.filter is_transport_call (events_of (_disconnect_client net cid s))
            = [EvDisconnect cid (disconnect_ok net cid)]
    end.
Proof.
  destruct (disconnect_client_cases net s cid) as [Ho Hcases].
  split; [done|]. split; [exact (keeps_book_disconnect_client net cid s)|].
  destruct (client_of s cid) as [c|] eqn:Hcl.
  - destruct (is_disconnecting c || is_closed c).
    + destruct Hcases as [-> Hev]. done.
    + destruct Hcases as [-> Hev]. split; [|split; [|done]].
      * intros cid' Hne. cbn. by rewrite lookup_insert_ne.
      * unfold client_of. cbn. by rewrite lookup_insert_eq.
  - rewrite Hcases. done.
Qed.

(** X3: closing a slot twice is closing it once: after
    [_disconnect_client], a second [_disconnect_client] on the same slot
    changes nothing and does not call the transport. *)
Theorem disconnect_client_twice (net net' : Transport) (s : Client) (cid : Z) :
  let s1 := state_of (_disconnect_client net cid s) in
  state_of (_disconnect_client net' cid s1) = s1
  ∧ List.filter is_transport_call (events_of (_disconnect_client net' cid s1)) = [].
Proof.
  intros s1.
  assert (released_session (client_of s1 cid)) as Hrel.
  { subst s1. destruct (disconnect_client_cases net s cid) as [_ Hcases].
    destruct (client_of s cid) as [c|] eqn:Hcl.
    - destruct (is_disconnecting c || is_closed c) eqn:Hout.
      + destruct Hcases as [-> _]. by rewrite Hcl.
      + destruct Hcases as [-> _]. unfold client_of. cbn. by rewrite lookup_insert_eq.
    - rewrite Hcases. cbn. by rewrite Hcl. }
  destruct (disconnect_client_cases net' s1 cid) as [_ Hcases].
  destruct (client_of s1 cid) as [c|].
  - cbn in Hrel. by rewrite Hrel in Hcases.
  - by rewrite Hcases.
Qed.

Lemma connect_client_refused (net : Transport) (s : Client) (cid : Z) :
  connect_ok net cid = false →
  truthy (default [] (slot s cid)) = true →
  _connect_client net cid s
  = (Raised ConnectError,
     set_is_connecting (<[cid := false]> (_is_connecting s)) s,
     [EvLog DEBUG [Txt "ws-client "; Int cid; Txt ": Connecting to "; Txt (_ws_url s);
                   Txt "..."];
      EvConnect cid false]).
Proof.
  intros Hno Hsubs. unfold slot in Hsubs. unfold _connect_client. run.
  rewrite Hsubs, Hno. unfold finally. run.
  f_equal. f_equal. unfold set_is_connecting. cbn. f_equal. by rewrite insert_insert_eq.
Qed.

Lemma connect_client_empty (net : Transport) (s : Client) (cid : Z) :
  truthy (default [] (slot s cid)) = false →
  _connect_client net cid s
  = (Returned tt, s,
     [EvLog ERROR [Txt "ws-client "; Int cid; Txt ": Cannot connect: no subscriptions"]]).
Proof.
  intros Hsubs. unfold slot in Hsubs. unfold _connect_client. run. by rewrite Hsubs.
Qed.

(** X4: [_connect_client] on a slot without keys (or an unknown slot)
    logs an error and does nothing else.  On a slot with keys the
    connecting flag is cleared again whatever happens; when the transport
    refuses, the error is raised to the caller, the slot's session is
    left as it was and nothing is sent; when it accepts, the call returns
    with an active session on the slot. *)
Theorem connect_client_outcomes (net : Transport) (s : Client) (cid : Z) :
  let r := _connect_client net cid s in
  (truthy (default [] (slot s cid)) = false →
   r = (Returned tt, s,
        [EvLog ERROR [Txt "ws-client "; Int cid; Txt ": Cannot connect: no subscriptions"]]))
  ∧ (truthy (default [] (slot s cid)) = true →
     _is_connecting (state_of r) !! cid = Some false
     ∧ book (state_of r) = book s
     ∧ (connect_ok net cid = false →
        outcome_of r = Raised ConnectError
        ∧ _clients (state_of r) = _clients s
        ∧ List.filter is_transport_call (events_of r) = [EvConnect cid false])
     ∧ (connect_ok net cid = true →
        outcome_of r = Returned tt
        ∧ client_of (state_of r) cid = Some {| mode := ModeActive |}
        ∧ EvConnect cid true ∈ events_of r)).
Proof.
  intros r. subst r. split; [apply connect_client_empty|].
  intros Hsubs. destruct (connect_ok net cid) eqn:Hok.
  - destruct (connect_client_ok net s cid Hok Hsubs) as (t & -> & Hin). cbn.
    rewrite lookup_insert_eq. split; [done|]. split; [done|]. split; [done|].
    intros _. split; [done|]. split; [|done].
    unfold client_of. cbn. by rewrite lookup_insert_eq.
  - rewrite (connect_client_refused net s cid Hok Hsubs). cbn.
    rewrite lookup_insert_eq. split; [done|]. split; [done|]. split; [done|]. done.
Qed.

(** ** Reference counts *)

Lemma find_slot_known (p : Z * list string → bool) (d : list (Z * list string))
    (cid : Z) (l : list string) :
  find p d = Some (cid, l) → is_Some (od_get cid d).
Proof.
  intros Hfind. apply find_some in Hfind as [Hin _]. apply list_elem_of_In in Hin.
  destruct (od_get cid d) eqn:Hget; [by eexists|].
  apply od_get_None in Hget. exfalso. apply Hget. apply list_elem_of_fmap. by exists (cid, l).
Qed.

(** What [add_subscription] does, in every state. *)
Lemma add_subscription_cases (s : Client) (k : string) :
  (0 < count_of s k
   ∧ add_subscription k s
     = (Returned tt,
        set_subscription_counts (<[k := count_of s k + 1]> (_subscription_counts s)) s,
        [EvLog DEBUG [Txt "Already subscribed to "; Txt k; Txt " (count=";
                      Int (count_of s k + 1); Txt ")"]]))
  ∨ (count_of s k ≤ 0
     ∧ ∃ cid l l0, first_with_room s = Some (cid, l) ∧ slot s cid = Some l0
        ∧ add_subscription k s
          = (Returned tt,
             set_client_subscriptions (od_set cid (l0 ++ [k]) (_client_subscriptions s))
               (registered k s),
             []))
  ∨ (count_of s k ≤ 0
     ∧ first_with_room s = None
     ∧ add_subscription k s
       = (Returned tt,
          set_client_subscriptions
            (od_set (_next_client_id s) [k]
               (od_set (_next_client_id s) [] (_client_subscriptions s)))
            (with_new_slot (registered k s)),
          [])).
Proof.
  destruct (Z.lt_ge_cases 0 (count_of s k)) as [Hpos|Hzero].
  - left. split; [done|]. by apply add_subscription_again.
  - right. destruct (first_with_room s) as [[cid l]|] eqn:Hfind.
    + left. split; [done|]. destruct (find_slot_known _ _ _ _ Hfind) as [l0 Hl0].
      exists cid, l, l0. split; [done|]. split; [done|].
      by apply (add_subscription_room s k cid l l0).
    + right. split; [done|]. split; [done|]. by apply add_subscription_full.
Qed.

Lemma unsubscribe_locked_counts (s : Client) (k : string) :
  _subscription_counts (state_of (unsubscribe_locked k s))
  = if count_of s k <=? 0 then _subscription_counts s
    else if 1 <? count_of s k then <[k := count_of s k - 1]> (_subscription_counts s)
    else delete k (_subscription_counts s).
Proof.
  unfold unsubscribe_locked, _get_client_for_subscription, subscriptions_remove, slot_remove.
  run. destruct (count_of s k <=? 0); [done|]. destruct (1 <? count_of s k); [done|]. run.
  repeat (case_match; run; simplify_eq; try done).
Qed.

Lemma reference_counts_any (net : Transport) (s : Client) (k k' : string) :
  count_of (state_of (add_subscription k s)) k'
  = (if bool_decide (k' = k) then count_of s k + 1 else count_of s k')
  ∧ count_of (state_of (subscribe net k s)) k'
    = (if bool_decide (k' = k) then count_of s k + 1 else count_of s k')
  ∧ count_of (state_of (unsubscribe net k s)) k'
    = (if bool_decide (k' = k) && (0 <? count_of s k) then count_of s k - 1
       else count_of s k').
Proof.
  assert (count_of (state_of (add_subscription k s)) k'
          = (if bool_decide (k' = k) then count_of s k + 1 else count_of s k')) as Hadd.
  { assert (_subscription_counts (state_of (add_subscription k s))
            = <[k := count_of s k + 1]> (_subscription_counts s)) as Hc.
    { destruct (add_subscription_cases s k)
        as [[_ ->]|[(_ & cid & l & l0 & _ & _ & ->)|(_ & _ & ->)]]; done. }
    unfold count_of at 1. rewrite Hc. case_bool_decide as Hd.
    - subst. by rewrite lookup_insert_eq.
    - by rewrite lookup_insert_ne. }
  split; [done|]. split.
  - pose proof (subscribe_same_book net s k) as Hb. book_fields Hb.
    unfold count_of at 1. rewrite Hcounts. exact Hadd.
  - pose proof (unsubscribe_same_book net s k) as Hb. book_fields Hb.
    unfold count_of at 1. rewrite Hcounts, unsubscribe_locked_counts.
    destruct (Z.leb_spec (count_of s k) 0); destruct (Z.ltb_spec 1 (count_of s k));
      destruct (Z.ltb_spec 0 (count_of s k)); try lia;
      rewrite ?andb_false_r, ?andb_true_r; try done.
    + case_bool_decide as Hd.
      * subst. by rewrite lookup_insert_eq.
      * by rewrite lookup_insert_ne.
    + case_bool_decide as Hd.
      * subst. rewrite lookup_delete_eq. cbn. lia.
      * by rewrite lookup_delete_ne.
Qed.

(** X5: every [add_subscription] and every [subscribe] of a key raises
    its reference count by exactly 1 and leaves the other counts alone, on
    any transport and whatever the outcome of the call (a connection
    that fails does not take the count back); every [unsubscribe] lowers
    a positive count by exactly 1 and leaves a count of 0 alone. *)
Theorem reference_counts_move_by_one (net : Transport) (s : Client) (k k' : string) :
  count_of (state_of (add_subscription k s)) k'
  = (if bool_decide (k' = k) then count_of s k + 1 else count_of s k')
  ∧ count_of (state_of (subscribe net k s)) k'
    = (if bool_decide (k' = k) then count_of s k + 1 else count_of s k')
  ∧ count_of (state_of (unsubscribe net k s)) k'
    = (if bool_decide (k' = k) && (0 <? count_of s k) then count_of s k - 1
       else count_of s k').
Proof. apply reference_counts_any. Qed.

(** X6: [add_subscription] works offline: in every state it returns
    normally, logs at most, makes no call to the transport, and touches no
    session: the only change to the session table is the empty entry of a
    slot it creates. *)
Theorem add_subscription_is_offline (s : Client) (k : string) :
  outcome_of (add_subscription k s) = Returned tt
  ∧ List.filter is_transport_call (events_of (add_subscription k s)) = []
  ∧ (_clients (state_of (add_subscription k s)) = _clients s
     ∨ (first_with_room s = None
        ∧ _clients (state_of (add_subscription k s))
          = <[_next_client_id s := None]> (_clients s))).
Proof.
  destruct (add_subscription_cases s k)
    as [[_ ->]|[(_ & cid & l & l0 & _ & _ & ->)|(_ & Hfull & ->)]]; cbn.
  - split; [done|]. split; [done|]. by left.
  - split; [done|]. split; [done|]. by left.
  - split; [done|]. split; [done|]. by right.
Qed.

(** ** Connecting queued subscriptions *)

Lemma connect_loop_reliable (k : string) (items : list (Z * list string)) (s : Client) :
  (∀ item, item ∈ items → slot s item.1 = Some item.2) →
  let r := for_each (λ item : Z * list string,
                       if truthy item.2 then _connect_client reliable item.1 else mret tt)
             items s in
  outcome_of r = Returned tt
  ∧ book (state_of r) = book s
  ∧ count_events (subscribes_key k) (events_of r)
    = Z.of_nat (length (List.filter (λ item : Z * list string, bool_decide (k ∈ item.2))
                          items))
  ∧ count_events (unsubscribes_key k) (events_of r) = 0.
Proof.
  revert s. induction items as [|[c l] items IH]; intros s Hslots r; subst r.
  - done.
  - cbn -[_connect_client]. run_unfold.
    assert (slot s c = Some l) as Hslot by (apply (Hslots (c, l)), list_elem_of_here).
    assert (∃ s1 t,
              (if truthy l then _connect_client reliable c else (λ s, (Returned tt, s, []))) s
              = (Returned tt, s1, t)
              ∧ book s1 = book s
              ∧ count_events (subscribes_key k) t = (if bool_decide (k ∈ l) then 1 else 0)
              ∧ count_events (unsubscribes_key k) t = 0) as (s1 & t & -> & Hb & Hs & Hu).
    { destruct l as [|k0 l]; cbn.
      - exists s, []. split; [done|]. split; [done|]. split; [|done].
        rewrite bool_decide_eq_false_2; [done|]. apply not_elem_of_nil.
      - destruct (connect_client_reliable s c (k0 :: l) Hslot ltac:(done)) as (t & -> & Hs & Hu).
        eexists _, t. split; [done|]. split; [done|]. split; [apply Hs | apply Hu]. }
    specialize (IH s1). cbn in IH.
    destruct (for_each _ items s1) as [[o s2] t2] eqn:Hrun. cbn in *.
    destruct IH as (Ho & Hb2 & Hs2 & Hu2).
    { intros item Hin. book_fields Hb. unfold slot in *. rewrite Hslots0.
      apply Hslots. by apply list_elem_of_further. }
    split; [done|]. split; [congruence|].
    rewrite !count_events_app, Hs, Hu, Hs2, Hu2. split; [|done].
    destruct (bool_decide (k ∈ l)); cbn [length]; lia.
Qed.

Lemma consistent_subscribed (s : Client) (k : string) :
  consistent s →
  Z.of_nat (length (List.filter (λ item : Z * list string, bool_decide (k ∈ item.2))
                      (_client_subscriptions s)))
  = subscribed s k.
Proof.
  intros Hc. unfold subscribed.
  destruct (Z.ltb_spec 0 (count_of s k)) as [Hpos|Hzero].
  - pose proof (consistent_count_pos s k Hc Hpos) as Hm.
    assert (k ∈ slot_keys s) as Hh.
    { rewrite (held_iff_listed s Hc), (listed_iff_counted s Hc), Hm. by eexists. }
    by destruct (slots_holding_one k _ (held_once s Hc) Hh) as [item ->].
  - pose proof (consistent_count_zero s k Hc Hzero) as Hm.
    rewrite slots_holding_none; [done|].
    rewrite (held_iff_listed s Hc), (listed_iff_counted s Hc), Hm. by intros [? ?].
Qed.

Lemma connect_covers_consistent (s : Client) (k : string) :
  consistent s →
  outcome_of (connect reliable s) = Returned tt
  ∧ book (state_of (connect reliable s)) = book s
  ∧ count_events (subscribes_key k) (events_of (connect reliable s)) = subscribed s k
  ∧ count_events (unsubscribes_key k) (events_of (connect reliable s)) = 0.
Proof.
  intros Hc. unfold connect. run.
  destruct (_subscriptions s) as [|k0 subs] eqn:Hsubs; cbn.
  - split; [done|]. split; [done|]. split; [|done].
    unfold subscribed. destruct (Z.ltb_spec 0 (count_of s k)) as [Hpos|]; [|done].
    pose proof (consistent_count_pos s k Hc Hpos) as Hm.
    assert (k ∈ _subscriptions s) as Hin.
    { rewrite (listed_iff_counted s Hc), Hm. by eexists. }
    rewrite Hsubs in Hin. by apply elem_of_nil in Hin.
  - pose proof (connect_loop_reliable k (_client_subscriptions s) s) as Hloop.
    cbn in Hloop.
    destruct (for_each _ (_client_subscriptions s) s) as [[o s2] t2] eqn:Hrun. cbn in *.
    destruct Hloop as (Ho & Hb & Hs & Hu).
    { intros [c l] Hin. by apply consistent_slot. }
    split; [done|]. split; [done|]. split; [|done].
    rewrite Hs. by apply consistent_subscribed.
Qed.

(** X7: on a transport whose calls succeed, one [connect] sends for
    every subscribed key exactly one subscribe message covering it (the
    bulk message of the slot that holds it), none for a key without
    subscribers, and no unsubscribe at all; so keys queued with
    [add_subscription] are all wired by the first [connect]. *)
Theorem connect_covers_each_key_once (s : Client) (k : string) :
  reachable s →
  outcome_of (connect reliable s) = Returned tt
  ∧ count_events (subscribes_key k) (events_of (connect reliable s))
    = (if 0 <? count_of s k then 1 else 0)
  ∧ count_events (unsubscribes_key k) (events_of (connect reliable s)) = 0.
Proof.
  intros Hr. destruct (connect_covers_consistent s k (reachable_consistent s Hr))
    as (Ho & _ & Hs & Hu).
  done.
Qed.

(** ** Subscribing and unsubscribing again *)

Lemma list_remove_app_last (x : string) (l : list string) :
  x ∉ l → list_remove x (l ++ [x]) = Some l.
Proof.
  induction l as [|y l IH]; cbn; intros Hn.
  - by rewrite bool_decide_eq_true_2.
  - apply not_elem_of_cons in Hn as [Hxy Hn].
    rewrite bool_decide_eq_false_2 by done. by rewrite IH.
Qed.

Lemma slot_key_held (s : Client) (cid : Z) (l : list string) (k : string) :
  slot s cid = Some l → k ∈ l → k ∈ slot_keys s.
Proof.
  intros Hslot Hk. apply od_get_elem in Hslot. unfold slot_keys.
  apply list_elem_of_In, in_concat. exists l. split; [|by apply list_elem_of_In].
  apply in_map_iff. exists (cid, l). split; [done | by apply list_elem_of_In].
Qed.

(** [unsubscribe] takes back what the registry part of a subscribe did. *)
Lemma unsubscribe_locked_undoes (s s1 : Client) (k : string) :
  consistent s →
  book s1 = book (state_of (add_subscription k s)) →
  _subscriptions (state_of (unsubscribe_locked k s1)) = _subscriptions s
  ∧ _subscription_counts (state_of (unsubscribe_locked k s1)) = _subscription_counts s
  ∧ ∀ c l, slot s c = Some l → slot (state_of (unsubscribe_locked k s1)) c = Some l.
Proof.
  intros Hc Hb. pose proof (consistent_add_subscription s k Hc) as Hc1.
  apply (consistent_book _ s1 Hb) in Hc1. book_fields Hb.
  assert (count_of s1 k = count_of s k + 1) as Hk1.
  { unfold count_of at 1. rewrite Hcounts.
    destruct (add_subscription_cases s k)
      as [[_ ->]|[(_ & cid & l & l0 & _ & _ & ->)|(_ & _ & ->)]]; cbn;
      by rewrite lookup_insert_eq. }
  destruct (Z.lt_ge_cases 0 (count_of s k)) as [Hpos|Hzero].
  - rewrite add_subscription_again in * by done. cbn in *.
    rewrite unsubscribe_locked_more by lia. cbn.
    split; [done|]. split.
    + rewrite Hcounts, Hk1, insert_insert_eq.
      apply insert_id. rewrite (consistent_count_pos s k Hc Hpos). f_equal. lia.
    + intros c l. unfold slot. by rewrite Hslots.
  - pose proof (consistent_count_zero s k Hc Hzero) as Hm.
    assert (count_of s k = 0) as Hk0 by (unfold count_of; by rewrite Hm).
    assert (k ∉ _subscriptions s) as Hnl.
    { rewrite (listed_iff_counted s Hc), Hm. by intros [? ?]. }
    assert (k ∉ slot_keys s) as Hnh by (by rewrite (held_iff_listed s Hc)).
    destruct (unsubscribe_locked_last s1 k Hc1 ltac:(lia))
      as (cid' & l1 & l' & subs' & Hfind & Hslot1 & Hl' & Hsubs' & Hcid' & ->).
    cbn. unfold slot in *.
    destruct (first_with_room s) as [[cid l]|] eqn:Hroom.
    + destruct (first_with_room_lowest s cid l Hc Hroom) as (Hslot & _).
      rewrite (add_subscription_room s k cid l l) in * by done. cbn in *.
      assert (cid' = cid) as ->.
      { destruct (decide (cid' = cid)) as [|Hne]; [done|]. exfalso. apply Hnh.
        rewrite Hslots, od_get_set_ne in Hslot1 by done.
        apply (slot_key_held s cid' l1); [done|].
        apply list_remove_perm in Hl'. rewrite Hl'. apply list_elem_of_here. }
      rewrite Hslots, od_get_set_eq in Hslot1. injection Hslot1 as <-.
      assert (k ∉ l) as Hkl by (intros Hin; apply Hnh; by apply (slot_key_held s cid l)).
      rewrite list_remove_app_last in Hl' by done. injection Hl' as <-.
      rewrite Hsubs, list_remove_app_last in Hsubs' by done. injection Hsubs' as <-.
      split; [done|]. split.
      * rewrite Hcounts, delete_insert_eq. by apply delete_id.
      * intros c l0 Hget. rewrite Hslots, !od_get_set. case_decide; [|done].
        subst. unfold slot in Hslot. congruence.
    + pose proof (first_with_room_none s Hroom) as Hfull.
      rewrite (add_subscription_all_full s k Hc Hk0 Hfull) in *. cbn in *.
      pose proof (consistent_next_fresh s Hc) as Hfresh.
      assert (cid' = _next_client_id s) as ->.
      { destruct (decide (cid' = _next_client_id s)) as [|Hne]; [done|]. exfalso. apply Hnh.
        rewrite Hslots, od_get_app in Hslot1.
        destruct (od_get cid' (_client_subscriptions s)) as [l0|] eqn:Hget.
        - injection Hslot1 as ->. apply (slot_key_held s cid' l1); [done|].
          apply list_remove_perm in Hl'. rewrite Hl'. apply list_elem_of_here.
        - cbn in Hslot1. by destruct (Z.eqb_spec cid' (_next_client_id s)). }
      rewrite Hsubs, list_remove_app_last in Hsubs' by done. injection Hsubs' as <-.
      split; [done|]. split.
      * rewrite Hcounts, delete_insert_eq. by apply delete_id.
      * intros c l0 Hget. rewrite Hslots, od_get_set. case_decide as Hd.
        -- subst. congruence.
        -- by rewrite od_get_app, Hget.
Qed.

(** X8: a subscribe followed by an unsubscribe of the same key takes the
    registry back to where it was, on any transport and whatever the
    outcome of the subscribe: the subscription list (order included), all
    reference counts and the key list of every slot that existed are as
    before; this holds for [subscribe] and for [add_subscription]. *)
Theorem subscribe_then_unsubscribe_restores (net net' : Transport) (s : Client) (k : string) :
  reachable s →
  let undone := state_of (unsubscribe net' k (state_of (subscribe net k s))) in
  let undone' := state_of (unsubscribe net' k (state_of (add_subscription k s))) in
  (_subscriptions undone = _subscriptions s
   ∧ _subscription_counts undone = _subscription_counts s
   ∧ ∀ c l, slot s c = Some l → slot undone c = Some l)
  ∧ (_subscriptions undone' = _subscriptions s
     ∧ _subscription_counts undone' = _subscription_counts s
     ∧ ∀ c l, slot s c = Some l → slot undone' c = Some l).
Proof.
  intros Hr undone undone'. pose proof (reachable_consistent s Hr) as Hc. split.
  - subst undone.
    pose proof (unsubscribe_same_book net' (state_of (subscribe net k s)) k) as Hb.
    book_fields Hb. unfold slot. rewrite Hsubs, Hcounts, Hslots.
    apply (unsubscribe_locked_undoes s _ k Hc), subscribe_same_book.
  - subst undone'.
    pose proof (unsubscribe_same_book net' (state_of (add_subscription k s)) k) as Hb.
    book_fields Hb. unfold slot. rewrite Hsubs, Hcounts, Hslots.
    by apply (unsubscribe_locked_undoes s _ k Hc).
Qed.

(** ** Shutting down *)

Lemma released_not_active (c : WebSocketClient) :
  is_disconnecting c || is_closed c = true → is_active c = false.
Proof. by destruct c as [[]]. Qed.

Lemma is_connected_false (s : Client) :
  (∀ cid, released_session (client_of s cid)) →
  is_connected s = (Returned false, s, []).
Proof.
  intros Hrel. unfold is_connected. run. f_equal. f_equal. f_equal.
  apply not_true_is_false. intros Hex. apply existsb_exists in Hex as (oc & Hin & Hact).
  apply list_elem_of_In, list_elem_of_fmap in Hin as ([cid oc'] & -> & Hin). cbn in Hact.
  apply elem_of_map_to_list in Hin. specialize (Hrel cid). unfold client_of in Hrel.
  rewrite Hin in Hrel. cbn in Hrel. destruct oc' as [c|]; [|done].
  apply released_not_active in Hrel. congruence.
Qed.

Lemma is_connected_true (s : Client) (cid : Z) (c : WebSocketClient) :
  client_of s cid = Some c → is_active c = true →
  is_connected s = (Returned true, s, []).
Proof.
  intros Hcl Hact. unfold is_connected. run. f_equal. f_equal. f_equal.
  apply existsb_exists. exists (Some c). split; [|done].
  apply list_elem_of_In, list_elem_of_fmap. exists (cid, Some c). split; [done|].
  apply elem_of_map_to_list. unfold client_of in Hcl.
  destruct (_clients s !! cid) as [[c'|]|]; cbn in Hcl; by simplify_eq.
Qed.

Lemma disconnect_loop (net : Transport) (keys : list Z) (s : Client) :
  let r := for_each (_disconnect_client net) keys s in
  outcome_of r = Returned tt
  ∧ book (state_of r) = book s
  ∧ _is_connecting (state_of r) = _is_connecting s
  ∧ List.filter (λ e, is_send e || is_connect e) (events_of r) = []
  ∧ (∀ cid, _clients (state_of r) !! cid = _clients s !! cid
            ∨ (is_Some (client_of s cid) ∧ _clients (state_of r) !! cid = Some None))
  ∧ (∀ cid, cid ∈ keys → released_session (client_of (state_of r) cid)).
Proof.
  revert s. induction keys as [|c keys IH]; intros s r; subst r.
  - cbn. split; [done|]. split; [done|]. split; [done|]. split; [done|].
    split; [by left|]. intros cid Hin. by apply elem_of_nil in Hin.
  - cbn -[_disconnect_client]. run_unfold.
    destruct (disconnect_client_cases net s c) as [Ho Hcases].
    assert (book (state_of (_disconnect_client net c s)) = book s) as Hb
      by exact (keeps_book_disconnect_client net c s).
    assert (_is_connecting (state_of (_disconnect_client net c s)) = _is_connecting s
            ∧ List.filter (λ e, is_send e || is_connect e)
                (events_of (_disconnect_client net c s)) = []
            ∧ (∀ cid, _clients (state_of (_disconnect_client net c s)) !! cid
                      = _clients s !! cid
                      ∨ (is_Some (client_of s cid)
                         ∧ _clients (state_of (_disconnect_client net c s)) !! cid
                           = Some None))
            ∧ released_session (client_of (state_of (_disconnect_client net c s)) c))
      as (Hic & Hquiet & Hmono & Hrel).
    { unfold _disconnect_client in *. run.
      destruct (client_of s c) as [w|] eqn:Hcl; run.
      - destruct (is_disconnecting w || is_closed w) eqn:Hout; run.
        + split; [done|]. split; [done|]. split; [by left|]. by rewrite Hcl.
        + destruct (disconnect_ok net c); run.
          all: split; [done|]; split; [done|]; split.
          all: try (unfold client_of; cbn; by rewrite lookup_insert_eq).
          all: intros cid; destruct (decide (c = cid)) as [<-|Hne].
          all: try (right; rewrite lookup_insert_eq; split; [by eexists | done]).
          all: left; by rewrite lookup_insert_ne.
      - split; [done|]. split; [done|]. split; [by left|]. by rewrite Hcl. }
    destruct (_disconnect_client net c s) as [[o s1] t1]. cbn in *. subst o.
    specialize (IH s1). cbn in IH.
    destruct (for_each (_disconnect_client net) keys s1) as [[o2 s2] t2]. cbn in *.
    destruct IH as (Ho2 & Hb2 & Hic2 & Hquiet2 & Hmono2 & Hrel2).
    split; [done|]. split; [congruence|]. split; [congruence|].
    split; [by rewrite List.filter_app, Hquiet, Hquiet2|].
    split.
    + intros cid. destruct (Hmono2 cid) as [Heq|[Hsome Hnone]].
      * rewrite Heq. apply Hmono.
      * right. split; [|done]. destruct (Hmono cid) as [Heq|[Hs _]]; [|done].
        unfold client_of in *. by rewrite <- Heq.
    + intros cid Hin. apply elem_of_cons in Hin as [->|Hin]; [|by apply Hrel2].
      unfold client_of in *. destruct (Hmono2 c) as [Heq|[_ Hnone]].
      * by rewrite Heq.
      * by rewrite Hnone.
Qed.

Lemma disconnect_releases (net : Transport) (s : Client) :
  outcome_of (disconnect net s) = Returned tt
  ∧ book (state_of (disconnect net s)) = book s
  ∧ _is_connecting (state_of (disconnect net s)) = _is_connecting s
  ∧ List.filter (λ e, is_send e || is_connect e) (events_of (disconnect net s)) = []
  ∧ (∀ cid, released_session (client_of (state_of (disconnect net s)) cid)).
Proof.
  unfold disconnect. run.
  pose proof (disconnect_loop net (map_to_list (_clients s)).*1 s) as Hloop. cbn in Hloop.
  destruct (for_each _ _ s) as [[o s1] t1]. cbn in *.
  destruct Hloop as (-> & Hb & Hic & Hquiet & Hmono & Hrel).
  assert (∀ cid, released_session (client_of s1 cid)) as Hall.
  { intros cid. destruct (_clients s !! cid) as [oc|] eqn:Hcl.
    - apply Hrel. apply list_elem_of_fmap. exists (cid, oc). split; [done|].
      by apply elem_of_map_to_list.
    - unfold client_of. destruct (Hmono cid) as [Heq|[_ Hnone]].
      + by rewrite Heq, Hcl.
      + by rewrite Hnone. }
  destruct (truthy _); cbn; rewrite ?app_nil_r, ?List.filter_app, ?Hquiet; done.
Qed.

(** X9: [disconnect] never raises, sends nothing and opens nothing,
    whatever the transport answers; it leaves the subscriptions, the
    counts and the slots' key lists as they were; afterwards no slot holds
    a session other than one that was already disconnecting or closed, and
    [is_connected] answers False. *)
Theorem disconnect_releases_every_session (net : Transport) (s : Client) :
  let s' := state_of (disconnect net s) in
  outcome_of (disconnect net s) = Returned tt
  ∧ book s' = book s
  ∧ List.filter (λ e, is_send e || is_connect e) (events_of (disconnect net s)) = []
  ∧ (∀ cid, released_session (client_of s' cid))
  ∧ is_connected s' = (Returned false, s', [])
  ∧ is_disconnected s' = (Returned true, s', []).
Proof.
  intros s'. subst s'. destruct (disconnect_releases net s) as (Ho & Hb & _ & Hq & Hrel).
  split; [done|]. split; [done|]. split; [done|]. split; [done|].
  pose proof (is_connected_false _ Hrel) as Hconn. split; [done|].
  unfold is_disconnected. run_unfold. by rewrite Hconn.
Qed.

(** X10: nothing is forgotten by [disconnect]: on a transport whose calls
    succeed, a [connect] after it opens every slot that holds keys again
    and sends for every subscribed key exactly one subscribe message
    covering it; with at least one subscription [is_connected] is True
    again. *)
Theorem disconnect_then_connect_rewires (net : Transport) (s : Client) (k : string) :
  reachable s →
  let s1 := state_of (disconnect net s) in
  let s2 := state_of (connect reliable s1) in
  outcome_of (connect reliable s1) = Returned tt
  ∧ count_events (subscribes_key k) (events_of (connect reliable s1))
    = (if 0 <? count_of s k then 1 else 0)
  ∧ (∀ cid l, slot s cid = Some l → l ≠ [] →
       client_of s2 cid = Some {| mode := ModeActive |})
  ∧ (_subscriptions s ≠ [] → is_connected s2 = (Returned true, s2, [])).
Proof.
  intros Hr s1 s2. pose proof (reachable_consistent s Hr) as Hc.
  destruct (disconnect_releases net s) as (_ & Hb & _).
  fold s1 in Hb. pose proof (consistent_book s s1 Hb Hc) as Hc1. book_fields Hb.
  destruct (connect_covers_consistent s1 k Hc1) as (Ho & _ & Hs & _).
  split; [done|]. split.
  { rewrite Hs. unfold subscribed, count_of. by rewrite Hcounts. }
  destruct (reliable_connect_opens s1) as [_ Hopen].
  assert (∀ cid l, slot s cid = Some l → l ≠ [] →
                   client_of s2 cid = Some {| mode := ModeActive |}) as Hlive.
  { intros cid l Hslot Hl. unfold slot in Hslot. rewrite <- Hslots in Hslot.
    destruct (Hopen cid l Hslot Hl) as [_ Hact]; [|done].
    rewrite Hsubs. intros Hnil.
    assert (l = []); [|done].
    destruct l as [|k0 l]; [done|]. exfalso.
    assert (k0 ∈ _subscriptions s1) as Hin.
    { apply (held_iff_listed s1 Hc1), (slot_key_held s1 cid (k0 :: l)); [done|].
      apply list_elem_of_here. }
    rewrite Hsubs, Hnil in Hin. by apply elem_of_nil in Hin. }
  split; [done|].
  intros Hne. destruct (_subscriptions s) as [|k0 subs] eqn:Hl; [done|].
  assert (k0 ∈ slot_keys s) as Hheld.
  { apply (held_iff_listed s Hc). rewrite Hl. apply list_elem_of_here. }
  destruct (first_holding_some s k0 Hheld) as (cid & l & _ & Hkl & Hitem).
  apply (is_connected_true s2 cid {| mode := ModeActive |}); [|done].
  apply (Hlive cid l); [by apply consistent_slot|]. intros ->. by apply elem_of_nil in Hkl.
Qed.

(** ** How a subscribe can end *)

Lemma connect_client_result (net : Transport) (s : Client) (cid : Z) :
  book (state_of (_connect_client net cid s)) = book s
  ∧ (_is_connecting (state_of (_connect_client net cid s)) = _is_connecting s
     ∨ _is_connecting (state_of (_connect_client net cid s))
       = <[cid := false]> (_is_connecting s))
  ∧ (outcome_of (_connect_client net cid s) = Returned tt
     ∨ (outcome_of (_connect_client net cid s) = Raised ConnectError
        ∧ connect_ok net cid = false
        ∧ EvConnect cid false ∈ events_of (_connect_client net cid s))).
Proof.
  split; [exact (keeps_book_connect_client net cid s)|].
  destruct (truthy (default [] (slot s cid))) eqn:Hsubs.
  - destruct (connect_ok net cid) eqn:Hok.
    + destruct (connect_client_ok net s cid Hok Hsubs) as (t & -> & _). cbn.
      split; [by right | by left].
    + rewrite (connect_client_refused net s cid Hok Hsubs). cbn.
      split; [by right|]. right. split; [done|]. split; [done|]. set_solver.
  - rewrite (connect_client_empty net s cid Hsubs). cbn. split; by left.
Qed.

Lemma idle_insert_false (m : gmap Z bool) (cid : Z) :
  (∀ c, default false (m !! c) = false) →
  ∀ c, default false (<[cid := false]> m !! c) = false.
Proof.
  intros Hm c. destruct (decide (cid = c)) as [<-|Hne].
  - by rewrite lookup_insert_eq.
  - by rewrite lookup_insert_ne.
Qed.

Lemma idle_connect_client (net : Transport) (s : Client) (cid : Z) :
  idle s → idle (state_of (_connect_client net cid s)).
Proof.
  intros Hi. destruct (connect_client_result net s cid) as (_ & [Heq|Heq] & _);
    unfold idle; rewrite Heq; [done | by apply idle_insert_false].
Qed.

Lemma idle_add_subscription (s : Client) (k : string) :
  idle s → idle (state_of (add_subscription k s)).
Proof.
  intros Hi. destruct (add_subscription_cases s k)
    as [[_ ->]|[(_ & cid & l & l0 & _ & _ & ->)|(_ & _ & ->)]]; try done.
  unfold idle. cbn. by apply idle_insert_false.
Qed.

(** How the locked block of [subscribe] ends for a key that already has
    subscribers. *)
Lemma subscribe_locked_again (s : Client) (k : string) :
  0 < count_of s k →
  ∃ locked,
    subscribe_locked k s
    = (Returned locked,
       set_subscription_counts (<[k := count_of s k + 1]> (_subscription_counts s)) s,
       [EvLog DEBUG [Txt "Already subscribed to "; Txt k; Txt " (count=";
                     Int (count_of s k + 1); Txt ")"]])
    ∧ (locked = LockedReturn
       ∨ ∃ cid l, locked = LockedRetry cid
                  ∧ first_holding s k = Some (cid, l)
                  ∧ match client_of s cid with
                    | Some c => is_active c = false
                    | None => True
                    end).
Proof.
  intros Hk. unfold subscribe_locked. run.
  destruct (Z.ltb_spec 0 (count_of s k)); [|lia]. run.
  unfold _get_client_for_subscription, first_holding. run.
  destruct (find _ (_client_subscriptions s)) as [[cid l]|]; cbn.
  - destruct (cid =? -1); run; [eexists; split; [reflexivity | by left]|].
    change (client_of (set_subscription_counts _ s) cid) with (client_of s cid).
    destruct (client_of s cid) as [c|] eqn:Hcl; cbn.
    + destruct (is_active c) eqn:Hact; cbn; [eexists; split; [reflexivity | by left]|].
      destruct (default false (_is_connecting s !! cid)); cbn;
        eexists; (split; [reflexivity|]); [by left|].
      right. exists cid, l. by rewrite Hcl.
    + destruct (default false (_is_connecting s !! cid)); cbn;
        eexists; (split; [reflexivity|]); [by left|].
      right. exists cid, l. by rewrite Hcl.
  - eexists. split; [reflexivity | by left].
Qed.

Lemma subscribe_unlocked_result (net : Transport) (s : Client) (k : string)
    (locked : Locked) :
  idle s →
  idle (state_of (subscribe_unlocked net k locked s))
  ∧ (outcome_of (subscribe_unlocked net k locked s) = Returned tt
     ∨ (outcome_of (subscribe_unlocked net k locked s) = Raised ConnectError
        ∧ ∃ cid, connect_ok net cid = false
                 ∧ EvConnect cid false ∈ events_of (subscribe_unlocked net k locked s))).
Proof.
  intros Hi. unfold subscribe_unlocked, wait_while_connecting.
  destruct locked as [|rid|cid]; run.
  - split; [done | by left].
  - pose proof (idle_connect_client net s rid Hi) as Hi'.
    destruct (connect_client_result net s rid) as (_ & _ & Hout).
    destruct (_connect_client net rid s) as [[o s1] t1]. cbn in *. split; [done|].
    destruct Hout as [->|(-> & Hno & Hev)]; [by left|]. right. split; [done|].
    exists rid. split; [done|]. by apply list_elem_of_further.
  - rewrite (Hi cid). run.
    destruct (_clients s !! cid) as [[c|]|] eqn:Hcl; run.
    + destruct (send_returns_unchanged net s cid (_create_dynamic_subscribe_msg s [k]))
        as (Ho & Hs).
      destruct (_send net cid _ s) as [[o s1] t1]. cbn in *. subst. split; [done | by left].
    + pose proof (idle_connect_client net s cid Hi) as Hi'.
      destruct (connect_client_result net s cid) as (_ & _ & Hout).
      destruct (_connect_client net cid s) as [[o s1] t1]. cbn in *. split; [done|].
      destruct Hout as [->|(-> & Hno & Hev)]; [by left|]. right. split; [done|].
      by exists cid.
    + pose proof (idle_connect_client net s cid Hi) as Hi'.
      destruct (connect_client_result net s cid) as (_ & _ & Hout).
      destruct (_connect_client net cid s) as [[o s1] t1]. cbn in *. split; [done|].
      destruct Hout as [->|(-> & Hno & Hev)]; [by left|]. right. split; [done|].
      by exists cid.
Qed.

Lemma subscribe_result (net : Transport) (s : Client) (k : string) :
  idle s →
  idle (state_of (subscribe net k s))
  ∧ (outcome_of (subscribe net k s) = Returned tt
     ∨ (outcome_of (subscribe net k s) = Raised ConnectError
        ∧ ∃ cid, connect_ok net cid = false
                 ∧ EvConnect cid false ∈ events_of (subscribe net k s))).
Proof.
  intros Hi.
  assert (∃ locked t1,
            subscribe_locked k s = (Returned locked, state_of (add_subscription k s), t1))
    as (locked & t1 & Hlocked).
  { destruct (Z.lt_ge_cases 0 (count_of s k)) as [Hpos|Hzero].
    - destruct (subscribe_locked_again s k Hpos) as (locked & Heq & _).
      exists locked. eexists. rewrite Heq. by rewrite add_subscription_again.
    - destruct (subscribe_locked_new s k Hzero) as (cid & Heq & _). by eexists _, _. }
  pose proof (idle_add_subscription s k Hi) as Hi1.
  unfold subscribe. run_unfold. rewrite Hlocked.
  destruct (subscribe_unlocked_result net (state_of (add_subscription k s)) k locked Hi1)
    as [Hi2 Hout].
  destruct (subscribe_unlocked net k locked _) as [[o s2] t2]. cbn in *.
  split; [done|]. destruct Hout as [->|(-> & cid & Hno & Hev)]; [by left|].
  right. split; [done|]. exists cid. split; [done|]. apply elem_of_app. by right.
Qed.

Lemma idle_unsubscribe (net : Transport) (s : Client) (k : string) :
  idle s → idle (state_of (unsubscribe net k s)).
Proof.
  intros Hi.
  assert (keeps _is_connecting (unsubscribe net k)) as Hk.
  { unfold unsubscribe, unsubscribe_locked, unsubscribe_unlocked,
      _get_client_for_subscription, subscriptions_remove, slot_remove,
      _disconnect_client, _send.
    repeat keeps_step. }
  unfold idle. by rewrite (Hk s).
Qed.

Lemma idle_connect (net : Transport) (s : Client) : idle s → idle (state_of (connect net s)).
Proof.
  intros Hi. unfold connect. run. destruct (truthy (_subscriptions s)); [|done]. cbn.
  generalize (_client_subscriptions s) at 1. intros items. revert s Hi.
  induction items as [|[c l] items IH]; intros s Hi; [done|].
  cbn -[_connect_client]. run_unfold.
  assert (∃ o s1 t,
            (if truthy l then _connect_client net c else (λ s, (Returned tt, s, []))) s
            = (o, s1, t) ∧ idle s1) as (o & s1 & t & -> & Hi1).
  { destruct (truthy l).
    - pose proof (idle_connect_client net s c Hi).
      destruct (_connect_client net c s) as [[o s1] t1]. by eexists _, _, _.
    - by eexists _, _, _. }
  destruct o; try done. specialize (IH s1 Hi1).
  by destruct (for_each _ items s1) as [[o2 s2] t2].
Qed.

(** Between calls no connection attempt is under way. *)
Lemma reachable_idle (s : Client) : reachable s → idle s.
Proof.
  induction 1 as [| net c s _ IH | cid m s _ IH].
  - by intros cid.
  - destruct c; cbn.
    + by apply idle_add_subscription.
    + by apply subscribe_result.
    + by apply idle_unsubscribe.
    + by apply idle_connect.
  - unfold transport_event. by repeat case_match.
Qed.

(** X11: a [subscribe] ends in one of two ways: it returns, or it
    raises the connection error of a connection that the transport
    refused during this very call.  It raises nothing else and it does not
    wait forever; on a transport that accepts connections it always
    returns. *)
Theorem subscribe_fails_only_on_refused_connection (net : Transport) (s : Client)
    (k : string) :
  reachable s →
  (outcome_of (subscribe net k s) = Returned tt
   ∨ (outcome_of (subscribe net k s) = Raised ConnectError
      ∧ ∃ cid, connect_ok net cid = false
               ∧ EvConnect cid false ∈ events_of (subscribe net k s)))
  ∧ ((∀ cid, connect_ok net cid = true) → outcome_of (subscribe net k s) = Returned tt).
Proof.
  intros Hr. destruct (subscribe_result net s k (reachable_idle s Hr)) as [_ Hout].
  split; [done|]. intros Hok. destruct Hout as [?|(_ & cid & Hno & _)]; [done|].
  rewrite Hok in Hno. done.
Qed.

(** ** Retrying a failed connection *)


(** ** What an unsubscribe does to the transport *)

Lemma list_remove_last (x : string) (l l' : list string) :
  list_remove x l = Some l' → (l' = [] ↔ l = [x]).
Proof.
  intros Hr. pose proof (list_remove_length _ _ _ Hr) as Hlen. split.
  - intros ->. destruct l as [|y [|z l]]; cbn in *; try done.
    destruct (bool_decide (x = y)) eqn:Hxy; [|done].
    apply bool_decide_eq_true in Hxy. by subst.
  - intros ->. cbn in Hr. rewrite bool_decide_eq_true_2 in Hr by done. by injection Hr.
Qed.

(** X13: [unsubscribe] never raises and never opens a connection.  It
    calls the transport only when the last subscriber of a key goes, and
    only on the slot holding the key: one unsubscribe message for this key
    if the slot has a session (none, and an error in the log, if it has
    not), then one disconnect if the key was the slot's last and the
    session is neither disconnecting nor closed. *)
Theorem unsubscribe_transport_calls (net : Transport) (s : Client) (k : string) :
  reachable s →
  outcome_of (unsubscribe net k s) = Returned tt
  ∧ List.filter is_transport_call (events_of (unsubscribe net k s))
    = if count_of s k =? 1 then
        match first_holding s k with
        | Some (cid, l) =>
            match client_of s cid with
            | Some c =>
                EvSend cid (_create_dynamic_unsubscribe_msg s [k]) (send_ok net cid)
                :: (if bool_decide (l = [k]) && negb (is_disconnecting c || is_closed c)
                    then [EvDisconnect cid (disconnect_ok net cid)] else [])
            | None => []
            end
        | None => []
        end
      else [].
Proof.
  intros Hr. pose proof (reachable_consistent s Hr) as Hc.
  destruct (Z.lt_total (count_of s k) 1) as [Hlt|[Heq|Hgt]].
  - rewrite unsubscribe_not_subscribed by lia. cbn.
    by destruct (Z.eqb_spec (count_of s k) 1); [lia|].
  - destruct (unsubscribe_locked_last s k Hc Heq)
      as (cid & l & l' & subs' & Hfind & Hslot & Hl' & Hsubs' & Hcid & Hlocked).
    rewrite Heq, Hfind. cbn.
    unfold unsubscribe. run_unfold. rewrite Hlocked. cbn.
    set (s1 := released k cid l' subs' s).
    unfold unsubscribe_unlocked. run.
    change (_create_dynamic_unsubscribe_msg s1 [k])
      with (_create_dynamic_unsubscribe_msg s [k]).
    pose proof (send_transport_calls net s1 cid (_create_dynamic_unsubscribe_msg s [k]))
      as (Ho & Hst & Hev).
    change (client_of s1 cid) with (client_of s cid) in *.
    destruct (_send net cid _ s1) as [[o s2] t2]. cbn in *. subst o s2.
    pose proof (list_remove_last k l l' Hl') as Hlast.
    destruct l' as [|k0 l']; cbn.
    + rewrite (bool_decide_eq_true_2 (l = [k])) by (by apply Hlast). cbn.
      destruct (disconnect_client_cases net s1 cid) as [Hod Hcases].
      change (client_of s1 cid) with (client_of s cid) in *.
      destruct (_disconnect_client net cid s1) as [[o3 s3] t3]. cbn in *. subst o3.
      split; [done|]. cbn [events_of snd].
      rewrite List.filter_app. cbn [List.filter is_transport_call].
      rewrite List.filter_app. cbn.
      destruct (client_of s cid) as [c|].
      * rewrite Hev. cbn. destruct (is_disconnecting c || is_closed c); cbn.
        -- destruct Hcases as [_ ->]. done.
        -- destruct Hcases as [_ ->]. done.
      * rewrite Hev. cbn. by simplify_eq.
    + rewrite (bool_decide_eq_false_2 (l = [k])).
      2:{ intros Hk. apply Hlast in Hk. done. }
      cbn. split; [done|]. rewrite List.filter_app. cbn.
      destruct (client_of s cid) as [c|]; rewrite Hev; done.
  - unfold unsubscribe. run_unfold. rewrite unsubscribe_locked_more by done. cbn.
    by destruct (Z.eqb_spec (count_of s k) 1); [lia|].
Qed.

(** ** The reconnection hook *)

(** X14: after the transport has reconnected a slot, the hook creates
    one task that sends the slot's keys again, and the handler's task if a
    handler was given; it changes nothing itself and calls nothing.  Run
    on a session that takes the message, the task sends exactly one bulk
    subscribe, covering every key of this slot and no key of another.
    For a slot without keys, or an unknown slot, the hook creates no task
    and logs an error. *)
Theorem reconnect_replays_slot (net : Transport) (handler_reconnect : bool) (s : Client)
    (cid : Z) :
  (truthy (default [] (slot s cid)) = false →
   _handle_reconnect handler_reconnect cid s
   = (Returned [], s,
      [EvLog ERROR [Txt "ws-client "; Int cid; Txt ": Cannot reconnect: no subscriptions"]]))
  ∧ (∀ l, slot s cid = Some l → l ≠ [] →
       _handle_reconnect handler_reconnect cid s
       = (Returned (SubscribeAllTask cid
                    :: if handler_reconnect then [HandlerReconnectTask] else []),
          s,
          [EvLog WARNING [Txt "ws-client "; Int cid; Txt ": Reconnected to ";
                          Txt (_ws_url s)]])
       ∧ outcome_of (_subscribe_all net cid s) = Returned tt
       ∧ state_of (_subscribe_all net cid s) = s
       ∧ (is_Some (client_of s cid) → send_ok net cid = true →
          List.filter is_transport_call (events_of (_subscribe_all net cid s))
          = [EvSend cid (spec_bulk_subscribe (_channel s) (_auth s) l) true]
          ∧ ∀ k, count_events (subscribes_key k) (events_of (_subscribe_all net cid s))
                 = if bool_decide (k ∈ l) then 1 else 0)).
Proof.
  split.
  - unfold slot. intros Hempty. unfold _handle_reconnect, od_mem. run.
    destruct (od_get cid (_client_subscriptions s)) as [l|]; cbn in *; [|done].
    by rewrite Hempty.
  - unfold slot. intros l Hslot Hl. split.
    { unfold _handle_reconnect, od_mem. run. rewrite Hslot. cbn. by destruct l. }
    assert (_subscribe_all net cid s
            = _send net cid (spec_bulk_subscribe (_channel s) (_auth s) l) s) as ->.
    { unfold _subscribe_all. run. rewrite Hslot. cbn.
      destruct (_channel s); destruct (_send _ _ _ _) as [[[] ?] ?]; reflexivity. }
    destruct (send_returns_unchanged net s cid (spec_bulk_subscribe (_channel s) (_auth s) l))
      as [Ho Hs].
    split; [done|]. split; [done|].
    intros [c Hcl] Hok. rewrite (send_live net s cid c) by done. cbn.
    split; [done|]. intros k.
    pose proof (bulk_subscribe_kind s l) as (Hsub & _ & Hkeys).
    assert (spec_bulk_subscribe (_channel s) (_auth s) l
            = match _channel s with
              | USER => _create_subscribe_user_channel_msg s l
              | MARKET => _create_subscribe_market_channel_msg s l
              end) as -> by (by destruct (_channel s)).
    cbn in Hsub, Hkeys. rewrite Hsub, Hkeys. cbn. by destruct (bool_decide _).
Qed.

(** ** The subscription list *)

(** X15: [subscriptions] returns every key that has subscribers, each
    exactly once, and no other key; [has_subscriptions] is False exactly
    when every reference count is 0.  Neither changes the client. *)
Theorem subscriptions_lists_each_subscribed_key_once (s : Client) :
  reachable s →
  subscriptions s = (Returned (_subscriptions s), s, [])
  ∧ NoDup (_subscriptions s)
  ∧ (∀ k, k ∈ _subscriptions s ↔ 0 < count_of s k)
  ∧ ∃ b, has_subscriptions s = (Returned b, s, [])
         ∧ (b = false ↔ ∀ k, count_of s k = 0).
Proof.
  intros Hr. pose proof (reachable_consistent s Hr) as Hc.
  assert (∀ k, k ∈ _subscriptions s ↔ 0 < count_of s k) as Hlisted.
  { intros k. rewrite (listed_iff_counted s Hc). unfold count_of. split.
    - intros [n Hn]. rewrite Hn. cbn. by apply (counts_positive s Hc k).
    - destruct (_subscription_counts s !! k); cbn; [by eexists | lia]. }
  split; [done|]. split; [apply (listed_once s Hc)|]. split; [done|].
  exists (truthy (_subscriptions s)). split; [done|].
  destruct (_subscriptions s) as [|k0 l] eqn:Hl; cbn; split; try done.
  - intros _ k. pose proof (count_nonneg s k Hc) as Hn.
    destruct (decide (0 < count_of s k)) as [Hpos|]; [|lia].
    apply Hlisted in Hpos. by apply elem_of_nil in Hpos.
  - intros Hall. specialize (Hall k0).
    assert (0 < count_of s k0); [|lia]. apply Hlisted. apply list_elem_of_here.
Qed.

(** ** Other keys *)

Lemma holders_od_set (k : string) (cid : Z) (l0 l1 : list string)
    (d : list (Z * list string)) :
  od_get cid d = Some l0 → (k ∈ l1 ↔ k ∈ l0) →
  map fst (List.filter (λ item : Z * list string, bool_decide (k ∈ item.2)) (od_set cid l1 d))
  = map fst (List.filter (λ item : Z * list string, bool_decide (k ∈ item.2)) d).
Proof.
  intros Hget Hiff. destruct (od_get_split cid l0 d Hget) as (d1 & d2 & Hd & _ & Hset).
  rewrite Hset. rewrite Hd at 1. rewrite !List.filter_app. cbn.
  rewrite (bool_decide_ext _ _ Hiff). by destruct (bool_decide (k ∈ l0)); rewrite !map_app.
Qed.

Lemma holders_add_subscription (s : Client) (k k' : string) :
  consistent s → k' ≠ k →
  slots_holding (state_of (add_subscription k s)) k' = slots_holding s k'.
Proof.
  intros Hc Hne. unfold slots_holding.
  destruct (Z.lt_ge_cases 0 (count_of s k)) as [Hpos|Hzero].
  - by rewrite add_subscription_again.
  - destruct (first_with_room s) as [[cid l]|] eqn:Hfind.
    + destruct (first_with_room_lowest s cid l Hc Hfind) as (Hslot & _).
      rewrite (add_subscription_room s k cid l l) by done. cbn.
      apply (holders_od_set k' cid l); [done|].
      rewrite elem_of_app, list_elem_of_singleton. tauto.
    + assert (count_of s k = 0) as Hk0.
      { unfold count_of. by rewrite (consistent_count_zero s k Hc Hzero). }
      rewrite (add_subscription_all_full s k Hc Hk0 (first_with_room_none s Hfind)). cbn.
      rewrite List.filter_app. cbn.
      rewrite (bool_decide_eq_false_2 (k' ∈ [k])); [by rewrite app_nil_r|].
      by rewrite list_elem_of_singleton.
Qed.

Lemma holders_unsubscribe_locked (s : Client) (k k' : string) :
  consistent s → k' ≠ k →
  slots_holding (state_of (unsubscribe_locked k s)) k' = slots_holding s k'.
Proof.
  intros Hc Hne. unfold slots_holding.
  destruct (Z.lt_total (count_of s k) 1) as [Hlt|[Heq|Hgt]].
  - assert (state_of (unsubscribe_locked k s) = s) as ->; [|done].
    unfold unsubscribe_locked. run.
    destruct (Z.leb_spec (count_of s k) 0); [reflexivity | lia].
  - destruct (unsubscribe_locked_last s k Hc Heq)
      as (cid & l & l' & subs' & Hfind & Hslot & Hl' & Hsubs' & Hcid & ->). cbn.
    apply (holders_od_set k' cid l); [done|].
    apply list_remove_perm in Hl'. rewrite Hl', elem_of_cons. tauto.
  - by rewrite unsubscribe_locked_more.
Qed.

(** X16: subscribing or unsubscribing a key moves no other key: every
    other key keeps its reference count, its place on the subscription
    list or off it, and the slot that holds it, on any transport and
    whatever the outcome of the call. *)
Theorem other_keys_stay (net : Transport) (c : Call) (s : Client) (k k' : string) :
  reachable s →
  c = AddSubscription k ∨ c = Subscribe k ∨ c = Unsubscribe k →
  k' ≠ k →
  count_of (state_of (call net c s)) k' = count_of s k'
  ∧ (k' ∈ _subscriptions (state_of (call net c s)) ↔ k' ∈ _subscriptions s)
  ∧ slots_holding (state_of (call net c s)) k' = slots_holding s k'.
Proof.
  intros Hr Hcall Hne. pose proof (reachable_consistent s Hr) as Hc.
  assert (consistent (state_of (call net c s))) as Hc'.
  { apply reachable_consistent. by constructor. }
  assert (count_of (state_of (call net c s)) k' = count_of s k') as Hcount.
  { destruct (reference_counts_any net s k k') as (Ha & Hs & Hu).
    destruct Hcall as [->|[->| ->]]; cbn.
    - rewrite Ha. by rewrite bool_decide_eq_false_2.
    - rewrite Hs. by rewrite bool_decide_eq_false_2.
    - rewrite Hu. by rewrite bool_decide_eq_false_2. }
  split; [done|]. split.
  { assert (∀ s0, consistent s0 → k' ∈ _subscriptions s0 ↔ 0 < count_of s0 k') as Hl.
    { intros s0 Hc0. rewrite (listed_iff_counted s0 Hc0). unfold count_of. split.
      - intros [n Hn]. rewrite Hn. cbn. by apply (counts_positive s0 Hc0 k').
      - destruct (_subscription_counts s0 !! k'); cbn; [by eexists | lia]. }
    by rewrite (Hl _ Hc'), (Hl _ Hc), Hcount. }
  destruct Hcall as [->|[->| ->]]; cbn.
  - by apply holders_add_subscription.
  - pose proof (subscribe_same_book net s k) as Hb. book_fields Hb.
    unfold slots_holding. rewrite Hslots. by apply holders_add_subscription.
  - pose proof (unsubscribe_same_book net s k) as Hb. book_fields Hb.
    unfold slots_holding. rewrite Hslots. by apply holders_unsubscribe_locked.
Qed.

(** ** A refused connection during [connect] *)

Lemma connect_client_footprint (net : Transport) (s : Client) (c : Z) :
  (∀ c' ok, EvConnect c' ok ∈ events_of (_connect_client net c s) → c' = c)
  ∧ (∀ c', c' ≠ c →
       _clients (state_of (_connect_client net c s)) !! c' = _clients s !! c').
Proof.
  unfold _connect_client, finally, _subscribe_all, _send, client_of. run.
  destruct (truthy _); run.
  - destruct (connect_ok net c); run.
    + rewrite lookup_insert_eq. run. destruct (_channel s); destruct (send_ok net c); run.
      all: split; [intros c' ok Hin | intros c' Hne; by rewrite lookup_insert_ne].
      all: rewrite !elem_of_cons, elem_of_nil in Hin; decompose [or] Hin; by simplify_eq.
    + split; [intros c' ok Hin | done].
      rewrite !elem_of_cons, elem_of_nil in Hin. decompose [or] Hin; by simplify_eq.
  - split; [intros c' ok Hin | done].
    rewrite !elem_of_cons, elem_of_nil in Hin. decompose [or] Hin; by simplify_eq.
Qed.

Lemma connect_loop_stops (net : Transport) (cid : Z) (l : list string)
    (after before : list (Z * list string)) (s : Client) :
  slot s cid = Some l → l ≠ [] → connect_ok net cid = false →
  (∀ c l', (c, l') ∈ before → slot s c = Some l') →
  (∀ c l', (c, l') ∈ before → l' ≠ [] → connect_ok net c = true) →
  let r := for_each (λ item : Z * list string,
                       if truthy item.2 then _connect_client net item.1 else mret tt)
             (before ++ (cid, l) :: after) s in
  outcome_of r = Raised ConnectError
  ∧ book (state_of r) = book s
  ∧ (∀ c, client_of s c = Some {| mode := ModeActive |} →
          client_of (state_of r) c = Some {| mode := ModeActive |})
  ∧ (∀ c l', (c, l') ∈ before → l' ≠ [] →
       client_of (state_of r) c = Some {| mode := ModeActive |})
  ∧ (∀ c, c ∉ map fst before → _clients (state_of r) !! c = _clients s !! c)
  ∧ (∀ c ok, EvConnect c ok ∈ events_of r → c = cid ∨ c ∈ map fst before).
Proof.
  intros Hslot Hl Hno. revert s Hslot.
  induction before as [|[c l'] before IH]; intros s Hslot Hslots Hok r; subst r.
  - cbn -[_connect_client]. run_unfold. destruct l as [|k0 l]; [done|]. cbn -[_connect_client].
    rewrite (connect_client_refused net s cid Hno) by (by rewrite Hslot).
    cbn. split; [done|]. split; [done|]. split; [done|].
    split; [intros ?? Hin; by apply elem_of_nil in Hin|]. split; [done|].
    intros c ok Hin. rewrite !elem_of_cons, elem_of_nil in Hin.
    decompose [or] Hin; simplify_eq. by left.
  - cbn -[_connect_client]. run_unfold.
    assert (slot s c = Some l') as Hsc by (apply Hslots, list_elem_of_here).
    assert (∃ s1 t,
              (if truthy l' then _connect_client net c else (λ s, (Returned tt, s, []))) s
              = (Returned tt, s1, t)
              ∧ book s1 = book s
              ∧ (∀ c0, client_of s c0 = Some {| mode := ModeActive |} →
                       client_of s1 c0 = Some {| mode := ModeActive |})
              ∧ (l' ≠ [] → client_of s1 c = Some {| mode := ModeActive |})
              ∧ (∀ c0, c0 ≠ c → _clients s1 !! c0 = _clients s !! c0)
              ∧ (∀ c0 ok, EvConnect c0 ok ∈ t → c0 = c))
      as (s1 & t & -> & Hb & Hkeep & Hnew & Hframe & Hev).
    { destruct l' as [|k0 l']; cbn -[_connect_client].
      - exists s, []. split; [done|]. split; [done|]. split; [done|]. split; [done|].
        split; [done|]. intros ?? Hin. by apply elem_of_nil in Hin.
      - assert (connect_ok net c = true) as Hc.
        { apply (Hok c (k0 :: l')); [apply list_elem_of_here | done]. }
        destruct (connect_client_accepted net s c Hc) as (s1 & t & Heq & Hb & Hk & Hn).
        destruct (connect_client_footprint net s c) as [Hev Hframe].
        rewrite Heq in Hev, Hframe. cbn in Hev, Hframe.
        exists s1, t. split; [done|]. split; [done|]. split; [done|].
        split; [intros _; apply Hn; by rewrite Hsc|]. done. }
    book_fields Hb.
    destruct (IH s1) as (Ho & Hb2 & Hkeep2 & Hact2 & Hframe2 & Hev2).
    { unfold slot in *. by rewrite Hslots0. }
    { intros c0 l0 Hin. unfold slot in *. rewrite Hslots0.
      apply Hslots. by apply list_elem_of_further. }
    { intros c0 l0 Hin. apply Hok. by apply list_elem_of_further. }
    destruct (for_each _ (before ++ (cid, l) :: after) s1) as [[o s2] t2]. cbn in *.
    split; [done|]. split; [congruence|]. split; [auto|].
    split.
    { intros c0 l0 Hin Hne. apply elem_of_cons in Hin as [[= -> ->]|Hin]; [auto|].
      by apply (Hact2 c0 l0). }
    split.
    { intros c0 Hnin. rewrite not_elem_of_cons in Hnin. destruct Hnin as [Hne Hnin].
      rewrite Hframe2 by done. by apply Hframe. }
    intros c0 ok Hin. apply elem_of_app in Hin as [Hin|Hin].
    + right. apply Hev in Hin as ->. apply list_elem_of_here.
    + destruct (Hev2 c0 ok Hin) as [->|Hb']; [by left|]. right. by apply list_elem_of_further.
Qed.

(** X17: [connect] stops at the first connection the transport refuses:
    the error is raised to the caller, the slots before the refused one
    that hold keys are connected, and the slots after it are not tried at
    all: no connection is opened for them and their sessions are as they
    were. *)
Theorem connect_stops_at_first_refusal (net : Transport) (s : Client) (cid : Z)
    (l : list string) (before after : list (Z * list string)) :
  reachable s →
  _client_subscriptions s = before ++ (cid, l) :: after →
  l ≠ [] →
  connect_ok net cid = false →
  (∀ c l', (c, l') ∈ before → l' ≠ [] → connect_ok net c = true) →
  outcome_of (connect net s) = Raised ConnectError
  ∧ (∀ c l', (c, l') ∈ before → l' ≠ [] →
       client_of (state_of (connect net s)) c = Some {| mode := ModeActive |})
  ∧ _clients (state_of (connect net s)) !! cid = _clients s !! cid
  ∧ (∀ c l', (c, l') ∈ after →
       _clients (state_of (connect net s)) !! c = _clients s !! c
       ∧ ∀ ok, EvConnect c ok ∉ events_of (connect net s)).
Proof.
  intros Hr Hcs Hl Hno Hok. pose proof (reachable_consistent s Hr) as Hc.
  pose proof (consistent_ids_unique s Hc) as Hnd.
  rewrite Hcs, map_app in Hnd. cbn in Hnd.
  apply NoDup_app in Hnd as (_ & Hdisj & Hnd2). apply NoDup_cons in Hnd2 as [Hcid _].
  assert (slot s cid = Some l) as Hslot.
  { apply consistent_slot; [done|]. rewrite Hcs. apply elem_of_app. right.
    apply list_elem_of_here. }
  assert (_subscriptions s ≠ []) as Hsubs.
  { destruct l as [|k0 l]; [done|]. intros Hnil.
    assert (k0 ∈ _subscriptions s) as Hin.
    { apply (held_iff_listed s Hc), (slot_key_held s cid (k0 :: l)); [done|].
      apply list_elem_of_here. }
    rewrite Hnil in Hin. by apply elem_of_nil in Hin. }
  pose proof (connect_loop_stops net cid l after before s Hslot Hl Hno) as Hloop.
  unfold connect. run. destruct (_subscriptions s) as [|k0 subs]; [done|]. cbn.
  rewrite Hcs. cbn in Hloop.
  destruct (for_each _ (before ++ (cid, l) :: after) s) as [[o s2] t2]. cbn in *.
  destruct Hloop as (Ho & _ & _ & Hact & Hframe & Hev).
  { intros c l' Hin. apply consistent_slot; [done|]. rewrite Hcs. apply elem_of_app. by left. }
  { done. }
  split; [done|]. split; [done|].
  assert (cid ∉ map fst before) as Hcb.
  { intros Hin. apply (Hdisj cid Hin). apply list_elem_of_here. }
  split; [by apply Hframe|].
  intros c l' Hin.
  assert (c ∈ map fst after) as Hca by (apply list_elem_of_fmap; by exists (c, l')).
  assert (c ∉ map fst before) as Hcb'.
  { intros Hin'. apply (Hdisj c Hin'). by apply list_elem_of_further. }
  split; [by apply Hframe|].
  intros ok Hin'. destruct (Hev c ok Hin') as [->|?]; done.
Qed.

(** ** Counting calls *)

Lemma run_calls_counts (net : Transport) (calls : list Call) (s : Client) (k : string) :
  Forall is_subscription_call calls →
  never_unsubscribes_unsubscribed k (count_of s k) calls →
  count_of (run_calls net calls s).1 k = count_of s k + net_calls k calls.
Proof.
  intros Hcalls. revert s. induction Hcalls as [|c calls Hc _ IH]; intros s Hnever.
  - cbn. lia.
  - destruct c as [k0|k0|k0|]; try done; cbn in Hnever |- *.
    + destruct (reference_counts_any net s k0 k) as (_ & Hs & _).
      specialize (IH (state_of (subscribe net k0 s))). rewrite Hs in IH.
      destruct (run_calls net calls (state_of (subscribe net k0 s))) as [s2 t2]. cbn in *.
      destruct (decide (k0 = k)) as [->|Hne].
      * rewrite !bool_decide_eq_true_2 in * by done. rewrite IH by done. lia.
      * rewrite (bool_decide_eq_false_2 (k0 = k)) in * by done.
        rewrite (bool_decide_eq_false_2 (k = k0)) in * by congruence.
        rewrite IH by done. lia.
    + destruct (reference_counts_any net s k0 k) as (_ & _ & Hu).
      specialize (IH (state_of (unsubscribe net k0 s))). rewrite Hu in IH.
      destruct (run_calls net calls (state_of (unsubscribe net k0 s))) as [s2 t2]. cbn in *.
      destruct (decide (k0 = k)) as [->|Hne].
      * rewrite !bool_decide_eq_true_2 in * by done. destruct Hnever as [Hpos Hnever].
        destruct (Z.ltb_spec 0 (count_of s k)); [|lia]. cbn in IH.
        rewrite IH by done. lia.
      * rewrite (bool_decide_eq_false_2 (k0 = k)) in * by done.
        rewrite (bool_decide_eq_false_2 (k = k0)) in * by congruence.
        cbn in IH. rewrite IH by done. lia.
Qed.

(** X18: as long as no [unsubscribe] comes for a key without
    subscribers, the reference count of a key is the number of its
    [subscribe] calls minus the number of its [unsubscribe] calls, on any
    transport; on a transport whose calls succeed the wire subscribes
    covering the key minus the wire unsubscribes for it are then 1 when
    that difference is positive and 0 otherwise. *)
Theorem count_is_subscribes_minus_unsubscribes (net : Transport)
    (base_url : option string) (channel : PolymarketWebSocketChannel)
    (auth : option PolymarketWebSocketAuth) (capacity : Z)
    (calls : list Call) (k : string) :
  Forall is_subscription_call calls →
  never_unsubscribes_unsubscribed k 0 calls →
  let s0 := init base_url channel auth capacity in
  count_of (run_calls net calls s0).1 k = net_calls k calls
  ∧ wire_balance k (run_calls reliable calls s0).2
    = (if 0 <? net_calls k calls then 1 else 0).
Proof.
  intros Hcalls Hnever s0.
  assert (count_of s0 k = 0) as Hzero.
  { unfold count_of, s0. cbn. by rewrite lookup_empty. }
  assert (∀ net', count_of (run_calls net' calls s0).1 k = net_calls k calls) as Hcount.
  { intros net'. rewrite (run_calls_counts net' calls s0 k Hcalls); rewrite Hzero; [lia|done]. }
  split; [apply Hcount|].
  destruct (run_calls_reliable calls s0 Hcalls (wired_init base_url channel auth capacity))
    as [_ Hb].
  rewrite Hb. unfold subscribed. rewrite Hcount, Hzero. cbn. lia.
Qed.

(** ** The URL *)

Lemma reachable_config (s : Client) :
  reachable s → ∃ base_url channel auth capacity,
    config s = config (init base_url channel auth capacity).
Proof.
  induction 1 as [base_url channel auth capacity | net c s _ IH | cid m s _ IH].
  - by exists base_url, channel, auth, capacity.
  - destruct IH as (b & ch & a & cap & IH). exists b, ch, a, cap.
    by rewrite (keeps_config_call net c s).
  - destruct IH as (b & ch & a & cap & IH). exists b, ch, a, cap.
    unfold transport_event. by repeat case_match.
Qed.

(** X19: the URL is fixed at construction and no call changes it: it is
    the base URL followed by the channel's name ("market" or "user"), the
    base URL being wss://ws-subscriptions-clob.polymarket.com/ws/ when
    none, or an empty one, was given. *)
Theorem url_is_fixed_at_construction (net : Transport) (c : Call) (s : Client) :
  reachable s →
  url s = String.append (_base_url s) (channel_value (_channel s))
  ∧ _base_url s ≠ ""%string
  ∧ url (state_of (call net c s)) = url s
  ∧ ∀ base_url channel auth capacity,
      url (init base_url channel auth capacity)
      = String.append
          match base_url with
          | None | Some EmptyString => "wss://ws-subscriptions-clob.polymarket.com/ws/"
          | Some base => base
          end%string
          (channel_value channel).
Proof.
  intros Hr. destruct (reachable_config s Hr) as (b & ch & a & cap & Hcfg).
  unfold config in Hcfg. injection Hcfg as _ Hch Hbase Hurl _. unfold url.
  split; [rewrite Hurl, Hbase, Hch; done|]. split.
  { rewrite Hbase. cbn. by destruct b as [[|]|]. }
  split.
  { pose proof (keeps_config_call net c s) as Hk. unfold config in Hk.
    by injection Hk as _ _ _ ? _. }
  intros base_url channel auth capacity. cbn. by destruct base_url as [[|]|].
Qed.

(** ** Control messages *)

(** C8: for both channel kinds and every key list the four builders
    give the templates of the specification, fields in the same order and
    none besides; [_subscribe_all] picks the bulk template of the
    client's channel for the slot's key list. *)
Theorem control_messages_match_templates (net : Transport) (s : Client)
    (keys : list string) (client_id : Z) :
  _create_subscribe_market_channel_msg s keys = spec_bulk_subscribe MARKET (_auth s) keys
  ∧ _create_subscribe_user_channel_msg s keys = spec_bulk_subscribe USER (_auth s) keys
  ∧ _create_dynamic_subscribe_msg s keys = spec_dynamic_subscribe (_channel s) (_auth s) keys
  ∧ _create_dynamic_unsubscribe_msg s keys = spec_dynamic_unsubscribe (_channel s) keys
  ∧ map fst (_create_dynamic_unsubscribe_msg s keys)
    = [match _channel s with MARKET => "assets_ids" | USER => "markets" end;
       "operation"]%string
  ∧ _subscribe_all net client_id s
    = _send net client_id
        (spec_bulk_subscribe (_channel s) (_auth s)
           (default [] (slot s client_id))) s.
Proof.
  unfold _create_dynamic_subscribe_msg, _create_dynamic_unsubscribe_msg,
    _subscribe_all, slot.
  destruct (_channel s) eqn:Hc; run; rewrite ?Hc; repeat split; try reflexivity;
    destruct (_send _ _ _ _) as [[[] ?] ?]; reflexivity.
Qed.

(** ** Legacy queries *)

(** C10: [market_subscriptions] returns the subscription list on the
    USER channel and the empty list on MARKET, [asset_subscriptions] the
    other way round; both return normally, change nothing and perform no
    effect. *)
Theorem legacy_subscription_queries (s : Client) :
  market_subscriptions s
    = (Returned (match _channel s with USER => _subscriptions s | MARKET => [] end), s, [])
  ∧ asset_subscriptions s
    = (Returned (match _channel s with MARKET => _subscriptions s | USER => [] end), s, []).
Proof.
  unfold market_subscriptions, asset_subscriptions.
  split; run; destruct (_channel s); reflexivity.
Qed.

End Client.

(** * Concrete runs *)

(** A MARKET client of capacity 2 without credentials, and the clients
    a few calls make of it. *)
Local Abbreviation new_client :=
  (init (PolymarketWebSocketAuth := unit) None MARKET None 2).
Local Abbreviation client_a := (state_of (call reliable (Subscribe "A") new_client)).
Local Abbreviation client_ab := (state_of (call reliable (Subscribe "B") client_a)).
Local Abbreviation client_closed := (state_of (call reliable (Unsubscribe "A") client_a)).
Local Abbreviation client_queued := (state_of (call reliable (AddSubscription "A") new_client)).

Lemma reachable_client_a : reachable client_a.
Proof. apply reachable_call, reachable_init. Qed.

Lemma reachable_client_ab : reachable client_ab.
Proof. apply reachable_call, reachable_client_a. Qed.


(** C1 does not hold as stated: unsubscribing a key that was never
    subscribed raises nothing. *)
Lemma unsubscribe_zero_count_does_not_fail :
  count_of new_client "A" = 0
  ∧ ¬ ∃ e, outcome_of (unsubscribe reliable "A" new_client) = Raised e.
Proof. split; [reflexivity|]. intros [e He]. vm_compute in He. discriminate. Qed.

Lemma unsubscribe_zero_count_warns_witness :
  count_of new_client "A" = 0
  ∧ (outcome_of (unsubscribe reliable "A" new_client) = Returned tt
     ∧ events_of (unsubscribe reliable "A" new_client)
       = [EvLog WARNING [Txt "Cannot unsubscribe from "; Txt "A"; Txt ": not subscribed"]]
     ∧ Forall (λ e, is_send e = false) (events_of (unsubscribe reliable "A" new_client))).
Proof.
  split; [reflexivity|].
  apply (unsubscribe_zero_count_warns reliable new_client "A"). reflexivity.
Defined.

Lemma unsubscribe_zero_count_unchanged_witness :
  count_of client_a "B" = 0
  ∧ (outcome_of (unsubscribe reliable "B" client_a) = Returned tt
     ∧ state_of (unsubscribe reliable "B" client_a) = client_a).
Proof.
  split; [vm_compute; reflexivity|].
  apply (unsubscribe_zero_count_unchanged reliable client_a "B"). vm_compute. reflexivity.
Defined.

(** C2 does not hold as stated: after [unsubscribe] then [subscribe] of
    the same key the calls cancel out, yet one subscribe is on the wire;
    and when the transport refuses the connection, a [subscribe] counts
    the key and raises without any message going out. *)
Lemma wire_balance_differs_from_net_calls :
  (net_calls "A" [Unsubscribe "A"; Subscribe "A"] = 0
   ∧ wire_balance "A" (run_calls reliable [Unsubscribe "A"; Subscribe "A"] new_client).2 = 1)
  ∧ (let refusing :=
       {| connect_ok := λ _, false; send_ok := λ _, true; disconnect_ok := λ _, true |} in
     net_calls "A" [Subscribe "A"] = 1
     ∧ outcome_of (subscribe refusing "A" new_client) = Raised ConnectError
     ∧ count_of (run_calls refusing [Subscribe "A"] new_client).1 "A" = 1
     ∧ wire_balance "A" (run_calls refusing [Subscribe "A"] new_client).2 = 0).
Proof. repeat split; vm_compute; reflexivity. Qed.

Lemma wire_balance_follows_count_witness :
  Forall is_subscription_call [Subscribe "A"; Subscribe "A"; Unsubscribe "A"]
  ∧ (count_of
       (run_calls reliable [Subscribe "A"; Subscribe "A"; Unsubscribe "A"] new_client).1 "A"
     = effective_calls "A" 0 [Subscribe "A"; Subscribe "A"; Unsubscribe "A"]
     ∧ wire_balance "A"
         (run_calls reliable [Subscribe "A"; Subscribe "A"; Unsubscribe "A"] new_client).2
       = (if 0 <? effective_calls "A" 0 [Subscribe "A"; Subscribe "A"; Unsubscribe "A"]
          then 1 else 0)
     ∧ ∀ before c after,
         [Subscribe "A"; Subscribe "A"; Unsubscribe "A"] = before ++ c :: after →
         count_of (run_calls reliable before new_client).1 "A"
         = effective_calls "A" 0 before
         ∧ (c = Subscribe "A" → 0 < effective_calls "A" 0 before →
            Forall (λ e, is_send e = false)
              (events_of (call reliable c (run_calls reliable before new_client).1)))
         ∧ (c = Unsubscribe "A" → effective_calls "A" 0 before ≠ 1 →
            Forall (λ e, is_send e = false)
              (events_of (call reliable c (run_calls reliable before new_client).1)))
         ∧ (c = Subscribe "A" → effective_calls "A" 0 before = 0 →
            count_events (subscribes_key "A")
              (events_of (call reliable c (run_calls reliable before new_client).1)) = 1
            ∧ count_events (unsubscribes_key "A")
                (events_of (call reliable c (run_calls reliable before new_client).1)) = 0)
         ∧ (c = Unsubscribe "A" → effective_calls "A" 0 before = 1 →
            count_events (subscribes_key "A")
              (events_of (call reliable c (run_calls reliable before new_client).1)) = 0
            ∧ count_events (unsubscribes_key "A")
                (events_of (call reliable c (run_calls reliable before new_client).1)) = 1)).
Proof.
  assert (Forall (is_subscription_call)
            [Subscribe "A"; Subscribe "A"; Unsubscribe "A"]) as Hcalls.
  { repeat constructor. }
  split; [exact Hcalls|].
  exact (wire_balance_follows_count None MARKET None 2
           [Subscribe "A"; Subscribe "A"; Unsubscribe "A"] "A" Hcalls).
Defined.

(** C3 does not hold as stated: with a capacity of 0 the slot created for
    the first key holds one key. *)
Lemma zero_capacity_slot_overfilled :
  reachable (state_of (call reliable (AddSubscription "A")
                         (init (PolymarketWebSocketAuth := unit) None MARKET None 0)))
  ∧ ¬ within_capacity (state_of (call reliable (AddSubscription "A")
                         (init (PolymarketWebSocketAuth := unit) None MARKET None 0))).
Proof.
  split; [apply reachable_call, reachable_init|].
  intros Hw. specialize (Hw 0 ["A"] eq_refl). vm_compute in Hw. by apply Hw.
Qed.

Lemma slots_within_capacity_witness :
  (reachable client_ab ∧ 1 ≤ _max_subscriptions_per_connection client_ab)
  ∧ (within_capacity client_ab
     ∧ (count_of client_ab "C" = 0 → all_full client_ab →
        _client_subscriptions (state_of (add_subscription "C" client_ab))
        = _client_subscriptions client_ab ++ [(_next_client_id client_ab, ["C"])]
        ∧ _client_subscriptions (state_of (subscribe reliable "C" client_ab))
          = _client_subscriptions client_ab ++ [(_next_client_id client_ab, ["C"])])).
Proof.
  assert (1 ≤ _max_subscriptions_per_connection client_ab) as Hcap.
  { vm_compute. discriminate. }
  split; [split; [exact reachable_client_ab | exact Hcap]|].
  exact (slots_within_capacity reliable client_ab "C" reachable_client_ab Hcap).
Defined.



Lemma registry_and_slots_agree_witness :
  reachable client_ab
  ∧ (("A" ∈ _subscriptions client_ab ↔ 0 < count_of client_ab "A")
     ∧ 0 ≤ count_of client_ab "A"
     ∧ (0 < count_of client_ab "A" → ∃ cid, slots_holding client_ab "A" = [cid])
     ∧ (count_of client_ab "A" = 0 → slots_holding client_ab "A" = [])).
Proof.
  split; [exact reachable_client_ab|].
  exact (registry_and_slots_agree client_ab "A" reachable_client_ab).
Defined.

Lemma assign_new_first_fit_witness :
  (reachable client_a ∧ count_of client_a "B" = 0)
  ∧ ((∀ cid l,
        slot client_a cid = Some l → has_room client_a l = true →
        (∀ cid' l', slot client_a cid' = Some l' → has_room client_a l' = true → cid ≤ cid') →
        _get_client_id_for_new_subscription client_a = (Returned cid, client_a, [])
        ∧ _client_subscriptions (state_of (add_subscription "B" client_a))
          = od_set cid (l ++ ["B"]) (_client_subscriptions client_a)
        ∧ _client_subscriptions (state_of (subscribe reliable "B" client_a))
          = od_set cid (l ++ ["B"]) (_client_subscriptions client_a)
        ∧ _next_client_id (state_of (add_subscription "B" client_a))
          = _next_client_id client_a)
     ∧ (all_full client_a →
        outcome_of (_get_client_id_for_new_subscription client_a)
        = Returned (_next_client_id client_a)
        ∧ (∀ cid l, slot client_a cid = Some l → cid < _next_client_id client_a)
        ∧ _client_subscriptions (state_of (_get_client_id_for_new_subscription client_a))
          = _client_subscriptions client_a ++ [(_next_client_id client_a, [])]
        ∧ _client_subscriptions (state_of (add_subscription "B" client_a))
          = _client_subscriptions client_a ++ [(_next_client_id client_a, ["B"])]
        ∧ _client_subscriptions (state_of (subscribe reliable "B" client_a))
          = _client_subscriptions client_a ++ [(_next_client_id client_a, ["B"])]
        ∧ _next_client_id (state_of (add_subscription "B" client_a))
          = _next_client_id client_a + 1)).
Proof.
  assert (count_of client_a "B" = 0) as Hk by (vm_compute; reflexivity).
  split; [split; [exact reachable_client_a | exact Hk]|].
  exact (assign_new_first_fit reliable client_a "B" reachable_client_a Hk).
Defined.

(** C7 does not hold as stated: with a capacity of 1 and the keys A, B
    and C queued on the slots 0, 1 and 2, on a transport that refuses the
    connection of slot 1 only, [connect] raises at slot 1 and never tries
    slot 2, which holds a key and has no session; and on a client whose
    slot 0 has an active session, [connect] opens slot 0 once more. *)
Lemma connect_leaves_later_slot_unopened :
  (let net :=
     {| connect_ok := λ c, negb (c =? 1); send_ok := λ _, true;
        disconnect_ok := λ _, true |} in
   let s :=
     state_of (add_subscription "C"
       (state_of (add_subscription "B"
          (state_of (add_subscription "A"
             (init (PolymarketWebSocketAuth := unit) None MARKET None 1)))))) in
   _subscriptions s = ["A"; "B"; "C"]
   ∧ _client_subscriptions s = [(0, ["A"]); (1, ["B"]); (2, ["C"])]
   ∧ client_of s 2 = None
   ∧ connect_ok net 2 = true
   ∧ outcome_of (connect net s) = Raised ConnectError
   ∧ (∀ ok, EvConnect 2 ok ∉ events_of (connect net s))
   ∧ client_of (state_of (connect net s)) 2 = None)
  ∧ (slot client_ab 0 = Some ["A"; "B"]
     ∧ client_of client_ab 0 = Some {| mode := ModeActive |}
     ∧ List.filter is_connect (events_of (connect reliable client_ab))
       = [EvConnect 0 true]).
Proof.
  split; [cbv zeta|]; repeat split; try (vm_compute; reflexivity).
  intros ok Hin. vm_compute in Hin.
  apply list_elem_of_In in Hin. cbn in Hin. decompose [or] Hin; done.
Qed.

Lemma connect_opens_slots_witness :
  (_subscriptions new_client = []
   ∧ connect reliable new_client
     = (Returned tt, new_client, [EvLog ERROR [Txt "Cannot connect: no subscriptions"]]))
  ∧ (_subscriptions client_queued ≠ []
     ∧ (∀ cid, connect_ok reliable cid = true)
     ∧ slot client_queued 0 = Some ["A"]
     ∧ EvConnect 0 true ∈ events_of (connect reliable client_queued)
     ∧ client_of (state_of (connect reliable client_queued)) 0
       = Some {| mode := ModeActive |}).
Proof.
  split.
  - split; [reflexivity|].
    apply (proj1 (connect_opens_slots reliable new_client)). reflexivity.
  - assert (_subscriptions client_queued ≠ []) as Hsubs by (vm_compute; discriminate).
    assert (∀ cid, connect_ok reliable cid = true) as Hok by reflexivity.
    assert (slot client_queued 0 = Some ["A"]) as Hslot by (vm_compute; reflexivity).
    split; [exact Hsubs|]. split; [exact Hok|]. split; [exact Hslot|].
    apply (proj2 (proj2 (connect_opens_slots reliable client_queued) Hsubs Hok) 0 ["A"]).
    + exact Hslot.
    + discriminate.
Defined.

(** ** Concrete runs for the further properties *)

(** A transport that refuses every connection, and one that refuses
    slot 1 only. *)
Local Abbreviation refusing :=
  {| connect_ok := λ _, false; send_ok := λ _, true; disconnect_ok := λ _, true |}.
Local Abbreviation refusing_slot_1 :=
  {| connect_ok := λ c, negb (c =? 1); send_ok := λ _, true; disconnect_ok := λ _, true |}.

(** A client whose first connection failed, and a client of capacity 1
    with three keys queued on three slots. *)
Local Abbreviation client_failed := (state_of (call refusing (Subscribe "A") new_client)).
Local Abbreviation client_three :=
  (state_of (call reliable (AddSubscription "C")
     (state_of (call reliable (AddSubscription "B")
        (state_of (call reliable (AddSubscription "A")
           (init (PolymarketWebSocketAuth := unit) None MARKET None 1))))))).

Lemma reachable_client_queued : reachable client_queued.
Proof. apply reachable_call, reachable_init. Qed.


Lemma reachable_client_three : reachable client_three.
Proof. do 3 apply reachable_call. apply reachable_init. Qed.

Lemma connect_covers_each_key_once_witness :
  reachable client_queued
  ∧ (outcome_of (connect reliable client_queued) = Returned tt
     ∧ count_events (subscribes_key "A") (events_of (connect reliable client_queued))
       = (if 0 <? count_of client_queued "A" then 1 else 0)
     ∧ count_events (unsubscribes_key "A") (events_of (connect reliable client_queued)) = 0).
Proof.
  split; [exact reachable_client_queued|].
  exact (connect_covers_each_key_once client_queued "A" reachable_client_queued).
Defined.

Lemma subscribe_then_unsubscribe_restores_witness :
  reachable client_a
  ∧ ((_subscriptions (state_of (unsubscribe reliable "B"
                                  (state_of (subscribe refusing "B" client_a))))
      = _subscriptions client_a
      ∧ _subscription_counts (state_of (unsubscribe reliable "B"
                                          (state_of (subscribe refusing "B" client_a))))
        = _subscription_counts client_a
      ∧ ∀ c l, slot client_a c = Some l →
               slot (state_of (unsubscribe reliable "B"
                                 (state_of (subscribe refusing "B" client_a)))) c = Some l)
     ∧ (_subscriptions (state_of (unsubscribe reliable "B"
                                    (state_of (add_subscription "B" client_a))))
        = _subscriptions client_a
        ∧ _subscription_counts (state_of (unsubscribe reliable "B"
                                            (state_of (add_subscription "B" client_a))))
          = _subscription_counts client_a
        ∧ ∀ c l, slot client_a c = Some l →
                 slot (state_of (unsubscribe reliable "B"
                                   (state_of (add_subscription "B" client_a)))) c = Some l)).
Proof.
  split; [exact reachable_client_a|].
  exact (subscribe_then_unsubscribe_restores refusing reliable client_a "B"
           reachable_client_a).
Defined.

Lemma disconnect_then_connect_rewires_witness :
  reachable client_ab
  ∧ (outcome_of (connect reliable (state_of (disconnect reliable client_ab))) = Returned tt
     ∧ count_events (subscribes_key "A")
         (events_of (connect reliable (state_of (disconnect reliable client_ab))))
       = (if 0 <? count_of client_ab "A" then 1 else 0)
     ∧ (∀ cid l, slot client_ab cid = Some l → l ≠ [] →
          client_of (state_of (connect reliable (state_of (disconnect reliable client_ab))))
            cid
          = Some {| mode := ModeActive |})
     ∧ (_subscriptions client_ab ≠ [] →
        is_connected (state_of (connect reliable (state_of (disconnect reliable client_ab))))
        = (Returned true,
           state_of (connect reliable (state_of (disconnect reliable client_ab))), []))).
Proof.
  split; [exact reachable_client_ab|].
  exact (disconnect_then_connect_rewires reliable client_ab "A" reachable_client_ab).
Defined.

Lemma subscribe_fails_only_on_refused_connection_witness :
  reachable client_a
  ∧ ((outcome_of (subscribe refusing "C" client_a) = Returned tt
      ∨ (outcome_of (subscribe refusing "C" client_a) = Raised ConnectError
         ∧ ∃ cid, connect_ok refusing cid = false
                  ∧ EvConnect cid false ∈ events_of (subscribe refusing "C" client_a)))
     ∧ ((∀ cid, connect_ok refusing cid = true) →
        outcome_of (subscribe refusing "C" client_a) = Returned tt)).
Proof.
  split; [exact reachable_client_a|].
  exact (subscribe_fails_only_on_refused_connection refusing client_a "C"
           reachable_client_a).
Defined.


Lemma unsubscribe_transport_calls_witness :
  reachable client_ab
  ∧ (outcome_of (unsubscribe reliable "A" client_ab) = Returned tt
     ∧ List.filter is_transport_call (events_of (unsubscribe reliable "A" client_ab))
       = if count_of client_ab "A" =? 1 then
           match first_holding client_ab "A" with
           | Some (cid, l) =>
               match client_of client_ab cid with
               | Some c =>
                   EvSend cid (_create_dynamic_unsubscribe_msg client_ab ["A"])
                     (send_ok reliable cid)
                   :: (if bool_decide (l = ["A"]) && negb (is_disconnecting c || is_closed c)
                       then [EvDisconnect cid (disconnect_ok reliable cid)] else [])
               | None => []
               end
           | None => []
           end
         else []).
Proof.
  split; [exact reachable_client_ab|].
  exact (unsubscribe_transport_calls reliable client_ab "A" reachable_client_ab).
Defined.

Lemma subscriptions_lists_each_subscribed_key_once_witness :
  reachable client_ab
  ∧ (subscriptions client_ab = (Returned (_subscriptions client_ab), client_ab, [])
     ∧ NoDup (_subscriptions client_ab)
     ∧ (∀ k, k ∈ _subscriptions client_ab ↔ 0 < count_of client_ab k)
     ∧ ∃ b, has_subscriptions client_ab = (Returned b, client_ab, [])
            ∧ (b = false ↔ ∀ k, count_of client_ab k = 0)).
Proof.
  split; [exact reachable_client_ab|].
  exact (subscriptions_lists_each_subscribed_key_once client_ab reachable_client_ab).
Defined.

Lemma other_keys_stay_witness :
  (reachable client_ab
   ∧ (Unsubscribe "A" = AddSubscription "A" ∨ Unsubscribe "A" = Subscribe "A"
      ∨ Unsubscribe "A" = Unsubscribe "A")
   ∧ "B"%string ≠ "A"%string)
  ∧ (count_of (state_of (call reliable (Unsubscribe "A") client_ab)) "B"
     = count_of client_ab "B"
     ∧ ("B" ∈ _subscriptions (state_of (call reliable (Unsubscribe "A") client_ab))
        ↔ "B" ∈ _subscriptions client_ab)
     ∧ slots_holding (state_of (call reliable (Unsubscribe "A") client_ab)) "B"
       = slots_holding client_ab "B").
Proof.
  assert (Unsubscribe "A" = AddSubscription "A" ∨ Unsubscribe "A" = Subscribe "A"
          ∨ Unsubscribe "A" = Unsubscribe "A") as Hcall by (right; right; reflexivity).
  assert ("B"%string ≠ "A"%string) as Hne by discriminate.
  split; [split; [exact reachable_client_ab|]; split; [exact Hcall | exact Hne]|].
  exact (other_keys_stay reliable (Unsubscribe "A") client_ab "A" "B"
           reachable_client_ab Hcall Hne).
Defined.

Lemma connect_stops_at_first_refusal_witness :
  (reachable client_three
   ∧ _client_subscriptions client_three = [(0, ["A"])] ++ (1, ["B"]) :: [(2, ["C"])]
   ∧ ["B"] ≠ []
   ∧ connect_ok refusing_slot_1 1 = false
   ∧ (∀ c l', (c, l') ∈ [(0, ["A"])] → l' ≠ [] → connect_ok refusing_slot_1 c = true))
  ∧ (outcome_of (connect refusing_slot_1 client_three) = Raised ConnectError
     ∧ (∀ c l', (c, l') ∈ [(0, ["A"])] → l' ≠ [] →
          client_of (state_of (connect refusing_slot_1 client_three)) c
          = Some {| mode := ModeActive |})
     ∧ _clients (state_of (connect refusing_slot_1 client_three)) !! 1
       = _clients client_three !! 1
     ∧ (∀ c l', (c, l') ∈ [(2, ["C"])] →
          _clients (state_of (connect refusing_slot_1 client_three)) !! c
          = _clients client_three !! c
          ∧ ∀ ok, EvConnect c ok ∉ events_of (connect refusing_slot_1 client_three))).
Proof.
  assert (_client_subscriptions client_three = [(0, ["A"])] ++ (1, ["B"]) :: [(2, ["C"])])
    as Hcs by (vm_compute; reflexivity).
  assert (["B"] ≠ ([] : list string)) as Hl by discriminate.
  assert (connect_ok refusing_slot_1 1 = false) as Hno by reflexivity.
  assert (∀ c l', (c, l') ∈ [(0, ["A"])] → l' ≠ [] → connect_ok refusing_slot_1 c = true)
    as Hok.
  { intros c l' Hin _. apply list_elem_of_singleton in Hin. injection Hin as -> _.
    reflexivity. }
  split; [split; [exact reachable_client_three|]; split; [exact Hcs|]; split; [exact Hl|];
          split; [exact Hno | exact Hok]|].
  exact (connect_stops_at_first_refusal refusing_slot_1 client_three 1 ["B"]
           [(0, ["A"])] [(2, ["C"])] reachable_client_three Hcs Hl Hno Hok).
Defined.

Lemma count_is_subscribes_minus_unsubscribes_witness :
  (Forall is_subscription_call [Subscribe "A"; Subscribe "A"; Unsubscribe "A"]
   ∧ never_unsubscribes_unsubscribed "A" 0 [Subscribe "A"; Subscribe "A"; Unsubscribe "A"])
  ∧ (count_of (run_calls refusing [Subscribe "A"; Subscribe "A"; Unsubscribe "A"]
                 new_client).1 "A"
     = net_calls "A" [Subscribe "A"; Subscribe "A"; Unsubscribe "A"]
     ∧ wire_balance "A"
         (run_calls reliable [Subscribe "A"; Subscribe "A"; Unsubscribe "A"] new_client).2
       = (if 0 <? net_calls "A" [Subscribe "A"; Subscribe "A"; Unsubscribe "A"]
          then 1 else 0)).
Proof.
  assert (Forall is_subscription_call [Subscribe "A"; Subscribe "A"; Unsubscribe "A"])
    as Hcalls by (repeat constructor).
  assert (never_unsubscribes_unsubscribed "A" 0
            [Subscribe "A"; Subscribe "A"; Unsubscribe "A"]) as Hnever.
  { vm_compute. split; [reflexivity | exact I]. }
  split; [split; [exact Hcalls | exact Hnever]|].
  exact (count_is_subscribes_minus_unsubscribes refusing None MARKET None 2
           [Subscribe "A"; Subscribe "A"; Unsubscribe "A"] "A" Hcalls Hnever).
Defined.

Lemma url_is_fixed_at_construction_witness :
  reachable client_ab
  ∧ (url client_ab = String.append (_base_url client_ab) (channel_value (_channel client_ab))
     ∧ _base_url client_ab ≠ ""%string
     ∧ url (state_of (call refusing (Subscribe "C") client_ab)) = url client_ab
     ∧ ∀ base_url channel (auth : option unit) capacity,
         url (init base_url channel auth capacity)
         = String.append
             match base_url with
             | None | Some EmptyString => "wss://ws-subscriptions-clob.polymarket.com/ws/"
             | Some base => base
             end%string
             (channel_value channel)).
Proof.
  split; [exact reachable_client_ab|].
  exact (url_is_fixed_at_construction refusing (Subscribe "C") client_ab reachable_client_ab).
Defined.

